(** * Content-based recommender (modules/ai_recommendation.py)

    A shallow embedding of the [AIRecommender] class: the tokenizer, the
    corpus builder, the TF-IDF indexer, the cosine-similarity query matcher
    and the category fallback, followed by the properties the specification
    states about them.

    Modelling conventions.
    - A Python [str] is a [string] whose characters are code points below
      256; case folding and the whitespace class are Python's on that range.
    - A Python [dict] is an association list in insertion order ([dict_set]
      overwrites in place, as Python does); [d[k]] is [dict_index], which
      raises [KeyError]; [d.get(k, v)] is [dict_get_default].
    - The numbers.  The module is embedded twice.  At the head of the
      file a Python [float] is a real number: [math.log] is [ln],
      [math.sqrt] is [sqrt], [/] is real division; this is what the
      formulas of the module mean.  In [Fl] the same code runs over an
      arithmetic that is a parameter, so that what is proved there holds
      of the doubles the source computes with.  [exact] instantiates it
      with the reals and gives back the embedding at the head of the
      file; [Binary64] instantiates it with IEEE 754 binary64.
    - An exception is the [Raise] constructor of [result]. *)

From Stdlib Require Import String Ascii List ZArith Bool Arith Lia.
From Stdlib Require Import Reals Lra Permutation Sorted.
From Stdlib Require PrimFloat FloatOps FloatAxioms Uint63.
Import ListNotations.

Open Scope string_scope.
Open Scope nat_scope.
Open Scope list_scope.

(* ------------------------------------------------------------------ *)
(** ** Exceptions *)

Inductive exn : Type :=
| KeyError (key : string)
| AttributeError (attr : string)
| ZeroDivisionError.

Inductive result (A : Type) : Type :=
| Ok (a : A)
| Raise (e : exn).

Arguments Ok {A} a.
Arguments Raise {A} e.

Definition bind {A B : Type} (m : result A) (f : A -> result B) : result B :=
  match m with
  | Ok a => f a
  | Raise e => Raise e
  end.

Notation "x <- m ;; k" := (bind m (fun x => k))
  (at level 61, m at next level, right associativity).

(* ------------------------------------------------------------------ *)
(** ** Strings *)

Module Str.

Definition code (c : ascii) : nat := nat_of_ascii c.

(** [str.lower()] on one code point below 256: the ASCII capitals and
    the Latin-1 capitals (all of 192..222 but the multiplication sign). *)
Definition lower_char (c : ascii) : ascii :=
  let n := code c in
  if ((65 <=? n) && (n <=? 90))
     || ((192 <=? n) && (n <=? 222) && negb (n =? 215))
  then ascii_of_nat (n + 32)
  else c.

Fixpoint lower (s : string) : string :=
  match s with
  | EmptyString => EmptyString
  | String c s' => String (lower_char c) (lower s')
  end.

(** The class [\s] of [re] on a [str] pattern, which is also the class
    [str.split()] splits on: [str.isspace] below 256. *)
Definition is_space (c : ascii) : bool :=
  let n := code c in
  ((9 <=? n) && (n <=? 13)) || ((28 <=? n) && (n <=? 32))
  || (n =? 133) || (n =? 160).

Definition is_lower_alpha (c : ascii) : bool :=
  let n := code c in (97 <=? n) && (n <=? 122).

Definition is_digit (c : ascii) : bool :=
  let n := code c in (48 <=? n) && (n <=? 57).

(** Membership in the character class [[a-z0-9\s]]. *)
Definition in_class (c : ascii) : bool :=
  is_lower_alpha c || is_digit c || is_space c.

(** [re.sub(r'[^a-z0-9\s]', '', text)]: every character outside the
    class is replaced by the empty string. *)
Fixpoint re_sub_strip (s : string) : string :=
  match s with
  | EmptyString => EmptyString
  | String c s' =>
      if in_class c then String c (re_sub_strip s') else re_sub_strip s'
  end.

Definition flush (word : string) : list string :=
  match word with
  | EmptyString => []
  | _ => [word]
  end.

(** [str.split()] with no argument: a scan that collects the current
    word and emits it at a whitespace character or at the end; runs of
    whitespace produce no empty word. *)
Fixpoint split_from (word : string) (s : string) : list string :=
  match s with
  | EmptyString => flush word
  | String c s' =>
      if is_space c then flush word ++ split_from EmptyString s'
      else split_from (word ++ String c EmptyString)%string s'
  end.

Definition split (s : string) : list string := split_from EmptyString s.

(** [sep.join(parts)]. *)
Fixpoint join (sep : string) (parts : list string) : string :=
  match parts with
  | [] => EmptyString
  | [x] => x
  | x :: rest => (x ++ sep ++ join sep rest)%string
  end.

Fixpoint all_chars (p : ascii -> bool) (s : string) : bool :=
  match s with
  | EmptyString => true
  | String c s' => p c && all_chars p s'
  end.

(** [x in xs] for a list of strings. *)
Definition mem (x : string) (xs : list string) : bool :=
  existsb (String.eqb x) xs.

End Str.

(* ------------------------------------------------------------------ *)
(** ** The tokenizer *)

Definition stop_words : list string :=
  ["the"; "a"; "an"; "and"; "or"; "but"; "in"; "on"; "at"; "to"; "for";
   "of"; "with"; "by"; "is"; "are"; "was"; "were"].

Definition _tokenize (text : string) : list string :=
  let text := Str.lower text in
  let text := Str.re_sub_strip text in
  let words := Str.split text in
  filter (fun w => negb (Str.mem w stop_words)) words.

(* ------------------------------------------------------------------ *)
(** ** Dictionaries, counters and sets *)

Definition dict (V : Type) : Type := list (string * V).

Fixpoint dict_get {V : Type} (d : dict V) (k : string) : option V :=
  match d with
  | [] => None
  | (k', v) :: d' => if String.eqb k k' then Some v else dict_get d' k
  end.

(** [d[k]] *)
Definition dict_index {V : Type} (d : dict V) (k : string) : result V :=
  match dict_get d k with
  | Some v => Ok v
  | None => Raise (KeyError k)
  end.

(** [d.get(k, default)] *)
Definition dict_get_default {V : Type} (d : dict V) (k : string) (default : V) : V :=
  match dict_get d k with
  | Some v => v
  | None => default
  end.

(** [d[k] = v]: an existing key keeps its position. *)
Fixpoint dict_set {V : Type} (d : dict V) (k : string) (v : V) : dict V :=
  match d with
  | [] => [(k, v)]
  | (k', v') :: d' =>
      if String.eqb k k' then (k', v) :: d' else (k', v') :: dict_set d' k v
  end.

Definition dict_keys {V : Type} (d : dict V) : list string := map fst d.
Definition dict_values {V : Type} (d : dict V) : list V := map snd d.

(** [collections.Counter]: [c[k] += 1] for each element, in order. *)
Definition counter_add (c : dict nat) (k : string) : dict nat :=
  dict_set c k (dict_get_default c k 0 + 1).

Definition counter_update (c : dict nat) (elems : list string) : dict nat :=
  fold_left counter_add elems c.

Definition Counter (elems : list string) : dict nat := counter_update [] elems.

(** [set(tokens)]: the distinct tokens.  Python leaves the iteration order
    of a set open; the code only feeds it to [Counter.update], whose
    counts do not depend on it. *)
Definition py_set (tokens : list string) : list string :=
  nodup string_dec tokens.

(** [l * n] on lists. *)
Definition list_mul {A : Type} (l : list A) (n : nat) : list A :=
  concat (repeat l n).

(** [l[:stop]] *)
Definition slice_to {A : Type} (l : list A) (stop : Z) : list A :=
  if (stop <? 0)%Z
  then firstn (Z.to_nat (Z.of_nat (length l) + stop)) l
  else firstn (Z.to_nat stop) l.

(** [enumerate(l)] *)
Definition enumerate {A : Type} (l : list A) : list (nat * A) :=
  combine (seq 0 (length l)) l.

(* ------------------------------------------------------------------ *)
(** ** Catalog entries and result records *)

(** A destination object.  [name] is read unguarded by the constructor, so
    every destination has one; each other field the module reads is
    either present ([Some]) or absent from the object ([None]). *)
Record entry : Type := {
  name : string;
  type : option (list string);
  eco_score : option Z;
  description : option string;
  sustainability_features : option (list string)
}.

Definition catalog : Type := dict entry.

(** [obj[key]] on a destination object. *)
Definition field {A : Type} (key : string) (v : option A) : result A :=
  match v with
  | Some a => Ok a
  | None => Raise (KeyError key)
  end.

Inductive number : Type :=
| PyInt (z : Z)
| PyFloat (x : R).

Record recommendation : Type := {
  res_id : string;
  res_name : string;
  match_score : number;
  res_type : list string;
  res_eco_score : Z;
  res_description : string
}.

(* ------------------------------------------------------------------ *)
(** ** The recommender object *)

Record recommender : Type := {
  destinations : catalog;
  corpus : list string;
  doc_ids : list string;
  idf : dict R;
  tf_vectors : dict (dict R);
  doc_norms : dict R
}.

(** *** Corpus builder *)

Definition text_parts (data : entry) : list string :=
  let parts := [] in
  let parts := parts ++ list_mul [name data] 2 in
  let parts :=
    match type data with
    | Some tags => parts ++ list_mul tags 2
    | None => parts
    end in
  let parts :=
    match sustainability_features data with
    | Some features => parts ++ features
    | None => parts
    end in
  parts ++ [match description data with Some d => d | None => "" end].

Definition prepare_step (self : recommender) (item : string * entry) : recommender :=
  let '(dest_id, data) := item in
  let full_text := Str.join " " (text_parts data) in
  {| destinations := destinations self;
     corpus := corpus self ++ [full_text];
     doc_ids := doc_ids self ++ [dest_id];
     idf := idf self;
     tf_vectors := tf_vectors self;
     doc_norms := doc_norms self |}.

Definition _prepare_corpus (self : recommender) : recommender :=
  fold_left prepare_step (destinations self) self.

(** *** Indexer *)

Definition document_frequency (docs : list string) : dict nat :=
  fold_left (fun df doc => counter_update df (py_set (_tokenize doc))) docs [].

Definition compute_idf (N : nat) (df : dict nat) : dict R :=
  map (fun '(term, count) => (term, ln (1 + INR N / INR (count + 1))%R)) df.

Definition total_terms (tokens : list string) : nat :=
  match tokens with
  | [] => 1
  | _ => length tokens
  end.

Definition sum_sq (scores : list R) : R :=
  fold_left (fun acc score => (acc + score ^ 2)%R) scores 0%R.

Definition document_vector (idf_table : dict R) (tokens : list string) : dict R :=
  let term_counts := Counter tokens in
  let total := total_terms tokens in
  fold_left
    (fun vec '(term, count) =>
       let tf := (INR count / INR total)%R in
       dict_set vec term (tf * dict_get_default idf_table term 0)%R)
    term_counts [].

(** One round of the loop over [enumerate(self.corpus)].  The index [i] is
    below the length of [doc_ids], which [_prepare_corpus] grows together
    with [corpus], so the default of [nth] is never returned. *)
Definition tfidf_step (self : recommender) (item : nat * string) : recommender :=
  let '(i, doc_text) := item in
  let vec := document_vector (idf self) (_tokenize doc_text) in
  let doc_id := nth i (doc_ids self) "" in
  let norm_sq := sum_sq (dict_values vec) in
  {| destinations := destinations self;
     corpus := corpus self;
     doc_ids := doc_ids self;
     idf := idf self;
     tf_vectors := dict_set (tf_vectors self) doc_id vec;
     doc_norms := dict_set (doc_norms self) doc_id (sqrt norm_sq) |}.

Definition _compute_tfidf (self : recommender) : recommender :=
  let N := length (corpus self) in
  let df := document_frequency (corpus self) in
  let self :=
    {| destinations := destinations self;
       corpus := corpus self;
       doc_ids := doc_ids self;
       idf := compute_idf N df;
       tf_vectors := tf_vectors self;
       doc_norms := doc_norms self |} in
  fold_left tfidf_step (enumerate (corpus self)) self.

(** [AIRecommender(destinations_data)] *)
Definition AIRecommender (destinations_data : catalog) : recommender :=
  let self :=
    {| destinations := destinations_data;
       corpus := [];
       doc_ids := [];
       idf := [];
       tf_vectors := [];
       doc_norms := [] |} in
  _compute_tfidf (_prepare_corpus self).

(** *** Query matcher *)

Definition _vectorize_query (self : recommender) (query : string) : dict R :=
  let tokens := _tokenize query in
  let term_counts := Counter tokens in
  let total := total_terms tokens in
  fold_left
    (fun vec '(term, count) =>
       match dict_get (idf self) term with
       | Some weight =>
           let tf := (INR count / INR total)%R in
           dict_set vec term (tf * weight)%R
       | None => vec
       end)
    term_counts [].

Definition dot_product (query_vec dest_vec : dict R) : R :=
  fold_left
    (fun dot '(term, q_score) =>
       match dict_get dest_vec term with
       | Some d_score => (dot + q_score * d_score)%R
       | None => dot
       end)
    query_vec 0%R.

Definition cosine (query_vec : dict R) (query_norm : R)
    (dest_vec : dict R) (dest_norm : R) : R :=
  if Rlt_dec 0 dest_norm
  then (dot_product query_vec dest_vec / (query_norm * dest_norm))%R
  else 0%R.

Fixpoint score_documents (norms : dict R) (query_vec : dict R) (query_norm : R)
    (vectors : dict (dict R)) : result (list (string * R)) :=
  match vectors with
  | [] => Ok []
  | (dest_id, dest_vec) :: rest =>
      dest_norm <- dict_index norms dest_id ;;
      let similarity := cosine query_vec query_norm dest_vec dest_norm in
      scores <- score_documents norms query_vec query_norm rest ;;
      Ok ((dest_id, similarity) :: scores)
  end.

(** [scores.sort(key=lambda x: x[1], reverse=True)].  The sort of Python
    lists is stable, also with [reverse=True]; its result is therefore the
    one of any stable sort, here insertion from the right. *)
Fixpoint insert_desc (x : string * R) (l : list (string * R)) : list (string * R) :=
  match l with
  | [] => [x]
  | y :: l' =>
      if Rlt_dec (snd x) (snd y) then y :: insert_desc x l' else x :: l
  end.

Definition sort_desc (l : list (string * R)) : list (string * R) :=
  fold_right insert_desc [] l.

Definition floor (x : R) : Z := (up x - 1)%Z.

(** Rounding to the nearest integer, halves to the even neighbour. *)
Definition round_half_even (x : R) : Z :=
  let f := floor x in
  let d := (x - IZR f)%R in
  if Rlt_dec d (1 / 2) then f
  else if Rlt_dec (1 / 2) d then (f + 1)%Z
  else if Z.even f then f else (f + 1)%Z.

(** [round(x, 1)] *)
Definition round1 (x : R) : R := (IZR (round_half_even (x * 10)) / 10)%R.

Definition threshold : R := 0.05%R.

Fixpoint format_results (dests : catalog) (scores : list (string * R))
    : result (list recommendation) :=
  match scores with
  | [] => Ok []
  | (dest_id, score) :: rest =>
      if Rlt_dec threshold score then
        dest <- dict_index dests dest_id ;;
        tags <- field "type" (type dest) ;;
        eco <- field "eco_score" (eco_score dest) ;;
        desc <- field "description" (description dest) ;;
        results <- format_results dests rest ;;
        Ok ({| res_id := dest_id;
               res_name := name dest;
               match_score := PyFloat (round1 (score * 100));
               res_type := tags;
               res_eco_score := eco;
               res_description := desc |} :: results)
      else format_results dests rest
  end.

Definition recommend (self : recommender) (query : string) (top_k : Z)
    : result (list recommendation) :=
  let query_vec := _vectorize_query self query in
  let query_norm := sqrt (sum_sq (dict_values query_vec)) in
  if Req_dec_T query_norm 0 then Ok []
  else
    scores <- score_documents (doc_norms self) query_vec query_norm (tf_vectors self) ;;
    let scores := sort_desc scores in
    format_results (destinations self) (slice_to scores top_k).

(** *** Category fallback *)

Fixpoint suggestions_loop (items : catalog) (context_type : string)
    : result (list recommendation) :=
  match items with
  | [] => Ok []
  | (dest_id, data) :: rest =>
      if Str.mem context_type (match type data with Some tags => tags | None => [] end)
      then
        tags <- field "type" (type data) ;;
        eco <- field "eco_score" (eco_score data) ;;
        desc <- field "description" (description data) ;;
        results <- suggestions_loop rest context_type ;;
        Ok ({| res_id := dest_id;
               res_name := name data;
               match_score := PyInt 90;
               res_type := tags;
               res_eco_score := eco;
               res_description := desc |} :: results)
      else suggestions_loop rest context_type
  end.

Definition get_suggestions (self : recommender) (context_type : string)
    : result (list recommendation) :=
  results <- suggestions_loop (destinations self) context_type ;;
  Ok (slice_to results 3).

(* ------------------------------------------------------------------ *)
(** ** Vocabulary of the statements *)

(** A token character: a lowercase letter or a digit. *)
Definition token_char (c : ascii) : bool :=
  Str.is_lower_alpha c || Str.is_digit c.

(** A word of a split: non-empty and free of whitespace. *)
Definition is_word (w : string) : Prop :=
  w <> EmptyString /\ Str.all_chars (fun c => negb (Str.is_space c)) w = true.

(** The optional fields of a destination, read as empty when absent. *)
Definition tags_of (data : entry) : list string :=
  match type data with Some tags => tags | None => [] end.

Definition features_of (data : entry) : list string :=
  match sustainability_features data with Some fs => fs | None => [] end.

Definition description_of (data : entry) : string :=
  match description data with Some d => d | None => "" end.

(** The weighting rule of the data model: name twice, category tags twice,
    sustainability features once, description once, joined by spaces. *)
Definition weighted_text (data : entry) : string :=
  Str.join " "
    ([name data; name data] ++ tags_of data ++ tags_of data
     ++ features_of data ++ [description_of data]).

(** A destination that carries every field a result record shows. *)
Definition complete (data : entry) : Prop :=
  type data <> None /\ eco_score data <> None /\ description data <> None.

Definition has_tag (tag : string) (item : string * entry) : bool :=
  Str.mem tag (tags_of (snd item)).

(** The record [get_suggestions] stamps on a matching destination. *)
Definition suggestion_of (item : string * entry) : recommendation :=
  {| res_id := fst item;
     res_name := name (snd item);
     match_score := PyInt 90;
     res_type := tags_of (snd item);
     res_eco_score := match eco_score (snd item) with Some e => e | None => 0%Z end;
     res_description := description_of (snd item) |}.

(** Document frequency in the words of the specification: the number of
    documents whose set of distinct tokens contains the term. *)
Definition docs_containing (docs : list string) (term : string) : nat :=
  length (filter (fun doc => Str.mem term (py_set (_tokenize doc))) docs).


(** The Euclidean norm of a sparse vector, as both the indexer and the
    query matcher compute it. *)
Definition norm (vec : dict R) : R := sqrt (sum_sq (dict_values vec)).

(** The TF-IDF vector of a destination under an idf table. *)
Definition vector_of (table : dict R) (data : entry) : dict R :=
  document_vector table (_tokenize (weighted_text data)).

(** Descending order on scored documents. *)
Definition desc (a b : string * R) : Prop := (snd b <= snd a)%R.

(** The documents whose score is exactly [v]. *)
Definition has_score (v : R) (p : string * R) : bool :=
  if Req_dec_T (snd p) v then true else false.

(** The minimum-relevance test: similarity strictly above the threshold. *)
Definition relevant (p : string * R) : bool :=
  if Rlt_dec threshold (snd p) then true else false.

(** Formatting of every scored document of a list, with no test. *)
Fixpoint format_all (dests : catalog) (scores : list (string * R))
    : result (list recommendation) :=
  match scores with
  | [] => Ok []
  | (dest_id, score) :: rest =>
      dest <- dict_index dests dest_id ;;
      tags <- field "type" (type dest) ;;
      eco <- field "eco_score" (eco_score dest) ;;
      desc <- field "description" (description dest) ;;
      results <- format_all dests rest ;;
      Ok ({| res_id := dest_id;
             res_name := name dest;
             match_score := PyFloat (round1 (score * 100));
             res_type := tags;
             res_eco_score := eco;
             res_description := desc |} :: results)
  end.

(** The query matcher in the order of the specification: sort all
    documents by similarity, keep those above the threshold, then truncate
    to [top_k], then format. *)
Definition recommend_spec (self : recommender) (query : string) (top_k : Z)
    : result (list recommendation) :=
  let query_vec := _vectorize_query self query in
  let query_norm := norm query_vec in
  if Req_dec_T query_norm 0 then Ok []
  else
    scores <- score_documents (doc_norms self) query_vec query_norm (tf_vectors self) ;;
    let ranked := sort_desc scores in
    let kept := filter relevant ranked in
    let top := firstn (Z.to_nat top_k) kept in
    format_all (destinations self) top.

(** The similarity of every indexed document to a query, in index order. *)
Definition similarities (self : recommender) (query : string) : list (string * R) :=
  let query_vec := _vectorize_query self query in
  map (fun kv => (fst kv, cosine query_vec (norm query_vec) (snd kv) (norm (snd kv))))
      (tf_vectors self).

(** The scored documents a call of [recommend] formats: the ranking cut to
    [top_k] and filtered by the threshold. *)
Definition ranked (self : recommender) (query : string) (top_k : Z)
    : list (string * R) :=
  filter relevant (slice_to (sort_desc (similarities self query)) top_k).

(** Sums of lists of reals, and the value a sparse vector gives a term
    (zero for a term it does not hold). *)
Definition Rsum (xs : list R) : R := fold_right Rplus 0%R xs.

Definition weight_of (vec : dict R) (term : string) : R :=
  dict_get_default vec term 0%R.

(** A dictionary without the first entry of a key. *)
Fixpoint dict_remove {V : Type} (d : dict V) (k : string) : dict V :=
  match d with
  | [] => []
  | (k', v) :: d' =>
      if String.eqb k k' then d' else (k', v) :: dict_remove d' k
  end.

(** A sparse vector as the indexer builds them: one entry per term, no
    negative entry. *)
Definition sparse_vector (vec : dict R) : Prop :=
  NoDup (dict_keys vec) /\ Forall (fun kv => (0 <= snd kv)%R) vec.

(* ------------------------------------------------------------------ *)
(** ** Concrete catalogs *)

(** Three destinations of the knowledge base. *)
Definition manali : entry :=
  {| name := "Manali, Himachal Pradesh";
     type := Some ["adventure"; "nature"; "spiritual"];
     eco_score := Some 8%Z;
     description :=
       Some "Himalayan hill station known for eco-tourism and adventure sports";
     sustainability_features :=
       Some ["Solar-powered hotels"; "Plastic-free zones"; "Local community tours"] |}.

Definition kerala_backwaters : entry :=
  {| name := "Kerala Backwaters";
     type := Some ["nature"; "relaxation"; "cultural"];
     eco_score := Some 9%Z;
     description :=
       Some "Sustainable houseboat tourism with responsible tourism practices";
     sustainability_features :=
       Some ["Solar houseboats"; "Organic food"; "Zero-waste initiatives"] |}.

Definition rishikesh : entry :=
  {| name := "Rishikesh, Uttarakhand";
     type := Some ["spiritual"; "adventure"; "nature"];
     eco_score := Some 8%Z;
     description :=
       Some "Yoga capital of the world with strong eco-consciousness";
     sustainability_features :=
       Some ["Vegetarian food culture"; "Ganga conservation"; "Ashram stays"] |}.

Definition DESTINATIONS : catalog :=
  [("manali", manali);
   ("kerala_backwaters", kerala_backwaters);
   ("rishikesh", rishikesh)].

(** A one-destination catalog whose only document mentions the beach once
    among thirty-one tokens. *)
Definition valley_description : string :=
  "green valley green valley green valley green valley green valley green valley green valley green valley green valley green valley green valley green valley beach".

Definition valley : entry :=
  {| name := "Green Valley";
     type := Some ["nature"];
     eco_score := Some 7%Z;
     description := Some valley_description;
     sustainability_features := None |}.

Definition valley_catalog : catalog := [("valley", valley)].

(** The idf weight of every term of a one-document corpus. *)
Definition single_idf : R := ln (1 + INR 1 / INR 2).

Definition valley_vector : dict R :=
  [("green", (INR 14 / INR 31 * single_idf)%R);
   ("valley", (INR 14 / INR 31 * single_idf)%R);
   ("nature", (INR 2 / INR 31 * single_idf)%R);
   ("beach", (INR 1 / INR 31 * single_idf)%R)].

Definition beach_query : dict R := [("beach", (INR 1 / INR 1 * single_idf)%R)].

Definition valley_record : recommendation :=
  {| res_id := "valley";
     res_name := "Green Valley";
     match_score := PyFloat 5;
     res_type := ["nature"];
     res_eco_score := 7;
     res_description := valley_description |}.

(** A one-destination catalog whose destination has no description. *)
Definition coral : entry :=
  {| name := "Coral Beach";
     type := Some ["beach"];
     eco_score := Some 8%Z;
     description := None;
     sustainability_features := None |}.

Definition coral_catalog : catalog := [("coral", coral)].

Definition coral_vector : dict R :=
  [("coral", (INR 2 / INR 6 * single_idf)%R);
   ("beach", (INR 4 / INR 6 * single_idf)%R)].

Definition coral_query : dict R := [("coral", (INR 1 / INR 1 * single_idf)%R)].

(** [a] stands before [b] in [l]. *)
Definition before {A : Type} (a b : A) (l : list A) : Prop :=
  exists l1 l2 l3, l = l1 ++ a :: l2 ++ b :: l3.

(** Two destinations with the same content under different keys. *)
Definition beach : entry :=
  {| name := "Beach";
     type := Some ["beach"];
     eco_score := Some 6%Z;
     description := Some "beach";
     sustainability_features := None |}.

Definition twin_catalog : catalog := [("north", beach); ("south", beach)].

(** The idf weight of a term held by both documents of a two-document
    corpus. *)
Definition twin_idf : R := ln (1 + INR 2 / INR 3).

Definition beach_vector : dict R := [("beach", (INR 5 / INR 5 * twin_idf)%R)].

Definition twin_query : dict R := [("beach", (INR 1 / INR 1 * twin_idf)%R)].

(** A one-destination catalog whose destination has no category tags. *)
Definition reef : entry :=
  {| name := "Coral Reef";
     type := None;
     eco_score := Some 9%Z;
     description := Some "reef";
     sustainability_features := None |}.

Definition reef_catalog : catalog := [("reef", reef)].

Definition reef_vector : dict R :=
  [("coral", (INR 2 / INR 5 * single_idf)%R);
   ("reef", (INR 3 / INR 5 * single_idf)%R)].

(* ------------------------------------------------------------------ *)
(** ** Further vocabulary *)

(** How often a term occurs among the tokens of a text, and of the texts
    of a list. *)
Definition term_count (term text : string) : nat :=
  count_occ string_dec (_tokenize text) term.

Definition terms_count (term : string) (texts : list string) : nat :=
  count_occ string_dec (flat_map _tokenize texts) term.
(* ------------------------------------------------------------------ *)
(** ** The web layer's call of the recommender (app.py) *)

(** The value [request.get_json()] hands to the handler: what Python's
    [json] module makes of a JSON text. *)
#[local] Unset Elimination Schemes.
Inductive json : Type :=
| JNull
| JBool (b : bool)
| JInt (z : Z)
| JFloat (x : PrimFloat.float)
| JString (s : string)
| JArray (items : list json)
| JObject (members : dict json).
#[local] Set Elimination Schemes.

(** Truth value testing, as [not query] does it. *)
Definition truthy (v : json) : bool :=
  match v with
  | JNull => false
  | JBool b => b
  | JInt z => negb (z =? 0)%Z
  | JFloat x => negb (PrimFloat.eqb x PrimFloat.zero)
  | JString s => negb (String.eqb s "")
  | JArray items => match items with [] => false | _ => true end
  | JObject members => match members with [] => false | _ => true end
  end.

(** [api_ai_recommend].  [data.get] exists on a dictionary only; the
    query goes to [recommend] with the default [top_k], where the
    tokenizer calls [text.lower()], which exists on a string only.
    [ai_recommender] is the module-level handle, [None] when the
    construction at start-up failed; [jsonify] carries the list of
    records over unchanged. *)
Definition api_ai_recommend (ai_recommender : option recommender)
    (data : json) : result (list recommendation) :=
  match data with
  | JObject members =>
      let query := dict_get_default members "query" (JString "") in
      if negb (truthy query) then Ok []
      else
        match ai_recommender with
        | Some r =>
            match query with
            | JString text => recommend r text 3
            | _ => Raise (AttributeError "lower")
            end
        | None => Ok []
        end
  | _ => Raise (AttributeError "get")
  end.

(** The other destinations of the knowledge base. *)
Definition jaipur : entry :=
  {| name := "Jaipur, Rajasthan";
     type := Some ["cultural"; "heritage"; "luxury"];
     eco_score := Some 6%Z;
     description :=
       Some "Pink City with heritage hotels and cultural experiences";
     sustainability_features :=
       Some ["Heritage hotel restoration"; "Traditional crafts support"; "Water conservation"] |}.

Definition coorg : entry :=
  {| name := "Coorg, Karnataka";
     type := Some ["nature"; "relaxation"; "adventure"];
     eco_score := Some 9%Z;
     description :=
       Some "Coffee country with sustainable plantation tourism";
     sustainability_features :=
       Some ["Organic coffee estates"; "Wildlife corridors"; "Tribal community support"] |}.

Definition ladakh : entry :=
  {| name := "Ladakh";
     type := Some ["adventure"; "spiritual"; "nature"];
     eco_score := Some 7%Z;
     description :=
       Some "High-altitude desert with unique Buddhist culture";
     sustainability_features :=
       Some ["Solar energy adoption"; "Waste management projects"; "Homestay network"] |}.

Definition andaman : entry :=
  {| name := "Andaman Islands";
     type := Some ["beach"; "adventure"; "nature"];
     eco_score := Some 8%Z;
     description :=
       Some "Pristine islands with coral reef conservation efforts";
     sustainability_features :=
       Some ["Coral restoration projects"; "Plastic-free beaches"; "Marine protected areas"] |}.

Definition varanasi : entry :=
  {| name := "Varanasi, Uttar Pradesh";
     type := Some ["spiritual"; "cultural"; "heritage"];
     eco_score := Some 5%Z;
     description :=
       Some "Ancient spiritual city with Ganga conservation initiatives";
     sustainability_features :=
       Some ["Ganga cleanup projects"; "Heritage walk initiatives"; "Local artisan support"] |}.

Definition munnar : entry :=
  {| name := "Munnar, Kerala";
     type := Some ["nature"; "relaxation"; "adventure"];
     eco_score := Some 9%Z;
     description :=
       Some "Tea plantations with sustainable agriculture practices";
     sustainability_features :=
       Some ["Organic tea gardens"; "Wildlife sanctuaries"; "Tribal welfare programs"] |}.

Definition goa : entry :=
  {| name := "Goa";
     type := Some ["beach"; "relaxation"; "cultural"];
     eco_score := Some 6%Z;
     description :=
       Some "Beach destination with growing eco-tourism initiatives";
     sustainability_features :=
       Some ["Beach cleanup drives"; "Sustainable seafood"; "Heritage village tourism"] |}.

(** The catalog of modules/knowledge_base.py, all ten destinations. *)
Definition knowledge_base : catalog :=
  [("manali", manali);
   ("kerala_backwaters", kerala_backwaters);
   ("rishikesh", rishikesh);
   ("jaipur", jaipur);
   ("coorg", coorg);
   ("ladakh", ladakh);
   ("andaman", andaman);
   ("varanasi", varanasi);
   ("munnar", munnar);
   ("goa", goa)].

(* ------------------------------------------------------------------ *)
(** ** The recommender over the arithmetic of its numbers *)

(** The numbers of the module are Python [int]s and [float]s.  [arith]
    names every operation the module performs on them, so that the code
    below is the code of the source whatever the operations return:
    binary64 with its rounding ([binary64] below), or exact real numbers
    ([exact] below, the arithmetic of the embedding above).

    Python raises [ZeroDivisionError] on a zero divisor; the code divides
    by [count + 1] and by [total_terms], which are positive integers, and
    by the product of two norms, which is tested where it is used.
    [math.sqrt] and [math.log] are applied to sums of squares and to
    [1 + N / (count + 1)]. *)
Module Fl.

Record arith : Type := {
  num : Type;
  of_nat : nat -> num;          (* an int where a float is computed *)
  fadd : num -> num -> num;     (* x + y *)
  fmul : num -> num -> num;     (* x * y *)
  fdiv : num -> num -> num;     (* x / y, y not zero *)
  fpow2 : num -> num;           (* x ** 2 *)
  fsum : list num -> num;       (* sum(xs) *)
  fsqrt : num -> num;           (* math.sqrt(x) *)
  flog : num -> num;            (* math.log(x) *)
  flt : num -> num -> bool;     (* x < y *)
  feq : num -> num -> bool;     (* x == y *)
  threshold : num;              (* the literal 0.05 *)
  round1 : num -> num           (* round(x, 1) *)
}.

Section Model.
Variable A : arith.

Abbreviation number := (num A).
Abbreviation zero := (of_nat A 0).

Record recommendation : Type := {
  res_id : string;
  res_name : string;
  match_score : number;
  res_type : list string;
  res_eco_score : Z;
  res_description : string
}.

Record recommender : Type := {
  destinations : catalog;
  corpus : list string;
  doc_ids : list string;
  idf : dict number;
  tf_vectors : dict (dict number);
  doc_norms : dict number
}.

Definition prepare_step (self : recommender) (item : string * entry) : recommender :=
  let '(dest_id, data) := item in
  let full_text := Str.join " " (text_parts data) in
  {| destinations := destinations self;
     corpus := corpus self ++ [full_text];
     doc_ids := doc_ids self ++ [dest_id];
     idf := idf self;
     tf_vectors := tf_vectors self;
     doc_norms := doc_norms self |}.

Definition _prepare_corpus (self : recommender) : recommender :=
  fold_left prepare_step (destinations self) self.

(** [math.log(1 + N / (count + 1))] *)
Definition compute_idf (N : nat) (df : dict nat) : dict number :=
  map (fun '(term, count) =>
         (term, flog A (fadd A (of_nat A 1)
                          (fdiv A (of_nat A N) (of_nat A (count + 1))))))
      df.

(** [sum(score ** 2 for score in vec.values())] *)
Definition norm_sq (vec : dict number) : number :=
  fsum A (map (fpow2 A) (dict_values vec)).

Definition document_vector (idf_table : dict number) (tokens : list string)
    : dict number :=
  let term_counts := Counter tokens in
  let total := total_terms tokens in
  fold_left
    (fun vec '(term, count) =>
       let tf := fdiv A (of_nat A count) (of_nat A total) in
       dict_set vec term (fmul A tf (dict_get_default idf_table term zero)))
    term_counts [].

Definition tfidf_step (self : recommender) (item : nat * string) : recommender :=
  let '(i, doc_text) := item in
  let vec := document_vector (idf self) (_tokenize doc_text) in
  let doc_id := nth i (doc_ids self) "" in
  {| destinations := destinations self;
     corpus := corpus self;
     doc_ids := doc_ids self;
     idf := idf self;
     tf_vectors := dict_set (tf_vectors self) doc_id vec;
     doc_norms := dict_set (doc_norms self) doc_id (fsqrt A (norm_sq vec)) |}.

Definition _compute_tfidf (self : recommender) : recommender :=
  let N := length (corpus self) in
  let df := document_frequency (corpus self) in
  let self :=
    {| destinations := destinations self;
       corpus := corpus self;
       doc_ids := doc_ids self;
       idf := compute_idf N df;
       tf_vectors := tf_vectors self;
       doc_norms := doc_norms self |} in
  fold_left tfidf_step (enumerate (corpus self)) self.

Definition AIRecommender (destinations_data : catalog) : recommender :=
  let self :=
    {| destinations := destinations_data;
       corpus := [];
       doc_ids := [];
       idf := [];
       tf_vectors := [];
       doc_norms := [] |} in
  _compute_tfidf (_prepare_corpus self).

Definition _vectorize_query (self : recommender) (query : string) : dict number :=
  let tokens := _tokenize query in
  let term_counts := Counter tokens in
  let total := total_terms tokens in
  fold_left
    (fun vec '(term, count) =>
       match dict_get (idf self) term with
       | Some weight =>
           let tf := fdiv A (of_nat A count) (of_nat A total) in
           dict_set vec term (fmul A tf weight)
       | None => vec
       end)
    term_counts [].

(** The loop [dot_product += q_score * dest_vec[term]], from the int 0. *)
Definition dot_product (query_vec dest_vec : dict number) : number :=
  fold_left
    (fun dot '(term, q_score) =>
       match dict_get dest_vec term with
       | Some d_score => fadd A dot (fmul A q_score d_score)
       | None => dot
       end)
    query_vec zero.

(** The similarity of one document: the quotient when the norm of the
    document is positive, the int 0 otherwise.  The divisor is a rounded
    product, and the division raises when it is zero. *)
Definition similarity (query_vec : dict number) (query_norm : number)
    (dest_vec : dict number) (dest_norm : number) : result number :=
  if flt A zero dest_norm then
    let divisor := fmul A query_norm dest_norm in
    if feq A divisor zero then Raise ZeroDivisionError
    else Ok (fdiv A (dot_product query_vec dest_vec) divisor)
  else Ok zero.

Fixpoint score_documents (norms : dict number) (query_vec : dict number)
    (query_norm : number) (vectors : dict (dict number))
    : result (list (string * number)) :=
  match vectors with
  | [] => Ok []
  | (dest_id, dest_vec) :: rest =>
      dest_norm <- dict_index norms dest_id ;;
      score <- similarity query_vec query_norm dest_vec dest_norm ;;
      scores <- score_documents norms query_vec query_norm rest ;;
      Ok ((dest_id, score) :: scores)
  end.

(** [scores.sort(key=lambda x: x[1], reverse=True)], which compares keys
    with [<] only.  Where [<] orders the keys (a strict weak order, as on
    floats none of which is a NaN) every stable sort returns the same
    list; the one below inserts from the right. *)
Fixpoint insert_desc (x : string * number) (l : list (string * number))
    : list (string * number) :=
  match l with
  | [] => [x]
  | y :: l' => if flt A (snd x) (snd y) then y :: insert_desc x l' else x :: l
  end.

Definition sort_desc (l : list (string * number)) : list (string * number) :=
  fold_right insert_desc [] l.

Fixpoint format_results (dests : catalog) (scores : list (string * number))
    : result (list recommendation) :=
  match scores with
  | [] => Ok []
  | (dest_id, score) :: rest =>
      if flt A (threshold A) score then
        dest <- dict_index dests dest_id ;;
        tags <- field "type" (type dest) ;;
        eco <- field "eco_score" (eco_score dest) ;;
        desc <- field "description" (description dest) ;;
        results <- format_results dests rest ;;
        Ok ({| res_id := dest_id;
               res_name := name dest;
               match_score := round1 A (fmul A score (of_nat A 100));
               res_type := tags;
               res_eco_score := eco;
               res_description := desc |} :: results)
      else format_results dests rest
  end.

Definition recommend (self : recommender) (query : string) (top_k : Z)
    : result (list recommendation) :=
  let query_vec := _vectorize_query self query in
  let query_norm := fsqrt A (norm_sq query_vec) in
  if feq A query_norm zero then Ok []
  else
    scores <- score_documents (doc_norms self) query_vec query_norm (tf_vectors self) ;;
    let scores := sort_desc scores in
    format_results (destinations self) (slice_to scores top_k).

(** *** Vocabulary of the statements *)

(** The norm of the query vector, and the list of scored documents that
    [recommend] sorts. *)
Definition query_norm (self : recommender) (query : string) : number :=
  fsqrt A (norm_sq (_vectorize_query self query)).

Definition similarities (self : recommender) (query : string)
    : result (list (string * number)) :=
  score_documents (doc_norms self) (_vectorize_query self query)
    (query_norm self query) (tf_vectors self).

(** The minimum-relevance test [score > 0.05]. *)
Definition relevant (p : string * number) : bool := flt A (threshold A) (snd p).

(** Two numbers neither of which is less than the other: equal floats,
    as [==] has them. *)
Definition tied (x y : number) : bool := negb (flt A x y) && negb (flt A y x).

(** [<] is a strict weak order on the numbers of a list: asymmetric, and
    whatever is less than [z] is less than [y] or [y] is less than [z].
    On floats this holds exactly when a list with two different numbers
    has no NaN. *)
Definition ordered (l : list number) : bool :=
  forallb (fun x =>
    forallb (fun y =>
      implb (flt A x y) (negb (flt A y x))
      && forallb (fun z => implb (flt A x z) (flt A x y || flt A y z)) l) l) l.

(** [<] as a strict weak order on the numbers of a list, in words. *)
Definition strict_weak_order (vals : list number) : Prop :=
  (forall x y, In x vals -> In y vals -> flt A x y = true -> flt A y x = false)
  /\ (forall x y z, In x vals -> In y vals -> In z vals ->
        flt A x z = true -> flt A x y = true \/ flt A y z = true).

(** Scored documents whose scores are among the numbers of a list. *)
Definition listed (vals : list number) (l : list (string * number)) : Prop :=
  Forall (fun p => In (snd p) vals) l.

(** Not below: the order of a descending list. *)
Definition not_below (a b : string * number) : Prop :=
  flt A (snd a) (snd b) = false.

Definition tied_with (v : number) (p : string * number) : bool :=
  tied v (snd p).

(** The scored documents [recommend] formats: the sorted list cut to
    [top_k], those above the threshold. *)
Definition shown (scores : list (string * number)) (top_k : Z)
    : list (string * number) :=
  filter relevant (slice_to (sort_desc scores) top_k).

(** The norm stored for a document is the one of its stored vector. *)
Definition stored_norm (kv : string * dict number) : string * number :=
  (fst kv, fsqrt A (norm_sq (snd kv))).

(** Not negative, as [<] has it. *)
Definition nonneg (x : number) : Prop := flt A x zero = false.

Definition nonneg_entries (vec : dict number) : Prop :=
  Forall (fun kv => nonneg (snd kv)) vec.

(** What the sign rules of the operations give on numbers that are not
    negative; [math.sqrt] returns no negative number at all. *)
Record sign_laws : Prop := {
  of_nat_nonneg : forall n, nonneg (of_nat A n);
  of_nat_nonzero : forall n, n <> 0%nat -> feq A (of_nat A n) zero = false;
  fadd_nonneg : forall x y, nonneg x -> nonneg y -> nonneg (fadd A x y);
  fmul_nonneg : forall x y, nonneg x -> nonneg y -> nonneg (fmul A x y);
  fdiv_nonneg : forall x y,
    nonneg x -> nonneg y -> feq A y zero = false -> nonneg (fdiv A x y);
  flog_nonneg : forall x, nonneg x -> nonneg (flog A (fadd A (of_nat A 1) x));
  fsqrt_nonneg : forall x, nonneg (fsqrt A x)
}.

(** Rounding is monotone: a product by 100 and [round(x, 1)] do not
    reverse the order of their arguments; [0.05 * 100] is computed as 5.0,
    and [round(5.0, 1)] is 5.0. *)
Record rounding_laws : Prop := {
  percent_monotone : forall x y,
    flt A x y = true ->
    flt A (fmul A y (of_nat A 100)) (fmul A x (of_nat A 100)) = false;
  percent_threshold : fmul A (threshold A) (of_nat A 100) = of_nat A 5;
  round1_monotone : forall x y,
    flt A x y = false -> flt A (round1 A x) (round1 A y) = false;
  round1_fixes_five : round1 A (of_nat A 5) = of_nat A 5
}.

End Model.

Arguments res_id {A} _.
Arguments res_name {A} _.
Arguments match_score {A} _.
Arguments res_type {A} _.
Arguments res_eco_score {A} _.
Arguments res_description {A} _.
Arguments destinations {A} _.
Arguments corpus {A} _.
Arguments doc_ids {A} _.
Arguments idf {A} _.
Arguments tf_vectors {A} _.
Arguments doc_norms {A} _.

End Fl.

(* ------------------------------------------------------------------ *)
(** ** Binary64 *)

(** The arithmetic of CPython's [float]: IEEE 754 binary64, rounding to
    nearest with ties to even.  Addition, multiplication, division, the
    square root and the comparisons are the operations of the format, and
    [round(x, 1)] is determined by it.  Three operations are the
    platform's and are left open in [libm]: [math.log] and [x ** 2], which
    call the C library's [log] and [pow], and the builtin [sum], which
    adds from the left up to CPython 3.11 and compensates the rounding
    errors of the partial sums later. *)
Module Binary64.
Import PrimFloat.

Record libm : Type := {
  m_log : float -> float;       (* math.log(x) *)
  m_pow2 : float -> float;      (* x ** 2 *)
  m_sum : list float -> float   (* sum(xs) *)
}.

Definition of_Z (z : Z) : float := of_uint63 (Uint63.of_Z z).

(** A Python int below [2 ^ 53] where a float is computed. *)
Definition of_nat (n : nat) : float := of_Z (Z.of_nat n).

(** The quotient [n / d] of two integers, [d] positive, rounded to the
    nearest integer, a half to the even neighbour. *)
Definition round_half_even (n d : Z) : Z :=
  let q := (n / d)%Z in
  let r := (n mod d)%Z in
  if (2 * r <? d)%Z then q
  else if (d <? 2 * r)%Z then (q + 1)%Z
  else if Z.even q then q else (q + 1)%Z.

(** [round(x, 1)]: CPython rounds the exact value of [x] to one decimal,
    a half to the even digit, and returns the double nearest to that
    decimal.  A finite [x] is [m * 2 ^ e] with [m] below [2 ^ 53]; from
    [2 ^ 49] on (exponent [e] above -4) the doubles are at least an eighth
    apart and [x] itself is the result; below, the decimal is [q / 10]
    with [q] below [2 ^ 53], and the division rounds it correctly. *)
Definition round1 (x : float) : float :=
  match FloatOps.Prim2SF x with
  | SpecFloat.S754_finite s m e =>
      if (-4 <? e)%Z then x
      else
        let q := round_half_even (10 * Z.pos m) (2 ^ (- e)) in
        let r := div (of_Z q) (of_Z 10) in
        if s then opp r else r
  | _ => x
  end.

Definition binary64 (platform : libm) : Fl.arith :=
  {| Fl.num := float;
     Fl.of_nat := of_nat;
     Fl.fadd := add;
     Fl.fmul := mul;
     Fl.fdiv := div;
     Fl.fpow2 := m_pow2 platform;
     Fl.fsum := m_sum platform;
     Fl.fsqrt := sqrt;
     Fl.flog := m_log platform;
     Fl.flt := ltb;
     Fl.feq := eqb;
     Fl.threshold := 0x1.999999999999ap-5%float;
     Fl.round1 := round1 |}.

(** A platform for the catalogs evaluated in this file.  The logarithm
    is tabulated at the arguments [1 + N / (count + 1)] these catalogs
    produce (1.5, 5/3, 1.75, 2 and 2.5), each value the double nearest to
    the logarithm; the square is the correctly rounded [x * x]; the sum
    adds from the left, starting from the int 0. *)
Definition log_table (x : float) : float :=
  if (x =? 0x1.8p+0)%float then 0x1.9f323ecbf984cp-2%float
  else if (x =? 0x1.aaaaaaaaaaaaap+0)%float then 0x1.058aefa811451p-1%float
  else if (x =? 0x1.cp+0)%float then 0x1.1e85f5e7040dp-1%float
  else if (x =? 0x1p+1)%float then 0x1.62e42fefa39efp-1%float
  else if (x =? 0x1.4p+1)%float then 0x1.d5240f0e0e078p-1%float
  else nan.

Definition tabulated : libm :=
  {| m_log := log_table;
     m_pow2 := fun x => mul x x;
     m_sum := fun xs => fold_left add xs (of_nat 0) |}.

(** Not a NaN: equal to itself. *)
Definition is_number (x : float) : bool := eqb x x.

End Binary64.

(** The arithmetic the evaluations below run in. *)
Definition double : Fl.arith := Binary64.binary64 Binary64.tabulated.

(* ------------------------------------------------------------------ *)
(** ** Exact arithmetic *)

(** The arithmetic of the embedding at the head of the file: real
    numbers, no rounding. *)
Definition exact : Fl.arith :=
  {| Fl.num := R;
     Fl.of_nat := INR;
     Fl.fadd := Rplus;
     Fl.fmul := Rmult;
     Fl.fdiv := Rdiv;
     Fl.fpow2 := fun x => (x ^ 2)%R;
     Fl.fsum := fun xs => fold_left Rplus xs 0%R;
     Fl.fsqrt := sqrt;
     Fl.flog := ln;
     Fl.flt := fun x y => if Rlt_dec x y then true else false;
     Fl.feq := fun x y => if Req_dec_T x y then true else false;
     Fl.threshold := threshold;
     Fl.round1 := round1 |}.

(** The recommender and its records over exact arithmetic are the ones
    of the embedding at the head of the file. *)
Definition exact_state (self : Fl.recommender exact) : recommender :=
  {| destinations := Fl.destinations self;
     corpus := Fl.corpus self;
     doc_ids := Fl.doc_ids self;
     idf := Fl.idf self;
     tf_vectors := Fl.tf_vectors self;
     doc_norms := Fl.doc_norms self |}.

Definition exact_record (rec : Fl.recommendation exact) : recommendation :=
  {| res_id := Fl.res_id rec;
     res_name := Fl.res_name rec;
     match_score := PyFloat (Fl.match_score rec);
     res_type := Fl.res_type rec;
     res_eco_score := Fl.res_eco_score rec;
     res_description := Fl.res_description rec |}.

Definition result_map {A B : Type} (f : A -> B) (m : result A) : result B :=
  match m with
  | Ok a => Ok (f a)
  | Raise e => Raise e
  end.

(* ------------------------------------------------------------------ *)
(** ** Catalogs evaluated in binary64 *)

(** A destination whose document is ["Bay Bay reef"]. *)
Definition bay : entry :=
  {| name := "Bay";
     type := Some [];
     eco_score := Some 7%Z;
     description := Some "reef";
     sustainability_features := None |}.

Definition bay_catalog : catalog := [("bay", bay)].

(** Two destinations with the same content after one that shares a term
    with them. *)
Definition hill : entry :=
  {| name := "Hill";
     type := Some ["beach"];
     eco_score := Some 5%Z;
     description := Some "hill station";
     sustainability_features := None |}.

Definition trio_catalog : catalog :=
  [("east", hill); ("north", beach); ("south", beach)].

(** The record the valley catalog returns in binary64, with the
    [match_score] 5.0. *)
Definition valley_shown : Fl.recommendation double :=
  Fl.Build_recommendation double
    "valley" "Green Valley" (Binary64.of_nat 5) ["nature"] 7 valley_description.

(** The scores and the records of the trio catalog for the query
    ["beach"], as binary64 computes them. *)
Definition trio_scores : list (string * PrimFloat.float) :=
  Eval vm_compute in
    match Fl.similarities double
            (Fl.AIRecommender double trio_catalog) "beach" with
    | Ok scores => scores
    | Raise _ => []
    end.

Definition trio_shown : list (Fl.recommendation double) :=
  Eval vm_compute in
    match Fl.recommend double
            (Fl.AIRecommender double trio_catalog) "beach" 3 with
    | Ok rs => rs
    | Raise _ => []
    end.

(* ------------------------------------------------------------------ *)
(** * Properties *)

(** ** Tokenizer *)

Module StrFacts.
Import Str.

Lemma all_chars_app (p : ascii -> bool) (s t : string) :
  all_chars p (s ++ t)%string = all_chars p s && all_chars p t.
Proof.
  induction s as [|c s IH]; simpl; [reflexivity|].
  rewrite IH. now rewrite andb_assoc.
Qed.

Lemma flush_words (word : string) :
  all_chars (fun c => negb (is_space c)) word = true ->
  Forall is_word (flush word).
Proof.
  intros H. destruct word; simpl; constructor; [|constructor].
  split; [discriminate | exact H].
Qed.

Lemma split_from_words (s word : string) :
  all_chars (fun c => negb (is_space c)) word = true ->
  Forall is_word (split_from word s).
Proof.
  revert word. induction s as [|c s IH]; intros word Hw; simpl.
  - now apply flush_words.
  - destruct (is_space c) eqn:Hc.
    + apply Forall_app. split; [now apply flush_words | now apply IH].
    + apply IH. rewrite all_chars_app, Hw. simpl. now rewrite Hc.
Qed.

Lemma list_ascii_app (a b : string) :
  list_ascii_of_string (a ++ b)%string
  = list_ascii_of_string a ++ list_ascii_of_string b.
Proof. induction a as [|c a IH]; simpl; [reflexivity | now rewrite IH]. Qed.

Lemma flush_chars (word : string) :
  flat_map list_ascii_of_string (flush word) = list_ascii_of_string word.
Proof. destruct word; simpl; [reflexivity | now rewrite app_nil_r]. Qed.

Lemma split_from_chars (s word : string) :
  flat_map list_ascii_of_string (split_from word s)
  = list_ascii_of_string word
    ++ filter (fun c => negb (is_space c)) (list_ascii_of_string s).
Proof.
  revert word. induction s as [|c s IH]; intros word; simpl.
  - now rewrite flush_chars, app_nil_r.
  - destruct (is_space c) eqn:Hc; simpl.
    + rewrite flat_map_app, flush_chars, IH. reflexivity.
    + rewrite IH, list_ascii_app, <- app_assoc. reflexivity.
Qed.

Lemma split_words (s : string) : Forall is_word (split s).
Proof. now apply split_from_words. Qed.

Lemma split_from_all (p : ascii -> bool) (s word : string) :
  all_chars p word = true -> all_chars p s = true ->
  Forall (fun w => all_chars p w = true) (split_from word s).
Proof.
  revert word. induction s as [|c s IH]; intros word Hw Hs; simpl in *.
  - destruct word; repeat constructor; exact Hw.
  - apply andb_true_iff in Hs as [Hc Hs].
    destruct (is_space c).
    + apply Forall_app. split; [|now apply IH].
      destruct word; repeat constructor; exact Hw.
    + apply IH; [|exact Hs]. rewrite all_chars_app, Hw. simpl. now rewrite Hc.
Qed.

Lemma re_sub_strip_class (s : string) :
  all_chars in_class (re_sub_strip s) = true.
Proof.
  induction s as [|c s IH]; simpl; [reflexivity|].
  destruct (in_class c) eqn:Hc; simpl; [now rewrite Hc|exact IH].
Qed.

Lemma re_sub_strip_filter (s : string) :
  list_ascii_of_string (re_sub_strip s)
  = filter in_class (list_ascii_of_string s).
Proof.
  induction s as [|c s IH]; simpl; [reflexivity|].
  destruct (in_class c); simpl; now rewrite IH.
Qed.

Lemma lower_map (s : string) :
  list_ascii_of_string (lower s) = map lower_char (list_ascii_of_string s).
Proof. induction s as [|c s IH]; simpl; [reflexivity | now rewrite IH]. Qed.

Lemma all_chars_and (p q : ascii -> bool) (w : string) :
  all_chars p w = true -> all_chars q w = true ->
  all_chars (fun c => p c && q c) w = true.
Proof.
  induction w as [|c w IH]; simpl; [reflexivity|].
  intros Hp Hq. apply andb_true_iff in Hp as [Hp1 Hp2].
  apply andb_true_iff in Hq as [Hq1 Hq2].
  now rewrite Hp1, Hq1, IH.
Qed.

Lemma all_chars_impl (p q : ascii -> bool) (w : string) :
  (forall c, p c = true -> q c = true) ->
  all_chars p w = true -> all_chars q w = true.
Proof.
  intros Hpq. induction w as [|c w IH]; simpl; [reflexivity|].
  intros H. apply andb_true_iff in H as [H1 H2].
  now rewrite (Hpq _ H1), IH.
Qed.

Lemma mem_In (x : string) (xs : list string) :
  mem x xs = true <-> In x xs.
Proof.
  unfold mem. rewrite existsb_exists. split.
  - intros [y [Hy He]]. apply String.eqb_eq in He. now subst.
  - intros H. exists x. split; [exact H | apply String.eqb_refl].
Qed.

Lemma mem_false (x : string) (xs : list string) :
  mem x xs = false <-> ~ In x xs.
Proof.
  rewrite <- mem_In. destruct (mem x xs); split; congruence.
Qed.

End StrFacts.

Lemma tokenize_token_chars (text : string) :
  Forall (fun t => t <> EmptyString /\ Str.all_chars token_char t = true)
         (_tokenize text).
Proof.
  unfold _tokenize.
  set (clean := Str.re_sub_strip (Str.lower text)).
  assert (Hw := StrFacts.split_words clean).
  assert (Hc : Forall (fun w => Str.all_chars Str.in_class w = true) (Str.split clean)).
  { apply StrFacts.split_from_all; [reflexivity | apply StrFacts.re_sub_strip_class]. }
  rewrite Forall_forall in *. intros t Ht. apply filter_In in Ht as [Ht _].
  destruct (Hw t Ht) as [Hne Hsp]. split; [exact Hne|].
  assert (H := StrFacts.all_chars_and _ _ t (Hc t Ht) Hsp).
  revert H. apply StrFacts.all_chars_impl. intros c. unfold token_char, Str.in_class.
  destruct (Str.is_lower_alpha c), (Str.is_digit c), (Str.is_space c); simpl; congruence.
Qed.

(** C9. [_tokenize] lowercases the text, deletes every character outside
    [[a-z0-9\s]], splits the rest at whitespace and drops exactly the
    eighteen stop words: the characters kept are those of the class, every
    word of the split is a non-empty run without whitespace and the
    words together hold the non-whitespace characters in order, a word
    survives iff it is not a stop word, every token is a non-empty string
    of lowercase letters and digits, ["The Himalayan Trek!!"] gives
    [["himalayan"; "trek"]] and the empty text gives no token. *)
Theorem tokenize_spec (text : string) :
  let lowered := Str.lower text in
  let cleaned := Str.re_sub_strip lowered in
  let words := Str.split cleaned in
  list_ascii_of_string lowered = map Str.lower_char (list_ascii_of_string text)
  /\ list_ascii_of_string cleaned
     = filter Str.in_class (list_ascii_of_string lowered)
  /\ Forall is_word words
  /\ flat_map list_ascii_of_string words
     = filter (fun c => negb (Str.is_space c)) (list_ascii_of_string cleaned)
  /\ _tokenize text = filter (fun w => negb (Str.mem w stop_words)) words
  /\ Forall (fun w => In w (_tokenize text) <-> ~ In w stop_words) words
  /\ Forall (fun t => t <> EmptyString /\ Str.all_chars token_char t = true)
            (_tokenize text)
  /\ stop_words
     = ["the"; "a"; "an"; "and"; "or"; "but"; "in"; "on"; "at"; "to"; "for";
        "of"; "with"; "by"; "is"; "are"; "was"; "were"]
  /\ _tokenize "The Himalayan Trek!!" = ["himalayan"; "trek"]
  /\ _tokenize "" = [].
Proof.
  cbv zeta. repeat split.
  - apply StrFacts.lower_map.
  - apply StrFacts.re_sub_strip_filter.
  - apply StrFacts.split_words.
  - apply (StrFacts.split_from_chars _ EmptyString).
  - apply Forall_forall. intros w Hw. unfold _tokenize. rewrite filter_In.
    rewrite negb_true_iff, StrFacts.mem_false. tauto.
  - apply tokenize_token_chars.
Qed.

(** ** Corpus builder *)

Lemma text_parts_weighted (data : entry) :
  Str.join " " (text_parts data) = weighted_text data.
Proof.
  unfold text_parts, weighted_text, tags_of, features_of, description_of, list_mul.
  destruct (type data), (sustainability_features data); simpl;
    rewrite ?app_nil_r, <- ?app_assoc; reflexivity.
Qed.

Lemma prepare_fold (items : catalog) (self : recommender) :
  let r := fold_left prepare_step items self in
  destinations r = destinations self
  /\ corpus r = corpus self ++ map (fun item => weighted_text (snd item)) items
  /\ doc_ids r = doc_ids self ++ map fst items
  /\ idf r = idf self /\ tf_vectors r = tf_vectors self
  /\ doc_norms r = doc_norms self.
Proof.
  revert self. induction items as [|[dest_id data] items IH]; intros self;
    cbn [fold_left].
  - cbv zeta. now rewrite !app_nil_r.
  - destruct (IH (prepare_step self (dest_id, data))) as (H1 & H2 & H3 & H4 & H5 & H6).
    cbv zeta in *. rewrite H1, H2, H3, H4, H5, H6. simpl.
    rewrite text_parts_weighted, <- !app_assoc. simpl. tauto.
Qed.

Lemma tfidf_fold_fields (items : list (nat * string)) (self : recommender) :
  let r := fold_left tfidf_step items self in
  destinations r = destinations self /\ corpus r = corpus self
  /\ doc_ids r = doc_ids self /\ idf r = idf self.
Proof.
  revert self. induction items as [|[i doc] items IH]; intros self;
    cbn [fold_left].
  - cbv zeta. tauto.
  - destruct (IH (tfidf_step self (i, doc))) as (H1 & H2 & H3 & H4).
    cbv zeta in *. rewrite H1, H2, H3, H4. simpl. tauto.
Qed.

Lemma AIRecommender_fields (cat : catalog) :
  let r := AIRecommender cat in
  destinations r = cat
  /\ corpus r = map (fun item => weighted_text (snd item)) cat
  /\ doc_ids r = map fst cat
  /\ idf r = compute_idf (length cat) (document_frequency (corpus r)).
Proof.
  cbv zeta. unfold AIRecommender, _compute_tfidf, _prepare_corpus.
  match goal with |- context [fold_left prepare_step ?c ?s] =>
    destruct (prepare_fold c s) as (P1 & P2 & P3 & _) end.
  cbv zeta in *. simpl in P1, P2, P3.
  match goal with |- context [fold_left tfidf_step ?c ?s] =>
    destruct (tfidf_fold_fields c s) as (T1 & T2 & T3 & T4) end.
  cbv zeta in *. rewrite T1, T2, T3, T4. simpl.
  rewrite P1, P2, P3. rewrite length_map. tauto.
Qed.

(** C5. From every catalog entry the corpus builder makes one document,
    in catalog order and under the catalog key: its text is the name
    twice, the category tags twice, the sustainability features once and
    the description once (absent fields contributing nothing), joined by
    single spaces; no entry is skipped. *)
Theorem prepare_corpus_spec (cat : catalog) :
  let built :=
    _prepare_corpus
      {| destinations := cat; corpus := []; doc_ids := []; idf := [];
         tf_vectors := []; doc_norms := [] |} in
  doc_ids built = map fst cat
  /\ corpus built = map (fun item => weighted_text (snd item)) cat
  /\ length (corpus built) = length cat
  /\ doc_ids (AIRecommender cat) = doc_ids built
  /\ corpus (AIRecommender cat) = corpus built
  /\ destinations (AIRecommender cat) = cat.
Proof.
  cbv zeta. unfold _prepare_corpus.
  match goal with |- context [fold_left prepare_step ?c ?s] =>
    destruct (prepare_fold c s) as (P1 & P2 & P3 & _) end.
  cbv zeta in *. simpl in P1, P2, P3.
  destruct (AIRecommender_fields cat) as (A1 & A2 & A3 & _). cbv zeta in *.
  simpl. rewrite P2, P3, A1, A2, A3, length_map. tauto.
Qed.

(** ** Category fallback *)

Lemma suggestions_loop_complete (items : catalog) (tag : string) :
  Forall (fun item => complete (snd item)) (filter (has_tag tag) items) ->
  suggestions_loop items tag = Ok (map suggestion_of (filter (has_tag tag) items)).
Proof.
  induction items as [|[dest_id data] items IH]; simpl; intros H.
  - reflexivity.
  - unfold has_tag at 1 in H. unfold has_tag at 1. simpl in *.
    fold (tags_of data) in *.
    destruct (Str.mem tag (tags_of data)) eqn:Hm.
    + inversion H as [|? ? Hc Hrest]; subst. rewrite (IH Hrest).
      destruct Hc as (Ht & He & Hd). simpl in *.
      unfold suggestion_of, tags_of, description_of. simpl.
      destruct (type data); [|congruence].
      destruct (eco_score data); [|congruence].
      destruct (description data); [|congruence].
      reflexivity.
    + now apply IH.
Qed.

Lemma firstn_Forall {A : Type} (P : A -> Prop) (n : nat) (l : list A) :
  Forall P l -> Forall P (firstn n l).
Proof.
  intros H. rewrite Forall_forall in *. intros x Hx.
  apply H. rewrite <- (firstn_skipn n l). apply in_or_app. now left.
Qed.

(** On a catalog whose matching entries carry the fields a record
    shows, [get_suggestions] returns the records of exactly the entries
    whose category tags contain the given tag, in catalog order, cut to
    the first three, each with [match_score] 90. *)
Theorem get_suggestions_spec (cat : catalog) (tag : string) :
  let matching := filter (has_tag tag) cat in
  Forall (fun item => complete (snd item)) matching ->
  exists results,
    get_suggestions (AIRecommender cat) tag = Ok results
    /\ results = firstn 3 (map suggestion_of matching)
    /\ map res_id results = firstn 3 (map fst matching)
    /\ length results <= 3
    /\ Forall (fun r => match_score r = PyInt 90) results
    /\ Forall (fun item => In item cat /\ In tag (tags_of (snd item))) matching
    /\ Forall (fun item => In tag (tags_of (snd item)) -> In item matching) cat.
Proof.
  intros matching H. exists (firstn 3 (map suggestion_of matching)).
  repeat split.
  - unfold get_suggestions.
    destruct (AIRecommender_fields cat) as (-> & _).
    rewrite (suggestions_loop_complete _ _ H). reflexivity.
  - rewrite <- firstn_map, map_map. reflexivity.
  - apply firstn_le_length.
  - apply firstn_Forall, Forall_forall. intros r Hr.
    apply in_map_iff in Hr as [item [<- _]]. reflexivity.
  - apply Forall_forall. intros item Hi. apply filter_In in Hi as [Hi Ht].
    split; [exact Hi | now apply StrFacts.mem_In].
  - apply Forall_forall. intros item Hi Ht. apply filter_In.
    split; [exact Hi | now apply StrFacts.mem_In].
Qed.

(** ** Dictionaries *)

Section DictFacts.
Context {V : Type}.
Implicit Types (d : dict V) (k : string) (v : V).

Lemma dict_get_In d k v : dict_get d k = Some v -> In (k, v) d.
Proof.
  induction d as [|[k' v'] d IH]; simpl; [discriminate|].
  destruct (String.eqb_spec k k') as [->|Hne].
  - intros [= ->]. now left.
  - intros H. right. now apply IH.
Qed.

Lemma dict_get_None d k : dict_get d k = None <-> ~ In k (dict_keys d).
Proof.
  induction d as [|[k' v'] d IH]; simpl; [tauto|].
  destruct (String.eqb_spec k k') as [->|Hne].
  - split; [discriminate | intros H; exfalso; apply H; now left].
  - rewrite IH. split; intros H; [intros [E|E]; [congruence | tauto] | tauto].
Qed.

Lemma dict_get_keys d k : In k (dict_keys d) -> exists v, dict_get d k = Some v.
Proof.
  intros H. destruct (dict_get d k) as [v|] eqn:E; [now exists v|].
  apply dict_get_None in E. contradiction.
Qed.

Lemma dict_get_unique d k v :
  NoDup (dict_keys d) -> In (k, v) d -> dict_get d k = Some v.
Proof.
  induction d as [|[k' v'] d IH]; simpl; [tauto|].
  intros Hnd [E|Hin]; inversion Hnd as [|? ? Hnot Hnd']; subst.
  - injection E as -> ->. now rewrite String.eqb_refl.
  - destruct (String.eqb_spec k k') as [->|Hne].
    + exfalso. apply Hnot. change k' with (fst (k', v)). now apply in_map.
    + now apply IH.
Qed.

Lemma dict_set_In d k v k' v' :
  In (k', v') (dict_set d k v) -> (k', v') = (k, v) \/ In (k', v') d.
Proof.
  induction d as [|[k0 v0] d IH]; simpl.
  - intros [E|[]]. left. now symmetry.
  - destruct (String.eqb_spec k k0) as [->|Hne]; simpl.
    + intros [E|H]; [left; now symmetry | right; now right].
    + intros [E|H]; [right; now left|].
      destruct (IH H) as [E|H']; [now left | right; now right].
Qed.

Lemma dict_set_keys d k v k' :
  In k' (dict_keys (dict_set d k v)) <-> k' = k \/ In k' (dict_keys d).
Proof.
  induction d as [|[k0 v0] d IH]; simpl.
  - split; [intros [E|[]]; now left | intros [E|[]]; now left].
  - destruct (String.eqb_spec k k0) as [->|Hne]; simpl.
    + split; [tauto | intros [E|H]; [left; now symmetry | exact H]].
    + rewrite IH. tauto.
Qed.

Lemma dict_set_nodup d k v :
  NoDup (dict_keys d) -> NoDup (dict_keys (dict_set d k v)).
Proof.
  induction d as [|[k0 v0] d IH]; simpl; intros Hnd.
  - constructor; [tauto | constructor].
  - inversion Hnd as [|? ? Hnot Hnd']; subst.
    destruct (String.eqb_spec k k0) as [->|Hne]; simpl.
    + now constructor.
    + constructor; [|now apply IH].
      fold (dict_keys (dict_set d k v)). rewrite dict_set_keys.
      intros [E|H]; [congruence | contradiction].
Qed.

Lemma dict_get_set d k v k' :
  dict_get (dict_set d k v) k'
  = if String.eqb k' k then Some v else dict_get d k'.
Proof.
  induction d as [|[k0 v0] d IH]; simpl.
  - reflexivity.
  - destruct (String.eqb_spec k k0) as [->|Hne]; simpl.
    + destruct (String.eqb_spec k' k0); reflexivity.
    + rewrite IH. destruct (String.eqb_spec k' k0) as [->|Hne'].
      * destruct (String.eqb_spec k0 k); [congruence | reflexivity].
      * reflexivity.
Qed.

Lemma dict_set_fresh d k v :
  ~ In k (dict_keys d) -> dict_set d k v = d ++ [(k, v)].
Proof.
  induction d as [|[k0 v0] d IH]; simpl; intros H; [reflexivity|].
  destruct (String.eqb_spec k k0) as [->|Hne]; [tauto|].
  rewrite IH; [reflexivity | tauto].
Qed.

End DictFacts.

Lemma dict_set_map {V W : Type} (f : V -> W) (d : dict V) (k : string) (v : V) :
  map (fun kv => (fst kv, f (snd kv))) (dict_set d k v)
  = dict_set (map (fun kv => (fst kv, f (snd kv))) d) k (f v).
Proof.
  induction d as [|[k0 v0] d IH]; simpl; [reflexivity|].
  destruct (String.eqb k k0); simpl; [reflexivity | now rewrite IH].
Qed.

Lemma dict_get_map {V W : Type} (f : V -> W) (d : dict V) (k : string) :
  dict_get (map (fun kv => (fst kv, f (snd kv))) d) k
  = option_map f (dict_get d k).
Proof.
  induction d as [|[k0 v0] d IH]; simpl; [reflexivity|].
  destruct (String.eqb k k0); simpl; [reflexivity | exact IH].
Qed.

(** ** Counters *)

Lemma counter_add_get (c : dict nat) (k t : string) :
  dict_get_default (counter_add c k) t 0
  = dict_get_default c t 0 + (if String.eqb t k then 1 else 0).
Proof.
  unfold counter_add, dict_get_default at 1. rewrite dict_get_set.
  destruct (String.eqb_spec t k) as [->|Hne].
  - reflexivity.
  - fold (dict_get_default c t 0). lia.
Qed.

Lemma counter_add_nodup (c : dict nat) (k : string) :
  NoDup (dict_keys c) -> NoDup (dict_keys (counter_add c k)).
Proof. apply dict_set_nodup. Qed.

Lemma counter_add_positive (c : dict nat) (k : string) :
  Forall (fun kv => 0 < snd kv) c -> Forall (fun kv => 0 < snd kv) (counter_add c k).
Proof.
  intros H. apply Forall_forall. intros [k' n] Hin.
  apply dict_set_In in Hin as [E|Hin].
  - injection E as -> ->. simpl. lia.
  - rewrite Forall_forall in H. exact (H _ Hin).
Qed.

Lemma counter_update_get (elems : list string) (c : dict nat) (t : string) :
  dict_get_default (counter_update c elems) t 0
  = dict_get_default c t 0 + count_occ string_dec elems t.
Proof.
  revert c. induction elems as [|e elems IH]; intros c; simpl.
  - lia.
  - unfold counter_update in *. simpl. rewrite IH, counter_add_get.
    destruct (string_dec e t) as [->|Hne].
    + rewrite String.eqb_refl. lia.
    + destruct (String.eqb_spec t e); [congruence | lia].
Qed.

Lemma counter_update_nodup (elems : list string) (c : dict nat) :
  NoDup (dict_keys c) -> NoDup (dict_keys (counter_update c elems)).
Proof.
  revert c. induction elems as [|e elems IH]; intros c H; simpl; [exact H|].
  apply IH. now apply counter_add_nodup.
Qed.

Lemma counter_update_positive (elems : list string) (c : dict nat) :
  Forall (fun kv => 0 < snd kv) c ->
  Forall (fun kv => 0 < snd kv) (counter_update c elems).
Proof.
  revert c. induction elems as [|e elems IH]; intros c H; simpl; [exact H|].
  apply IH. now apply counter_add_positive.
Qed.

Lemma counter_update_keys (elems : list string) (c : dict nat) (t : string) :
  In t (dict_keys (counter_update c elems)) <-> In t (dict_keys c) \/ In t elems.
Proof.
  revert c. induction elems as [|e elems IH]; intros c; simpl; [tauto|].
  unfold counter_update in *. simpl. rewrite IH. unfold counter_add.
  rewrite dict_set_keys. intuition congruence.
Qed.

(** A counter with positive counts answers a lookup with the count, and
    with nothing when the count is zero. *)
Lemma counter_lookup (c : dict nat) (t : string) :
  Forall (fun kv => 0 < snd kv) c ->
  dict_get c t
  = if dict_get_default c t 0 =? 0 then None else Some (dict_get_default c t 0).
Proof.
  intros H. unfold dict_get_default. destruct (dict_get c t) as [n|] eqn:E.
  - apply dict_get_In in E. rewrite Forall_forall in H. specialize (H _ E).
    simpl in H. destruct (Nat.eqb_spec n 0); [lia | reflexivity].
  - reflexivity.
Qed.

(** ** Inverse document frequency *)

Lemma count_occ_py_set (tokens : list string) (t : string) :
  count_occ string_dec (py_set tokens) t
  = if Str.mem t (py_set tokens) then 1 else 0.
Proof.
  unfold py_set.
  assert (Hnd := NoDup_nodup string_dec tokens).
  rewrite (NoDup_count_occ string_dec) in Hnd. specialize (Hnd t).
  destruct (Str.mem t (nodup string_dec tokens)) eqn:Hm.
  - apply StrFacts.mem_In in Hm. apply (count_occ_In string_dec) in Hm. lia.
  - apply StrFacts.mem_false in Hm. now apply (count_occ_not_In string_dec).
Qed.

Lemma df_fold_get (docs : list string) (c : dict nat) (t : string) :
  dict_get_default
    (fold_left (fun df doc => counter_update df (py_set (_tokenize doc))) docs c) t 0
  = dict_get_default c t 0 + docs_containing docs t.
Proof.
  revert c. induction docs as [|doc docs IH]; intros c; simpl.
  - unfold docs_containing. simpl. lia.
  - rewrite IH, counter_update_get, count_occ_py_set.
    unfold docs_containing. simpl.
    destruct (Str.mem t (py_set (_tokenize doc))); simpl; lia.
Qed.

Lemma df_fold_wf (docs : list string) (c : dict nat) :
  NoDup (dict_keys c) -> Forall (fun kv => 0 < snd kv) c ->
  let df := fold_left (fun df doc => counter_update df (py_set (_tokenize doc))) docs c in
  NoDup (dict_keys df) /\ Forall (fun kv => 0 < snd kv) df.
Proof.
  revert c. induction docs as [|doc docs IH]; intros c Hnd Hpos; simpl.
  - now split.
  - apply IH; [now apply counter_update_nodup | now apply counter_update_positive].
Qed.

Lemma document_frequency_get (docs : list string) (t : string) :
  dict_get (document_frequency docs) t
  = if docs_containing docs t =? 0 then None else Some (docs_containing docs t).
Proof.
  unfold document_frequency.
  destruct (df_fold_wf docs [] (NoDup_nil _) (Forall_nil _)) as [_ Hpos].
  rewrite (counter_lookup _ _ Hpos), df_fold_get. reflexivity.
Qed.

Lemma compute_idf_get (N : nat) (df : dict nat) (t : string) :
  dict_get (compute_idf N df) t
  = option_map (fun count => ln (1 + INR N / INR (count + 1))%R) (dict_get df t).
Proof.
  unfold compute_idf. induction df as [|[k n] df IH]; simpl; [reflexivity|].
  destruct (String.eqb t k); [reflexivity | exact IH].
Qed.

Lemma compute_idf_keys (N : nat) (df : dict nat) :
  dict_keys (compute_idf N df) = dict_keys df.
Proof.
  unfold compute_idf, dict_keys. rewrite map_map. apply map_ext.
  now intros [k n].
Qed.

Lemma docs_containing_pos (docs : list string) (t : string) :
  (docs_containing docs t =? 0) = false
  <-> exists doc, In doc docs /\ In t (_tokenize doc).
Proof.
  unfold docs_containing. rewrite Nat.eqb_neq. split.
  - intros H.
    destruct (filter (fun doc => Str.mem t (py_set (_tokenize doc))) docs)
      as [|doc rest] eqn:E; [now elim H|].
    assert (Hin : In doc (doc :: rest)) by now left.
    rewrite <- E in Hin. apply filter_In in Hin as [Hd Hm].
    exists doc. split; [exact Hd|].
    apply StrFacts.mem_In in Hm. unfold py_set in Hm. now apply nodup_In in Hm.
  - intros [doc [Hd Ht]] E. apply length_zero_iff_nil in E.
    assert (Hin : In doc (filter (fun doc => Str.mem t (py_set (_tokenize doc))) docs)).
    { apply filter_In. split; [exact Hd|]. apply StrFacts.mem_In.
      unfold py_set. now apply nodup_In. }
    rewrite E in Hin. exact Hin.
Qed.

(** C4. The idf table of the index built from a catalog of [N] entries
    has an entry exactly for the terms that occur in some document, and
    that entry is [ln(1 + N / (df + 1))], where [df] is the number of
    documents whose set of distinct tokens contains the term (a token
    repeated inside one document counts once); each term has one entry. *)
Theorem idf_table_spec (cat : catalog) (t : string) :
  let r := AIRecommender cat in
  let N := length (corpus r) in
  let df := docs_containing (corpus r) t in
  dict_get (idf r) t
    = (if df =? 0 then None else Some (ln (1 + INR N / (INR df + 1)))%R)
  /\ ((df =? 0) = false <-> exists doc, In doc (corpus r) /\ In t (_tokenize doc))
  /\ df <= N
  /\ N = length cat
  /\ NoDup (dict_keys (idf r)).
Proof.
  cbv zeta. destruct (AIRecommender_fields cat) as (_ & Hc & _ & Hi).
  cbv zeta in Hi. rewrite Hi.
  assert (Hlen : length (corpus (AIRecommender cat)) = length cat)
    by (rewrite Hc; apply length_map).
  repeat split.
  - rewrite compute_idf_get, document_frequency_get, Hlen.
    destruct (docs_containing (corpus (AIRecommender cat)) t =? 0); simpl;
      [reflexivity|].
    now rewrite plus_INR.
  - apply docs_containing_pos.
  - apply docs_containing_pos.
  - unfold docs_containing. apply filter_length_le.
  - exact Hlen.
  - rewrite compute_idf_keys. unfold document_frequency.
    now destruct (df_fold_wf (corpus (AIRecommender cat)) [] (NoDup_nil _) (Forall_nil _)).
Qed.

(** ** The index *)

Lemma enumerate_In {A : Type} (l : list A) (i : nat) (x : A) :
  In (i, x) (enumerate l) -> i < length l /\ In x l.
Proof.
  unfold enumerate. intros H. split.
  - apply in_combine_l in H. apply in_seq in H. lia.
  - now apply in_combine_r in H.
Qed.

Lemma tfidf_fold_norms (items : list (nat * string)) (self : recommender) :
  doc_norms self = map (fun kv => (fst kv, norm (snd kv))) (tf_vectors self) ->
  let r := fold_left tfidf_step items self in
  doc_norms r = map (fun kv => (fst kv, norm (snd kv))) (tf_vectors r).
Proof.
  revert self. induction items as [|[i doc] items IH]; intros self H;
    cbn [fold_left]; [exact H|].
  apply IH. simpl. rewrite dict_set_map, H. reflexivity.
Qed.

Lemma tfidf_fold_nodup (items : list (nat * string)) (self : recommender) :
  NoDup (dict_keys (tf_vectors self)) ->
  NoDup (dict_keys (tf_vectors (fold_left tfidf_step items self))).
Proof.
  revert self. induction items as [|[i doc] items IH]; intros self H;
    cbn [fold_left]; [exact H|].
  apply IH. simpl. now apply dict_set_nodup.
Qed.

Lemma tfidf_fold_vectors (ids : list string) (table : dict R) (docs : list string)
    (items : list (nat * string)) (self : recommender) :
  let P := fun kv : string * dict R =>
    In (fst kv) ids
    /\ exists doc, In doc docs /\ snd kv = document_vector table (_tokenize doc) in
  doc_ids self = ids -> idf self = table ->
  Forall (fun item => fst item < length ids /\ In (snd item) docs) items ->
  Forall P (tf_vectors self) ->
  Forall P (tf_vectors (fold_left tfidf_step items self)).
Proof.
  intros P. revert self.
  induction items as [|[i doc] items IH]; intros self Hids Htab Hitems HP;
    cbn [fold_left]; [exact HP|].
  inversion Hitems as [|? ? [Hi Hd] Hrest]; subst. simpl in Hi, Hd.
  apply IH; try assumption; try reflexivity.
  simpl. apply Forall_forall. intros [k v] Hin.
  apply dict_set_In in Hin as [E|Hin].
  - injection E as -> ->. split; simpl.
    + now apply nth_In.
    + now exists doc.
  - rewrite Forall_forall in HP. exact (HP _ Hin).
Qed.

Lemma index_invariant (cat : catalog) :
  let r := AIRecommender cat in
  doc_norms r = map (fun kv => (fst kv, norm (snd kv))) (tf_vectors r)
  /\ NoDup (dict_keys (tf_vectors r))
  /\ Forall (fun kv =>
       In (fst kv) (dict_keys cat)
       /\ exists doc, In doc (corpus r)
            /\ snd kv = document_vector (idf r) (_tokenize doc))
     (tf_vectors r).
Proof.
  cbv zeta.
  destruct (AIRecommender_fields cat) as (_ & Hc & Hd & Hi). cbv zeta in Hi.
  rewrite Hi, Hc. clear Hi Hc Hd.
  unfold AIRecommender, _compute_tfidf.
  set (prepared := _prepare_corpus _).
  assert (Hp : doc_ids prepared = map fst cat
               /\ corpus prepared = map (fun item => weighted_text (snd item)) cat
               /\ tf_vectors prepared = [] /\ doc_norms prepared = []).
  { unfold prepared, _prepare_corpus.
    match goal with |- context [fold_left prepare_step ?c ?s] =>
      destruct (prepare_fold c s) as (_ & P2 & P3 & _ & P5 & P6) end.
    cbv zeta in *. simpl in *. tauto. }
  destruct Hp as (Hids & Hcorp & Htf & Hdn).
  set (start := Build_recommender _ _ _ _ _ _).
  repeat split.
  - apply tfidf_fold_norms. simpl. now rewrite Htf, Hdn.
  - apply tfidf_fold_nodup. simpl. rewrite Htf. constructor.
  - rewrite <- Hcorp.
    replace (length cat) with (length (corpus prepared))
      by (rewrite Hcorp; apply length_map).
    apply (tfidf_fold_vectors (map fst cat)); simpl; try assumption; try reflexivity.
    + apply Forall_forall. intros [i doc] Hin. apply enumerate_In in Hin.
      simpl. rewrite length_map. rewrite Hcorp, length_map in Hin.
      rewrite Hcorp. exact Hin.
    + rewrite Htf. constructor.
Qed.

Lemma enumerate_ids {B : Type} (text : entry -> string) (g : string -> B)
    (l : catalog) (pre : list string) :
  map (fun item : nat * string =>
         (nth (fst item) (pre ++ map fst l) "", g (snd item)))
      (combine (seq (length pre) (length l)) (map (fun it => text (snd it)) l))
  = map (fun it => (fst it, g (text (snd it)))) l.
Proof.
  revert pre. induction l as [|[k e] l IH]; intros pre; simpl; [reflexivity|].
  rewrite app_nth2, Nat.sub_diag by lia. simpl. f_equal.
  specialize (IH (pre ++ [k])).
  rewrite length_app, Nat.add_1_r, <- app_assoc in IH. exact IH.
Qed.

Lemma tfidf_fold_fresh (items : list (nat * string)) (self : recommender) :
  NoDup (dict_keys (tf_vectors self)
         ++ map (fun item => nth (fst item) (doc_ids self) "") items) ->
  tf_vectors (fold_left tfidf_step items self)
  = tf_vectors self
    ++ map (fun item =>
              (nth (fst item) (doc_ids self) "",
               document_vector (idf self) (_tokenize (snd item)))) items.
Proof.
  revert self. induction items as [|[i doc] items IH]; intros self Hnd;
    cbn [fold_left].
  - simpl. now rewrite app_nil_r.
  - simpl in Hnd. rewrite IH.
    + simpl. rewrite dict_set_fresh.
      * now rewrite <- app_assoc.
      * apply NoDup_remove_2 in Hnd. intros H. apply Hnd, in_or_app. now left.
    + simpl. rewrite dict_set_fresh.
      * unfold dict_keys in *. rewrite map_app, <- app_assoc. exact Hnd.
      * apply NoDup_remove_2 in Hnd. intros H. apply Hnd, in_or_app. now left.
Qed.

(** With the keys of the catalog distinct, as the keys of a Python
    dictionary are, the index holds one vector per destination, in catalog
    order. *)
Lemma tf_vectors_catalog (cat : catalog) :
  NoDup (dict_keys cat) ->
  tf_vectors (AIRecommender cat)
  = map (fun item => (fst item, vector_of (idf (AIRecommender cat)) (snd item))) cat.
Proof.
  intros Hnd.
  destruct (AIRecommender_fields cat) as (_ & Hc & Hd & Hi). cbv zeta in Hi.
  rewrite Hi, Hc. clear Hi Hc Hd.
  unfold AIRecommender, _compute_tfidf.
  set (prepared := _prepare_corpus _).
  assert (Hp : doc_ids prepared = map fst cat
               /\ corpus prepared = map (fun item => weighted_text (snd item)) cat
               /\ tf_vectors prepared = []).
  { unfold prepared, _prepare_corpus.
    match goal with |- context [fold_left prepare_step ?c ?s] =>
      destruct (prepare_fold c s) as (_ & P2 & P3 & _ & P5 & P6) end.
    cbv zeta in *. simpl in *. tauto. }
  destruct Hp as (Hids & Hcorp & Htf).
  assert (Hlen : length (corpus prepared) = length cat)
    by (rewrite Hcorp; apply length_map).
  rewrite <- Hcorp, Hlen.
  assert (Hen : forall B (g : string -> B),
    map (fun item : nat * string => (nth (fst item) (doc_ids prepared) "", g (snd item)))
        (enumerate (corpus prepared))
    = map (fun it => (fst it, g (weighted_text (snd it)))) cat).
  { intros B g. unfold enumerate. rewrite Hlen, Hids, Hcorp.
    exact (enumerate_ids weighted_text g cat []). }
  rewrite tfidf_fold_fresh; simpl.
  - rewrite Htf. simpl. rewrite (Hen _ (fun doc => document_vector _ (_tokenize doc))).
    reflexivity.
  - rewrite Htf. simpl.
    assert (H := Hen _ (fun _ : string => tt)).
    apply (f_equal (map fst)) in H. rewrite !map_map in H. simpl in H.
    rewrite H. exact Hnd.
Qed.

(** ** Stable descending sort *)

Lemma insert_desc_In (x z : string * R) (l : list (string * R)) :
  In z (insert_desc x l) <-> z = x \/ In z l.
Proof.
  induction l as [|y l IH]; simpl.
  - intuition.
  - destruct (Rlt_dec (snd x) (snd y)); simpl; [rewrite IH|]; intuition.
Qed.

Lemma insert_desc_perm (x : string * R) (l : list (string * R)) :
  Permutation (insert_desc x l) (x :: l).
Proof.
  induction l as [|y l IH]; simpl; [reflexivity|].
  destruct (Rlt_dec (snd x) (snd y)); [|reflexivity].
  rewrite IH. apply perm_swap.
Qed.

Lemma sort_desc_perm (l : list (string * R)) : Permutation (sort_desc l) l.
Proof.
  induction l as [|x l IH]; simpl; [reflexivity|].
  rewrite insert_desc_perm. now constructor.
Qed.

Lemma insert_desc_sorted (x : string * R) (l : list (string * R)) :
  StronglySorted desc l -> StronglySorted desc (insert_desc x l).
Proof.
  induction l as [|y l IH]; simpl; intros Hs.
  - repeat constructor.
  - inversion Hs as [|? ? Hs' Hall]; subst.
    destruct (Rlt_dec (snd x) (snd y)) as [Hlt|Hge].
    + constructor; [now apply IH|].
      apply Forall_forall. intros z Hz. apply insert_desc_In in Hz as [->|Hz].
      * unfold desc. lra.
      * rewrite Forall_forall in Hall. now apply Hall.
    + constructor; [exact Hs|].
      constructor; [unfold desc; lra|].
      rewrite Forall_forall in *. intros z Hz. specialize (Hall z Hz).
      unfold desc in *. lra.
Qed.

Lemma sort_desc_sorted (l : list (string * R)) : StronglySorted desc (sort_desc l).
Proof.
  induction l as [|x l IH]; simpl; [constructor | now apply insert_desc_sorted].
Qed.

Lemma insert_desc_stable (v : R) (x : string * R) (l : list (string * R)) :
  filter (has_score v) (insert_desc x l) = filter (has_score v) (x :: l).
Proof.
  induction l as [|y l IH]; simpl; [reflexivity|].
  destruct (Rlt_dec (snd x) (snd y)) as [Hlt|Hge]; [|reflexivity].
  simpl. rewrite IH. simpl. unfold has_score.
  destruct (Req_dec_T (snd x) v), (Req_dec_T (snd y) v); try reflexivity.
  lra.
Qed.

(** Stability: the documents of one score keep their relative order. *)
Lemma sort_desc_stable (v : R) (l : list (string * R)) :
  filter (has_score v) (sort_desc l) = filter (has_score v) l.
Proof.
  induction l as [|x l IH]; simpl; [reflexivity|].
  rewrite insert_desc_stable. simpl. now rewrite IH.
Qed.

Lemma sort_desc_length (l : list (string * R)) : length (sort_desc l) = length l.
Proof. apply Permutation_length, sort_desc_perm. Qed.

(** A descending list is determined by its classes of equal score: two
    stable descending sorts of one list agree. *)
Lemma stable_sorted_unique (l1 l2 : list (string * R)) :
  StronglySorted desc l1 -> StronglySorted desc l2 ->
  (forall v, filter (has_score v) l1 = filter (has_score v) l2) ->
  l1 = l2.
Proof.
  revert l2. induction l1 as [|x l1 IH]; intros l2 H1 H2 Heq.
  - destruct l2 as [|y l2]; [reflexivity|].
    specialize (Heq (snd y)). simpl in Heq. unfold has_score in Heq.
    destruct (Req_dec_T (snd y) (snd y)); [discriminate | congruence].
  - destruct l2 as [|y l2].
    + specialize (Heq (snd x)). simpl in Heq. unfold has_score in Heq.
      destruct (Req_dec_T (snd x) (snd x)); [discriminate | congruence].
    + inversion H1 as [|? ? H1' A1]; inversion H2 as [|? ? H2' A2]; subst.
      assert (Hx : In x (y :: l2)).
      { assert (Hin : In x (filter (has_score (snd x)) (x :: l1))).
        { apply filter_In. split; [now left|]. unfold has_score.
          destruct (Req_dec_T (snd x) (snd x)); congruence. }
        rewrite Heq in Hin. now apply filter_In in Hin. }
      assert (Hy : In y (x :: l1)).
      { assert (Hin : In y (filter (has_score (snd y)) (y :: l2))).
        { apply filter_In. split; [now left|]. unfold has_score.
          destruct (Req_dec_T (snd y) (snd y)); congruence. }
        rewrite <- Heq in Hin. now apply filter_In in Hin. }
      assert (Hxy : snd x = snd y).
      { rewrite Forall_forall in A1, A2. unfold desc in *.
        apply Rle_antisym.
        - destruct Hx as [->|Hx]; [lra | now apply A2].
        - destruct Hy as [->|Hy]; [lra | now apply A1]. }
      assert (E : x = y).
      { specialize (Heq (snd x)). simpl in Heq. unfold has_score in Heq.
        rewrite <- Hxy in Heq.
        destruct (Req_dec_T (snd x) (snd x)); congruence. }
      subst y. f_equal. apply IH; try assumption.
      intros v. specialize (Heq v). simpl in Heq.
      destruct (has_score v x); congruence.
Qed.

(** ** Threshold and truncation *)

Lemma relevant_below (x : string * R) (l : list (string * R)) :
  relevant x = false -> Forall (desc x) l -> filter relevant l = [].
Proof.
  intros Hx Hall. induction l as [|y l IH]; simpl; [reflexivity|].
  inversion Hall as [|? ? Hy Hl]; subst. rewrite (IH Hl).
  unfold relevant, desc in *.
  destruct (Rlt_dec threshold (snd x)); [discriminate|].
  destruct (Rlt_dec threshold (snd y)); [lra | reflexivity].
Qed.

(** On a descending list the threshold keeps a prefix, so cutting before
    or after the test gives the same list. *)
Lemma filter_firstn_sorted (n : nat) (l : list (string * R)) :
  StronglySorted desc l ->
  filter relevant (firstn n l) = firstn n (filter relevant l).
Proof.
  revert n. induction l as [|x l IH]; intros n Hs.
  - simpl. now rewrite !firstn_nil.
  - inversion Hs as [|? ? Hs' Hall]; subst.
    destruct n as [|n]; [reflexivity|]. simpl.
    destruct (relevant x) eqn:Hx.
    + simpl. now rewrite IH.
    + rewrite (relevant_below x l Hx Hall). simpl.
      apply (relevant_below x); [exact Hx | now apply firstn_Forall].
Qed.

Lemma slice_to_nonneg {A : Type} (l : list A) (k : Z) :
  (0 <= k)%Z -> slice_to l k = firstn (Z.to_nat k) l.
Proof.
  intros H. unfold slice_to. destruct (Z.ltb_spec k 0); [lia | reflexivity].
Qed.

Lemma slice_to_prefix {A : Type} (l : list A) (k : Z) :
  exists n, slice_to l k = firstn n l.
Proof. unfold slice_to. destruct (k <? 0)%Z; eauto. Qed.

Lemma format_results_all (dests : catalog) (l : list (string * R)) :
  format_results dests l = format_all dests (filter relevant l).
Proof.
  induction l as [|[dest_id score] l IH]; simpl; [reflexivity|].
  unfold relevant at 1. simpl.
  destruct (Rlt_dec threshold score); simpl; now rewrite IH.
Qed.

(** ** Scoring and formatting *)

Lemma score_documents_map (norms : dict R) (qv : dict R) (qn : R)
    (vectors : dict (dict R)) :
  Forall (fun kv => dict_get norms (fst kv) = Some (norm (snd kv))) vectors ->
  score_documents norms qv qn vectors
  = Ok (map (fun kv => (fst kv, cosine qv qn (snd kv) (norm (snd kv)))) vectors).
Proof.
  induction vectors as [|[dest_id dest_vec] vectors IH]; simpl; intros H.
  - reflexivity.
  - inversion H as [|? ? Hn Hrest]; subst. simpl in Hn.
    unfold dict_index. rewrite Hn. simpl. rewrite (IH Hrest). reflexivity.
Qed.

Lemma index_norms (cat : catalog) :
  let r := AIRecommender cat in
  Forall (fun kv => dict_get (doc_norms r) (fst kv) = Some (norm (snd kv)))
         (tf_vectors r).
Proof.
  cbv zeta. destruct (index_invariant cat) as (Hn & Hnd & _). cbv zeta in *.
  apply Forall_forall. intros [k v] Hin. simpl.
  rewrite Hn, dict_get_map, (dict_get_unique _ _ _ Hnd Hin). reflexivity.
Qed.

Lemma score_documents_index (cat : catalog) (query : string) :
  let r := AIRecommender cat in
  let query_vec := _vectorize_query r query in
  score_documents (doc_norms r) query_vec (norm query_vec) (tf_vectors r)
  = Ok (similarities r query).
Proof.
  cbv zeta. unfold similarities.
  apply score_documents_map, index_norms.
Qed.

(** The query matcher, with the lookups of the index resolved. *)
Lemma recommend_unfold (cat : catalog) (query : string) (top_k : Z) :
  let r := AIRecommender cat in
  recommend r query top_k
  = if Req_dec_T (norm (_vectorize_query r query)) 0 then Ok []
    else format_all cat (ranked r query top_k).
Proof.
  cbv zeta. unfold recommend. fold (norm (_vectorize_query (AIRecommender cat) query)).
  destruct (Req_dec_T _ 0); [reflexivity|].
  rewrite (score_documents_index cat query). simpl.
  rewrite format_results_all.
  destruct (AIRecommender_fields cat) as (-> & _). reflexivity.
Qed.

Lemma format_all_shape (dests : catalog) (l : list (string * R))
    (rs : list recommendation) :
  format_all dests l = Ok rs ->
  map res_id rs = map fst l
  /\ map match_score rs = map (fun p => PyFloat (round1 (snd p * 100))) l.
Proof.
  revert rs. induction l as [|[dest_id score] l IH]; simpl; intros rs H.
  - injection H as <-. now split.
  - destruct (dict_index dests dest_id) as [dest|]; simpl in H; [|discriminate].
    destruct (field "type" (type dest)) as [tags|]; simpl in H; [|discriminate].
    destruct (field "eco_score" (eco_score dest)) as [eco|]; simpl in H; [|discriminate].
    destruct (field "description" (description dest)) as [d|]; simpl in H; [|discriminate].
    destruct (format_all dests l) as [results|]; simpl in H; [|discriminate].
    injection H as <-. destruct (IH results eq_refl) as [H1 H2].
    simpl. now rewrite H1, H2.
Qed.

Lemma format_all_complete (dests : catalog) (l : list (string * R)) :
  Forall (fun item => complete (snd item)) dests ->
  Forall (fun p => In (fst p) (dict_keys dests)) l ->
  exists rs, format_all dests l = Ok rs.
Proof.
  intros Hc. induction l as [|[dest_id score] l IH]; simpl; intros Hk.
  - now exists [].
  - inversion Hk as [|? ? Hin Hrest]; subst. simpl in Hin.
    destruct (dict_get_keys _ _ Hin) as [dest Hd].
    unfold dict_index. rewrite Hd. simpl.
    apply dict_get_In in Hd. rewrite Forall_forall in Hc.
    destruct (Hc _ Hd) as (Ht & He & Hdesc). simpl in *.
    destruct (type dest); [|congruence].
    destruct (eco_score dest); [|congruence].
    destruct (description dest); [|congruence]. simpl.
    destruct (IH Hrest) as [rs ->]. simpl. eauto.
Qed.

Lemma ranked_incl (self : recommender) (query : string) (top_k : Z) (p : string * R) :
  In p (ranked self query top_k) ->
  In p (similarities self query) /\ relevant p = true.
Proof.
  unfold ranked. intros H. apply filter_In in H as [H Hr]. split; [|exact Hr].
  destruct (slice_to_prefix (sort_desc (similarities self query)) top_k) as [n Hn].
  rewrite Hn in H.
  eapply Permutation_in; [apply sort_desc_perm|].
  rewrite <- (firstn_skipn n (sort_desc _)). apply in_or_app. now left.
Qed.

Lemma ranked_keys (cat : catalog) (query : string) (top_k : Z) :
  Forall (fun p => In (fst p) (dict_keys cat))
         (ranked (AIRecommender cat) query top_k).
Proof.
  apply Forall_forall. intros p Hp. apply ranked_incl in Hp as [Hp _].
  unfold similarities in Hp. apply in_map_iff in Hp as [kv [<- Hkv]]. simpl.
  destruct (index_invariant cat) as (_ & _ & Hall). cbv zeta in Hall.
  rewrite Forall_forall in Hall. now destruct (Hall _ Hkv).
Qed.

(** ** No signal *)

Lemma vectorize_fold_oov (table : dict R) (total : nat) (counts : dict nat)
    (vec : dict R) :
  Forall (fun kv => dict_get table (fst kv) = None) counts ->
  fold_left
    (fun vec '(term, count) =>
       match dict_get table term with
       | Some weight => dict_set vec term (INR count / INR total * weight)%R
       | None => vec
       end) counts vec = vec.
Proof.
  revert vec. induction counts as [|[term count] counts IH]; intros vec H; simpl.
  - reflexivity.
  - inversion H as [|? ? Ht Hrest]; subst. simpl in Ht. rewrite Ht. now apply IH.
Qed.

Lemma vectorize_oov (self : recommender) (query : string) :
  Forall (fun t => dict_get (idf self) t = None) (_tokenize query) ->
  _vectorize_query self query = [].
Proof.
  intros H. unfold _vectorize_query. apply vectorize_fold_oov.
  apply Forall_forall. intros [term count] Hin. simpl.
  rewrite Forall_forall in H. apply H.
  assert (Hk : In term (dict_keys (Counter (_tokenize query)))).
  { change term with (fst (term, count)). now apply in_map. }
  unfold Counter in Hk. apply counter_update_keys in Hk as [[]|Hk]. exact Hk.
Qed.

Lemma norm_nil : norm [] = 0%R.
Proof. unfold norm, sum_sq. simpl. apply sqrt_0. Qed.

Lemma tokenize_stop_words (query : string) :
  Forall (fun w => In w stop_words) (Str.split (Str.re_sub_strip (Str.lower query))) ->
  _tokenize query = [].
Proof.
  intros H. unfold _tokenize.
  induction (Str.split (Str.re_sub_strip (Str.lower query))) as [|w ws IH];
    [reflexivity|].
  inversion H as [|? ? Hw Hrest]; subst. cbn [filter].
  apply StrFacts.mem_In in Hw. rewrite Hw. cbn [negb]. now apply IH.
Qed.

(** C7. A query with no signal -- one whose vector has norm zero, the
    empty query, a query of stop words only, a query whose tokens are all
    absent from the idf table -- makes [recommend] return the empty
    sequence, for every catalog and every [top_k]; no exception is
    raised. *)
Theorem recommend_no_signal (cat : catalog) (query : string) (top_k : Z) :
  let r := AIRecommender cat in
  norm (_vectorize_query r query) = 0%R
  \/ query = ""
  \/ Forall (fun w => In w stop_words)
            (Str.split (Str.re_sub_strip (Str.lower query)))
  \/ Forall (fun t => dict_get (idf r) t = None) (_tokenize query) ->
  norm (_vectorize_query r query) = 0%R /\ recommend r query top_k = Ok [].
Proof.
  intros r H.
  assert (Hn : norm (_vectorize_query r query) = 0%R).
  { destruct H as [H|[H|[H|H]]].
    - exact H.
    - subst query. rewrite vectorize_oov; [apply norm_nil | constructor].
    - rewrite vectorize_oov; [apply norm_nil|].
      rewrite (tokenize_stop_words _ H). constructor.
    - rewrite vectorize_oov; [apply norm_nil | exact H]. }
  split; [exact Hn|].
  unfold recommend. fold (norm (_vectorize_query r query)).
  destruct (Req_dec_T _ 0); [reflexivity | contradiction].
Qed.

(** ** Threshold before truncation *)

(** C3. For [top_k >= 0], [recommend] returns what the specified order of
    steps returns -- sort by similarity descending, keep the documents
    whose similarity exceeds 0.05, cut to the first [top_k], format -- and
    so never more than [top_k] records; on a catalog whose entries carry
    the displayed fields it does return. *)
Theorem recommend_refines_spec (cat : catalog) (query : string) (top_k : Z) :
  (0 <= top_k)%Z ->
  let r := AIRecommender cat in
  recommend r query top_k = recommend_spec r query top_k
  /\ (forall rs, recommend r query top_k = Ok rs -> (Z.of_nat (length rs) <= top_k)%Z)
  /\ (Forall (fun item => complete (snd item)) cat ->
      exists rs, recommend r query top_k = Ok rs).
Proof.
  intros Hk r.
  assert (Hranked : ranked r query top_k
    = firstn (Z.to_nat top_k) (filter relevant (sort_desc (similarities r query)))).
  { unfold ranked. rewrite slice_to_nonneg by exact Hk.
    apply filter_firstn_sorted, sort_desc_sorted. }
  repeat split.
  - unfold r. rewrite recommend_unfold. unfold recommend_spec.
    fold r. destruct (Req_dec_T _ 0); [reflexivity|].
    unfold r. rewrite (score_documents_index cat query). simpl.
    fold r. rewrite <- Hranked.
    destruct (AIRecommender_fields cat) as (Hd & _). fold r in Hd.
    now rewrite Hd.
  - intros rs. unfold r. rewrite recommend_unfold. fold r.
    destruct (Req_dec_T _ 0).
    + intros [= <-]. simpl. lia.
    + intros H. apply format_all_shape in H as [H _].
      apply (f_equal (@length _)) in H. rewrite !length_map in H.
      rewrite H, Hranked.
      assert (Hle := firstn_le_length (Z.to_nat top_k)
                       (filter relevant (sort_desc (similarities r query)))).
      lia.
  - intros Hc. unfold r. rewrite recommend_unfold.
    destruct (Req_dec_T _ 0); [now exists []|].
    apply format_all_complete; [exact Hc | apply ranked_keys].
Qed.

(** ** Ranking order *)

Lemma StronglySorted_firstn {A : Type} (R : A -> A -> Prop) (n : nat) (l : list A) :
  StronglySorted R l -> StronglySorted R (firstn n l).
Proof.
  revert n. induction l as [|x l IH]; intros n Hs.
  - rewrite firstn_nil. constructor.
  - destruct n as [|n]; simpl; [constructor|].
    inversion Hs as [|? ? Hs' Hall]; subst.
    constructor; [now apply IH | now apply firstn_Forall].
Qed.

Lemma StronglySorted_filter_keep {A : Type} (R : A -> A -> Prop) (f : A -> bool)
    (l : list A) :
  StronglySorted R l -> StronglySorted R (filter f l).
Proof.
  induction l as [|x l IH]; simpl; intros Hs; [constructor|].
  inversion Hs as [|? ? Hs' Hall]; subst.
  destruct (f x); [|now apply IH].
  constructor; [now apply IH|].
  rewrite Forall_forall in *. intros y Hy. apply filter_In in Hy as [Hy _].
  now apply Hall.
Qed.

Lemma filter_firstn_prefix {A : Type} (f : A -> bool) (n : nat) (l : list A) :
  exists rest, filter f l = filter f (firstn n l) ++ rest.
Proof.
  exists (filter f (skipn n l)).
  now rewrite <- filter_app, firstn_skipn.
Qed.

Lemma filter_score_relevant (v : R) (l : list (string * R)) :
  filter (has_score v) (filter relevant l)
  = if Rlt_dec threshold v then filter (has_score v) l else [].
Proof.
  induction l as [|p l IH]; simpl.
  - now destruct (Rlt_dec threshold v).
  - unfold relevant at 1, has_score at 2.
    destruct (Rlt_dec threshold (snd p)) as [Hr|Hr];
      destruct (Req_dec_T (snd p) v) as [Hv|Hv]; simpl; rewrite ?IH.
    + unfold has_score at 1. destruct (Req_dec_T (snd p) v); [|contradiction].
      subst v. destruct (Rlt_dec threshold (snd p)); [reflexivity | contradiction].
    + unfold has_score at 1. destruct (Req_dec_T (snd p) v); [contradiction|].
      reflexivity.
    + subst v. destruct (Rlt_dec threshold (snd p)); [contradiction | reflexivity].
    + reflexivity.
Qed.

Lemma ranked_sorted (self : recommender) (query : string) (top_k : Z) :
  StronglySorted desc (ranked self query top_k).
Proof.
  unfold ranked.
  destruct (slice_to_prefix (sort_desc (similarities self query)) top_k) as [n ->].
  apply StronglySorted_filter_keep, StronglySorted_firstn, sort_desc_sorted.
Qed.

Lemma ranked_ties (self : recommender) (query : string) (top_k : Z) (v : R) :
  exists rest,
    filter (has_score v) (similarities self query)
    = filter (has_score v) (ranked self query top_k) ++ rest.
Proof.
  unfold ranked.
  destruct (slice_to_prefix (sort_desc (similarities self query)) top_k) as [n ->].
  rewrite filter_score_relevant. rewrite <- (sort_desc_stable v (similarities self query)).
  destruct (Rlt_dec threshold v).
  - apply filter_firstn_prefix.
  - now exists (filter (has_score v) (sort_desc (similarities self query))).
Qed.

Lemma similarities_catalog (cat : catalog) (query : string) :
  NoDup (dict_keys cat) ->
  let r := AIRecommender cat in
  let query_vec := _vectorize_query r query in
  similarities r query
  = map (fun item =>
           (fst item,
            cosine query_vec (norm query_vec)
                   (vector_of (idf r) (snd item))
                   (norm (vector_of (idf r) (snd item))))) cat.
Proof.
  intros Hnd. cbv zeta. unfold similarities.
  rewrite (tf_vectors_catalog cat Hnd), map_map. reflexivity.
Qed.

Lemma filter_app_split {A : Type} (f : A -> bool) (l p q : list A) :
  filter f l = p ++ q ->
  exists l1 l2, l = l1 ++ l2 /\ filter f l1 = p /\ filter f l2 = q.
Proof.
  revert p. induction l as [|x l IH]; intros p H; simpl in H.
  - symmetry in H. apply app_eq_nil in H as [-> ->]. now exists [], [].
  - destruct (f x) eqn:Hx.
    + destruct p as [|y p]; simpl in H.
      * exists [], (x :: l). simpl. rewrite Hx. now repeat split.
      * injection H as <- H. destruct (IH p H) as (l1 & l2 & -> & H1 & H2).
        exists (x :: l1), l2. simpl. rewrite Hx, H1. now repeat split.
    + destruct (IH p H) as (l1 & l2 & -> & H1 & H2).
      exists (x :: l1), l2. simpl. rewrite Hx. now repeat split.
Qed.

Lemma before_filter {A : Type} (f : A -> bool) (a b : A) (l : list A) :
  before a b (filter f l) -> before a b l.
Proof.
  intros (p & q & r & H).
  apply filter_app_split in H as (l1 & l2 & -> & _ & H).
  change (a :: q ++ b :: r) with ([a] ++ (q ++ b :: r)) in H.
  apply filter_app_split in H as (n1 & n2 & -> & Ha & Hb).
  assert (Hina : In a n1).
  { assert (Hin : In a (filter f n1)) by (rewrite Ha; now left).
    now apply filter_In in Hin. }
  assert (Hinb : In b n2).
  { assert (Hin : In b (filter f n2)) by (rewrite Hb; apply in_elt).
    now apply filter_In in Hin. }
  apply in_split in Hina as (u & v & ->). apply in_split in Hinb as (w & z & ->).
  exists (l1 ++ u), (v ++ w), z.
  repeat (rewrite <- app_assoc || rewrite <- app_comm_cons). reflexivity.
Qed.

Lemma before_app_l {A : Type} (a b : A) (l rest : list A) :
  before a b l -> before a b (l ++ rest).
Proof.
  intros (l1 & l2 & l3 & ->). exists l1, l2, (l3 ++ rest).
  repeat (rewrite <- app_assoc || rewrite <- app_comm_cons). reflexivity.
Qed.

Lemma before_map {A B : Type} (g : A -> B) (a b : A) (l : list A) :
  before a b l -> before (g a) (g b) (map g l).
Proof.
  intros (l1 & l2 & l3 & ->). exists (map g l1), (map g l2), (map g l3).
  now rewrite !map_app, !map_cons, !map_app, !map_cons.
Qed.

Lemma before_filter_keep {A : Type} (f : A -> bool) (a b : A) (l : list A) :
  f a = true -> f b = true -> before a b l -> before a b (filter f l).
Proof.
  intros Ha Hb (l1 & l2 & l3 & ->).
  exists (filter f l1), (filter f l2), (filter f l3).
  rewrite !filter_app. simpl. rewrite Ha, filter_app. simpl. now rewrite Hb.
Qed.

Lemma StronglySorted_before {A : Type} (R : A -> A -> Prop) (a b : A) (l : list A) :
  StronglySorted R l -> before a b l -> R a b.
Proof.
  intros Hs (l1 & l2 & l3 & ->).
  induction l1 as [|x l1 IH]; simpl in Hs; inversion Hs as [|? ? Hs' Hall]; subst.
  - rewrite Forall_forall in Hall. apply Hall, in_elt.
  - now apply IH.
Qed.

Lemma has_score_refl (p : string * R) : has_score (snd p) p = true.
Proof. unfold has_score. destruct (Req_dec_T (snd p) (snd p)); congruence. Qed.

(** In the list [recommend] formats, a document standing before another
    has at least its similarity, and with equal similarity it stands
    before it in the index as well. *)
Lemma ranked_before (self : recommender) (query : string) (top_k : Z)
    (a b : string * R) :
  before a b (ranked self query top_k) ->
  (snd b <= snd a)%R
  /\ (snd a = snd b -> before a b (similarities self query)).
Proof.
  intros H. split.
  - exact (StronglySorted_before desc a b _ (ranked_sorted self query top_k) H).
  - intros E. destruct (ranked_ties self query top_k (snd a)) as [rest Hrest].
    apply (before_filter (has_score (snd a))). rewrite Hrest.
    apply before_app_l, before_filter_keep; [apply has_score_refl | | exact H].
    rewrite E. apply has_score_refl.
Qed.

(** ** Rounding *)

Lemma floor_bounds (x : R) : (IZR (floor x) <= x < IZR (floor x) + 1)%R.
Proof.
  unfold floor. rewrite minus_IZR. destruct (archimed x) as [H1 H2]. lra.
Qed.

Lemma floor_unique (x : R) (n : Z) :
  (IZR n <= x < IZR n + 1)%R -> floor x = n.
Proof.
  intros [H1 H2]. destruct (floor_bounds x) as [F1 F2].
  assert (A : (IZR (floor x) < IZR (n + 1))%R) by (rewrite plus_IZR; lra).
  assert (B : (IZR n < IZR (floor x + 1))%R) by (rewrite plus_IZR; lra).
  apply lt_IZR in A, B. lia.
Qed.

Lemma round_half_even_cases (x : R) :
  round_half_even x = floor x \/ round_half_even x = (floor x + 1)%Z.
Proof.
  unfold round_half_even.
  destruct (Rlt_dec _ _); [now left|].
  destruct (Rlt_dec _ _); [now right|].
  destruct (Z.even _); [now left | now right].
Qed.

Lemma round_half_even_ge (x : R) (n : Z) :
  (IZR n <= x)%R -> (n <= round_half_even x)%Z.
Proof.
  intros H. destruct (floor_bounds x) as [F1 F2].
  assert (A : (IZR n < IZR (floor x + 1))%R) by (rewrite plus_IZR; lra).
  apply lt_IZR in A. destruct (round_half_even_cases x) as [-> | ->]; lia.
Qed.

Lemma round_half_even_le (x : R) (n : Z) :
  (x <= IZR n)%R -> (round_half_even x <= n)%Z.
Proof.
  intros H. destruct (floor_bounds x) as [F1 F2].
  assert (A : (IZR (floor x) <= IZR n)%R) by lra.
  apply le_IZR in A.
  destruct (Z.eq_dec (floor x) n) as [E|E].
  - unfold round_half_even. rewrite E in *.
    destruct (Rlt_dec (x - IZR n) (1 / 2)); [lia | lra].
  - destruct (round_half_even_cases x) as [-> | ->]; lia.
Qed.

Lemma round_half_even_low (x : R) (n : Z) :
  (IZR n <= x < IZR n + 1 / 2)%R -> round_half_even x = n.
Proof.
  intros [H1 H2]. unfold round_half_even.
  rewrite (floor_unique x n) by lra.
  destruct (Rlt_dec (x - IZR n) (1 / 2)); [reflexivity | lra].
Qed.

Lemma round1_ge (x : R) (n : Z) :
  (IZR n / 10 <= x)%R -> (IZR n / 10 <= round1 x)%R.
Proof.
  intros H. unfold round1.
  assert (A : (n <= round_half_even (x * 10))%Z)
    by (apply round_half_even_ge; lra).
  apply IZR_le in A. lra.
Qed.

Lemma round1_le (x : R) (n : Z) :
  (x <= IZR n / 10)%R -> (round1 x <= IZR n / 10)%R.
Proof.
  intros H. unfold round1.
  assert (A : (round_half_even (x * 10) <= n)%Z)
    by (apply round_half_even_le; lra).
  apply IZR_le in A. lra.
Qed.

(** ** Sums *)

Lemma fold_left_Rsum {A : Type} (f : A -> R) (l : list A) (a : R) :
  fold_left (fun acc x => (acc + f x)%R) l a = (a + Rsum (map f l))%R.
Proof.
  revert a. induction l as [|x l IH]; intros a; simpl; [lra|].
  rewrite IH. lra.
Qed.

Lemma Rsum_cons (x : R) (xs : list R) : Rsum (x :: xs) = (x + Rsum xs)%R.
Proof. reflexivity. Qed.

Lemma sum_sq_Rsum (xs : list R) : sum_sq xs = Rsum (map (fun x => x ^ 2)%R xs).
Proof. unfold sum_sq. rewrite fold_left_Rsum. lra. Qed.

Lemma sum_sq_cons (x : R) (xs : list R) :
  sum_sq (x :: xs) = (x ^ 2 + sum_sq xs)%R.
Proof. rewrite !sum_sq_Rsum. reflexivity. Qed.

Lemma Rsum_nonneg (xs : list R) : Forall (fun x => 0 <= x)%R xs -> (0 <= Rsum xs)%R.
Proof.
  induction 1 as [|x xs Hx _ IH]; simpl; lra.
Qed.

Lemma sum_sq_nonneg (xs : list R) : (0 <= sum_sq xs)%R.
Proof.
  rewrite sum_sq_Rsum. apply Rsum_nonneg. apply Forall_forall.
  intros y Hy. apply in_map_iff in Hy as [x [<- _]]. nra.
Qed.

Lemma norm_nonneg (vec : dict R) : (0 <= norm vec)%R.
Proof. apply sqrt_pos. Qed.

Lemma norm_sq (vec : dict R) : (norm vec * norm vec = sum_sq (dict_values vec))%R.
Proof. apply sqrt_sqrt, sum_sq_nonneg. Qed.

Lemma dot_product_Rsum (q d : dict R) :
  dot_product q d = Rsum (map (fun kv => snd kv * weight_of d (fst kv))%R q).
Proof.
  unfold dot_product.
  rewrite <- (Rplus_0_l (Rsum _)), <- fold_left_Rsum.
  generalize 0%R. induction q as [|[t x] q IH]; intros a; simpl; [reflexivity|].
  rewrite <- IH. f_equal. unfold weight_of, dict_get_default.
  destruct (dict_get d t); lra.
Qed.

(** ** The Cauchy-Schwarz inequality for sparse vectors *)

Lemma two_products (T P Q : R) :
  (0 <= P)%R -> (0 <= Q)%R -> (T * T <= P * Q)%R -> (2 * T <= P + Q)%R.
Proof.
  intros HP HQ H. destruct (Rle_lt_dec (2 * T) (P + Q)) as [L|L]; [exact L|].
  exfalso.
  assert (H0 : (0 <= (P - Q) * (P - Q))%R) by apply Rle_0_sqr.
  assert (H1 : ((P + Q) * (P + Q) <= (P + Q) * (2 * T))%R)
    by (apply Rmult_le_compat_l; lra).
  assert (H2 : ((P + Q) * (2 * T) < (2 * T) * (2 * T))%R)
    by (apply Rmult_lt_compat_r; lra).
  nra.
Qed.

Lemma cauchy_schwarz (l : list (R * R)) :
  let A := Rsum (map (fun p => fst p * snd p)%R l) in
  let B := Rsum (map (fun p => fst p ^ 2)%R l) in
  let C := Rsum (map (fun p => snd p ^ 2)%R l) in
  (0 <= B /\ 0 <= C /\ A * A <= B * C)%R.
Proof.
  induction l as [|[x y] l IH]; cbv zeta.
  - simpl. lra.
  - cbv zeta in IH. destruct IH as (HB & HC & HA).
    rewrite !map_cons, !Rsum_cons. cbn [fst snd].
    set (A := Rsum (map (fun p => fst p * snd p)%R l)) in *.
    set (B := Rsum (map (fun p => fst p ^ 2)%R l)) in *.
    set (C := Rsum (map (fun p => snd p ^ 2)%R l)) in *.
    assert (Hx : (0 <= x * x)%R) by nra.
    assert (Hy : (0 <= y * y)%R) by nra.
    repeat split; try nra.
    assert (H2 : (2 * (x * y * A) <= x * x * C + y * y * B)%R).
    { apply two_products; try nra.
      replace (x * y * A * (x * y * A))%R with ((x * x) * (y * y) * (A * A))%R by ring.
      replace (x * x * C * (y * y * B))%R with ((x * x) * (y * y) * (B * C))%R by ring.
      apply Rmult_le_compat_l; [nra | exact HA]. }
    nra.
Qed.

Lemma dict_remove_get {V : Type} (d : dict V) (t t' : string) :
  t' <> t -> dict_get (dict_remove d t) t' = dict_get d t'.
Proof.
  intros Hne. induction d as [|[k v] d IH]; simpl; [reflexivity|].
  destruct (String.eqb_spec t k) as [->|Hk]; simpl.
  - destruct (String.eqb_spec t' k); [contradiction | reflexivity].
  - now rewrite IH.
Qed.

Lemma dict_remove_sum (d : dict R) (t : string) (v : R) :
  dict_get d t = Some v ->
  sum_sq (dict_values d) = (v ^ 2 + sum_sq (dict_values (dict_remove d t)))%R.
Proof.
  induction d as [|[k x] d IH]; [discriminate|].
  cbn [dict_get dict_remove].
  destruct (String.eqb_spec t k) as [->|Hk].
  - intros [= ->]. unfold dict_values. cbn [map snd]. apply sum_sq_cons.
  - intros H. unfold dict_values in *. cbn [map snd].
    rewrite !sum_sq_cons, (IH H). lra.
Qed.

Lemma lookup_squares (ks : list string) (d : dict R) :
  NoDup ks ->
  (Rsum (map (fun t => weight_of d t ^ 2) ks) <= sum_sq (dict_values d))%R.
Proof.
  intros Hnd. revert d. induction Hnd as [|t ks Hnot Hnd IH]; intros d.
  - simpl. apply sum_sq_nonneg.
  - rewrite map_cons, Rsum_cons. unfold weight_of at 1, dict_get_default.
    destruct (dict_get d t) as [v|] eqn:E.
    + rewrite (dict_remove_sum d t v E).
      apply Rplus_le_compat_l.
      erewrite map_ext_in; [apply (IH (dict_remove d t))|].
      intros t' Ht'. unfold weight_of, dict_get_default.
      rewrite dict_remove_get; [reflexivity|]. intros ->. contradiction.
    + specialize (IH d). lra.
Qed.

Lemma dot_product_square (q d : dict R) :
  NoDup (dict_keys q) ->
  (dot_product q d * dot_product q d
   <= sum_sq (dict_values q) * sum_sq (dict_values d))%R.
Proof.
  intros Hnd. rewrite dot_product_Rsum.
  destruct (cauchy_schwarz (map (fun kv => (snd kv, weight_of d (fst kv))) q))
    as (HB & HC & HA).
  repeat rewrite map_map in HB. repeat rewrite map_map in HC.
  repeat rewrite map_map in HA. cbn [fst snd] in HB, HC, HA.
  assert (HC' := lookup_squares (dict_keys q) d Hnd).
  unfold dict_keys in HC'. rewrite map_map in HC'.
  rewrite (sum_sq_Rsum (dict_values q)). unfold dict_values at 1. rewrite map_map.
  eapply Rle_trans; [exact HA|].
  apply Rmult_le_compat_l; assumption.
Qed.

Lemma dot_product_nonneg (q d : dict R) :
  Forall (fun kv => (0 <= snd kv)%R) q -> Forall (fun kv => (0 <= snd kv)%R) d ->
  (0 <= dot_product q d)%R.
Proof.
  intros Hq Hd. rewrite dot_product_Rsum. apply Rsum_nonneg.
  apply Forall_forall. intros y Hy. apply in_map_iff in Hy as [[t x] [<- Hin]].
  rewrite Forall_forall in Hq, Hd. specialize (Hq _ Hin). simpl in *.
  apply Rmult_le_pos; [exact Hq|].
  unfold weight_of, dict_get_default. destruct (dict_get d t) as [v|] eqn:E.
  - apply dict_get_In in E. exact (Hd _ E).
  - lra.
Qed.

(** The cosine of two sparse vectors lies between 0 and 1. *)
Lemma cosine_bounds (q d : dict R) :
  sparse_vector q -> sparse_vector d -> norm q <> 0%R ->
  (0 <= cosine q (norm q) d (norm d) <= 1)%R.
Proof.
  intros [Hqk Hqv] [_ Hdv] Hq. unfold cosine.
  destruct (Rlt_dec 0 (norm d)) as [Hd|Hd]; [|lra].
  assert (Hqn : (0 < norm q)%R) by (pose proof (norm_nonneg q); lra).
  assert (Hm : (0 < norm q * norm d)%R) by now apply Rmult_lt_0_compat.
  assert (H0 := dot_product_nonneg q d Hqv Hdv).
  assert (H2 := dot_product_square q d Hqk).
  rewrite <- (norm_sq q), <- (norm_sq d) in H2.
  assert (Hle : (dot_product q d <= norm q * norm d)%R).
  { destruct (Rle_lt_dec (dot_product q d) (norm q * norm d)) as [L|L]; [exact L|].
    exfalso.
    assert (((norm q * norm d) * (norm q * norm d)
             < dot_product q d * dot_product q d))%R.
    { apply Rle_lt_trans with ((norm q * norm d) * dot_product q d)%R.
      - apply Rmult_le_compat_l; lra.
      - apply Rmult_lt_compat_r; lra. }
    lra. }
  split.
  - apply Rmult_le_pos; [exact H0|]. left. now apply Rinv_0_lt_compat.
  - apply (Rmult_le_reg_r (norm q * norm d)); [exact Hm|].
    unfold Rdiv. rewrite Rmult_assoc, Rinv_l by lra. lra.
Qed.

(** ** The vectors of the index are sparse vectors *)

Lemma compute_idf_nonneg (N : nat) (df : dict nat) :
  Forall (fun kv => (0 <= snd kv)%R) (compute_idf N df).
Proof.
  unfold compute_idf. apply Forall_forall. intros kv Hin.
  apply in_map_iff in Hin as [[t c] [<- _]]. simpl.
  assert (Hc : (0 < INR (c + 1))%R) by (apply lt_0_INR; lia).
  assert (Hn : (0 <= INR N)%R) by apply pos_INR.
  assert (Ha : (0 <= INR N / INR (c + 1))%R).
  { apply Rmult_le_pos; [exact Hn|]. left. now apply Rinv_0_lt_compat. }
  destruct (Req_dec_T (INR N / INR (c + 1)) 0) as [E|E].
  - rewrite E, Rplus_0_r, ln_1. lra.
  - left. rewrite <- ln_1. apply ln_increasing; lra.
Qed.

Lemma sparse_set (vec : dict R) (t : string) (x : R) :
  sparse_vector vec -> (0 <= x)%R -> sparse_vector (dict_set vec t x).
Proof.
  intros [Hk Hv] Hx. split; [now apply dict_set_nodup|].
  apply Forall_forall. intros [k v] Hin. apply dict_set_In in Hin as [E|Hin].
  - injection E as -> ->. exact Hx.
  - rewrite Forall_forall in Hv. exact (Hv _ Hin).
Qed.

Lemma sparse_nil : sparse_vector [].
Proof. split; constructor. Qed.

Lemma tf_nonneg (count total : nat) : (0 <= INR count / INR total)%R.
Proof.
  destruct total as [|total].
  - simpl. unfold Rdiv. rewrite Rinv_0. lra.
  - apply Rmult_le_pos; [apply pos_INR|].
    left. apply Rinv_0_lt_compat, lt_0_INR. lia.
Qed.

Lemma weight_nonneg (table : dict R) (t : string) :
  Forall (fun kv => (0 <= snd kv)%R) table ->
  (0 <= dict_get_default table t 0)%R.
Proof.
  intros H. unfold dict_get_default. destruct (dict_get table t) as [v|] eqn:E.
  - apply dict_get_In in E. rewrite Forall_forall in H. exact (H _ E).
  - lra.
Qed.

Lemma document_vector_sparse (table : dict R) (tokens : list string) :
  Forall (fun kv => (0 <= snd kv)%R) table ->
  sparse_vector (document_vector table tokens).
Proof.
  intros Ht. unfold document_vector.
  generalize (Counter tokens) as counts.
  assert (H0 := sparse_nil). revert H0. generalize (@nil (string * R)) as vec.
  intros vec Hvec counts. revert vec Hvec.
  induction counts as [|[term count] counts IH]; intros vec Hvec; simpl.
  - exact Hvec.
  - apply IH, sparse_set; [exact Hvec|].
    apply Rmult_le_pos; [apply tf_nonneg | now apply weight_nonneg].
Qed.

Lemma vectorize_query_sparse (self : recommender) (query : string) :
  Forall (fun kv => (0 <= snd kv)%R) (idf self) ->
  sparse_vector (_vectorize_query self query).
Proof.
  intros Ht. unfold _vectorize_query.
  generalize (Counter (_tokenize query)) as counts.
  assert (H0 := sparse_nil). revert H0. generalize (@nil (string * R)) as vec.
  intros vec Hvec counts. revert vec Hvec.
  induction counts as [|[term count] counts IH]; intros vec Hvec; simpl.
  - exact Hvec.
  - apply IH. destruct (dict_get (idf self) term) as [w|] eqn:E; [|exact Hvec].
    apply sparse_set; [exact Hvec|].
    apply Rmult_le_pos; [apply tf_nonneg|].
    apply dict_get_In in E. rewrite Forall_forall in Ht. exact (Ht _ E).
Qed.

Lemma idf_nonneg (cat : catalog) :
  Forall (fun kv => (0 <= snd kv)%R) (idf (AIRecommender cat)).
Proof.
  destruct (AIRecommender_fields cat) as (_ & _ & _ & Hi). cbv zeta in Hi.
  rewrite Hi. apply compute_idf_nonneg.
Qed.

Lemma index_sparse (cat : catalog) :
  Forall (fun kv => sparse_vector (snd kv)) (tf_vectors (AIRecommender cat)).
Proof.
  destruct (index_invariant cat) as (_ & _ & Hall). cbv zeta in Hall.
  rewrite Forall_forall in *. intros kv Hin.
  destruct (Hall kv Hin) as (_ & doc & _ & ->).
  apply document_vector_sparse, idf_nonneg.
Qed.

Lemma similarities_bounds (cat : catalog) (query : string) :
  let r := AIRecommender cat in
  norm (_vectorize_query r query) <> 0%R ->
  Forall (fun p => (0 <= snd p <= 1)%R) (similarities r query).
Proof.
  intros r Hq. unfold similarities. apply Forall_forall. intros p Hp.
  apply in_map_iff in Hp as [kv [<- Hkv]]. simpl.
  apply cosine_bounds; [|  | exact Hq].
  - apply vectorize_query_sparse, idf_nonneg.
  - assert (H := index_sparse cat). rewrite Forall_forall in H. now apply H.
Qed.

(** ** Similarity bounds and the threshold *)

Lemma format_all_records (dests : catalog) (l : list (string * R))
    (rs : list recommendation) :
  format_all dests l = Ok rs ->
  Forall2 (fun rec p =>
             res_id rec = fst p
             /\ match_score rec = PyFloat (round1 (snd p * 100))) rs l.
Proof.
  revert rs. induction l as [|[dest_id score] l IH]; simpl; intros rs H.
  - injection H as <-. constructor.
  - destruct (dict_index dests dest_id) as [dest|]; simpl in H; [|discriminate].
    destruct (field "type" (type dest)) as [tags|]; simpl in H; [|discriminate].
    destruct (field "eco_score" (eco_score dest)) as [eco|]; simpl in H; [|discriminate].
    destruct (field "description" (description dest)) as [d|]; simpl in H; [|discriminate].
    destruct (format_all dests l) as [results|]; simpl in H; [|discriminate].
    injection H as <-. constructor; [now split | now apply IH].
Qed.

(** Every record of a result comes from a scored document of the index
    whose similarity exceeds the threshold. *)
Lemma recommend_records (cat : catalog) (query : string) (top_k : Z)
    (rs : list recommendation) :
  let r := AIRecommender cat in
  recommend r query top_k = Ok rs ->
  Forall (fun rec => exists s,
            In (res_id rec, s) (similarities r query)
            /\ (threshold < s)%R
            /\ norm (_vectorize_query r query) <> 0%R
            /\ match_score rec = PyFloat (round1 (s * 100))) rs.
Proof.
  intros r. unfold r. rewrite recommend_unfold. fold r.
  destruct (Req_dec_T _ 0) as [|Hq]; [intros [= <-]; constructor|].
  intros H. apply format_all_records in H.
  assert (Hall : Forall (fun p => In p (similarities r query) /\ relevant p = true)
                        (ranked r query top_k)).
  { apply Forall_forall. intros p. apply ranked_incl. }
  revert Hall. induction H as [|rec [id s] rs l [Hid Hms] _ IH]; intros Hall.
  - constructor.
  - inversion Hall as [|? ? [Hin Hrel] Hrest]; subst. simpl in *.
    constructor; [|now apply IH].
    exists s. rewrite Hid. repeat split; try assumption.
    unfold relevant in Hrel. simpl in Hrel.
    now destruct (Rlt_dec threshold s).
Qed.

(** ** The stable sort is unique *)

(** Any descending arrangement of a list that keeps the documents of one
    score in their order is the result of [sort_desc]. *)
Lemma sort_desc_unique (l l' : list (string * R)) :
  StronglySorted desc l' ->
  (forall v, filter (has_score v) l' = filter (has_score v) l) ->
  l' = sort_desc l.
Proof.
  intros Hs Hst. apply stable_sorted_unique.
  - exact Hs.
  - apply sort_desc_sorted.
  - intros v. now rewrite Hst, sort_desc_stable.
Qed.

(** ** Evaluation on concrete catalogs *)

Ltac index_eval :=
  cbv -[ln sqrt Rplus Rmult Rminus Rdiv Rinv Ropp INR IZR Rlt_dec Req_dec_T up].

Ltac inr_to_izr :=
  repeat match goal with
  | |- context [INR ?n] =>
      rewrite (INR_IZR_INZ n);
      let z := eval vm_compute in (Z.of_nat n) in
      change (Z.of_nat n) with z
  end.

Lemma single_idf_pos : (0 < single_idf)%R.
Proof.
  unfold single_idf. inr_to_izr. rewrite <- ln_1. apply ln_increasing; lra.
Qed.

Lemma norm_singleton (t : string) (x : R) : (0 <= x)%R -> norm [(t, x)] = x.
Proof.
  intros H. unfold norm, sum_sq. simpl.
  replace (0 + x * (x * 1))%R with (x * x)%R by ring.
  now apply sqrt_square.
Qed.

Lemma single_query_norm (t : string) :
  norm [(t, (INR 1 / INR 1 * single_idf)%R)] = single_idf.
Proof.
  pose proof single_idf_pos as Hw.
  rewrite norm_singleton; inr_to_izr; [field | lra].
Qed.

Lemma round1_five (s : R) :
  (50 <= s * 100 * 10 < 50 + 1 / 2)%R -> round1 (s * 100) = 5%R.
Proof.
  intros H. unfold round1. rewrite (round_half_even_low _ 50) by exact H. lra.
Qed.

(** *** The valley catalog *)

Lemma valley_index :
  tf_vectors (AIRecommender valley_catalog) = [("valley", valley_vector)]
  /\ _vectorize_query (AIRecommender valley_catalog) "beach" = beach_query.
Proof. split; index_eval; reflexivity. Qed.

Lemma beach_query_norm : norm beach_query = single_idf.
Proof. apply single_query_norm. Qed.

Lemma valley_vector_norm :
  (0 < norm valley_vector)%R
  /\ (norm valley_vector * norm valley_vector
      = 397 / 961 * (single_idf * single_idf))%R.
Proof.
  pose proof single_idf_pos as Hw.
  assert (E : sum_sq (dict_values valley_vector)
              = (397 / 961 * (single_idf * single_idf))%R).
  { unfold valley_vector, sum_sq. simpl. inr_to_izr. field. }
  split.
  - unfold norm. rewrite E. apply sqrt_lt_R0. nra.
  - rewrite norm_sq. exact E.
Qed.

Lemma valley_dot :
  dot_product beach_query valley_vector = (single_idf * single_idf / 31)%R.
Proof.
  unfold dot_product, beach_query, valley_vector. simpl. inr_to_izr. field.
Qed.

(** The similarity of the valley document to the query ["beach"] is
    [1 / sqrt 397], about 0.0502. *)
Lemma valley_cosine :
  let s := cosine beach_query (norm beach_query) valley_vector (norm valley_vector) in
  (0.05 < s)%R /\ (50 <= s * 100 * 10 < 50 + 1 / 2)%R.
Proof.
  pose proof single_idf_pos as Hw. destruct valley_vector_norm as [Hd Hdd].
  cbv zeta. unfold cosine. rewrite valley_dot, beach_query_norm.
  set (dn := norm valley_vector) in *.
  destruct (Rlt_dec 0 dn) as [_|]; [|contradiction].
  assert (Hm : (0 < single_idf * dn)%R) by now apply Rmult_lt_0_compat.
  assert (Hup : (dn < 20 / 31 * single_idf)%R).
  { destruct (Rlt_le_dec dn (20 / 31 * single_idf)) as [L|L]; [exact L|]. exfalso.
    assert ((20 / 31 * single_idf) * (20 / 31 * single_idf) <= dn * dn)%R
      by (apply Rmult_le_compat; lra).
    nra. }
  assert (Hlo : (1000 / (31 * (50 + 1 / 2)) * single_idf < dn)%R).
  { destruct (Rlt_le_dec (1000 / (31 * (50 + 1 / 2)) * single_idf) dn) as [L|L]; [exact L|].
    exfalso.
    assert (dn * dn <= (1000 / (31 * (50 + 1 / 2)) * single_idf) * (1000 / (31 * (50 + 1 / 2)) * single_idf))%R
      by (apply Rmult_le_compat; lra).
    assert ((1000 / (31 * (50 + 1 / 2))) * (1000 / (31 * (50 + 1 / 2))) < 397 / 961)%R
      by lra.
    nra. }
  assert (E : (single_idf * single_idf / 31 / (single_idf * dn) = single_idf / (31 * dn))%R) by (field; lra).
  rewrite E.
  assert (Hi : (0 < / (31 * dn))%R) by (apply Rinv_0_lt_compat; lra).
  assert (Hx : (single_idf / (31 * dn) * (31 * dn) = single_idf)%R) by (field; lra).
  set (s := (single_idf / (31 * dn))%R) in *.
  assert (Hs : (0 < s)%R) by (unfold s; apply Rmult_lt_0_compat; lra).
  split; [|split]; nra.
Qed.

Lemma valley_recommend :
  recommend (AIRecommender valley_catalog) "beach" 3 = Ok [valley_record].
Proof.
  rewrite recommend_unfold. destruct valley_index as [Hv Hq].
  destruct valley_cosine as [Hs Hr]. cbv zeta in *.
  rewrite Hq, beach_query_norm.
  destruct (Req_dec_T single_idf 0) as [E|_]; [pose proof single_idf_pos; lra|].
  unfold ranked, similarities. rewrite Hv, Hq.
  cbn [map fst snd sort_desc fold_right insert_desc].
  set (s := cosine _ _ _ _) in *.
  replace (slice_to [("valley", s)] 3) with [("valley", s)] by reflexivity.
  cbn [filter]. unfold relevant, threshold. cbn [snd].
  destruct (Rlt_dec 0.05 s) as [_|N]; [|contradiction].
  cbn -[round1 Rmult cosine norm]. rewrite (round1_five _ Hr). reflexivity.
Qed.

(** C1, counterexample. On the valley catalog the query ["beach"] returns
    a record whose [match_score] is exactly 5.0, hence not greater than
    5.0, although the similarity behind it exceeds 0.05. *)
Lemma threshold_score_not_above_five :
  exists rs rec x,
    recommend (AIRecommender valley_catalog) "beach" 3 = Ok rs
    /\ In rec rs
    /\ match_score rec = PyFloat x
    /\ (x <= 5.0)%R.
Proof.
  exists [valley_record], valley_record, 5%R.
  split; [exact valley_recommend|].
  split; [now left|]. split; [reflexivity | lra].
Qed.

(** *** Destinations without description or without tags *)

(** A one-term query against a document that holds the term with a weight
    of more than a twentieth of its norm. *)
Lemma single_term_cosine (t : string) (x y : R) (d : dict R) :
  (0 < x)%R -> (0 < y)%R -> dict_get d t = Some y ->
  (sum_sq (dict_values d) < 400 * (y * y))%R ->
  (0.05 < cosine [(t, x)] (norm [(t, x)]) d (norm d))%R.
Proof.
  intros Hx Hy Hget HS.
  assert (Hsum := dict_remove_sum d t y Hget).
  assert (Hrest := sum_sq_nonneg (dict_values (dict_remove d t))).
  assert (Hd : (0 < norm d)%R).
  { unfold norm. apply sqrt_lt_R0. nra. }
  assert (Hdd := norm_sq d).
  unfold cosine. rewrite norm_singleton by lra.
  set (dn := norm d) in *.
  destruct (Rlt_dec 0 dn) as [_|]; [|contradiction].
  assert (Hdot : dot_product [(t, x)] d = (x * y)%R).
  { unfold dot_product. simpl. rewrite Hget. lra. }
  rewrite Hdot.
  assert (Hup : (dn < 20 * y)%R).
  { destruct (Rlt_le_dec dn (20 * y)) as [L|L]; [exact L|]. exfalso.
    assert ((20 * y) * (20 * y) <= dn * dn)%R by (apply Rmult_le_compat; lra).
    nra. }
  assert (E : (x * y / (x * dn) = y / dn)%R) by (field; lra).
  rewrite E.
  assert (Hq : (y / dn * dn = y)%R) by (field; lra).
  set (s := (y / dn)%R) in *.
  assert (Hs : (0 < s)%R).
  { unfold s. apply Rmult_lt_0_compat; [lra|]. apply Rinv_0_lt_compat. lra. }
  nra.
Qed.

(** A one-document catalog and a one-term query that reaches the
    formatting of the document's record. *)
Lemma single_document_format (cat : catalog) (query t id : string) (x y : R)
    (d : dict R) (top_k : Z) :
  tf_vectors (AIRecommender cat) = [(id, d)] ->
  _vectorize_query (AIRecommender cat) query = [(t, x)] ->
  (0 < x)%R -> (0 < y)%R -> dict_get d t = Some y ->
  (sum_sq (dict_values d) < 400 * (y * y))%R ->
  (1 <= top_k)%Z ->
  recommend (AIRecommender cat) query top_k
  = format_all cat [(id, cosine [(t, x)] (norm [(t, x)]) d (norm d))].
Proof.
  intros Hv Hq Hx Hy Hget HS Hk.
  assert (Hs := single_term_cosine t x y d Hx Hy Hget HS).
  rewrite recommend_unfold, Hq, norm_singleton by lra.
  destruct (Req_dec_T x 0) as [E|_]; [lra|].
  unfold ranked, similarities. rewrite Hv, Hq.
  cbn [map fst snd sort_desc fold_right insert_desc].
  rewrite (norm_singleton t x) in * by lra.
  set (s := cosine _ _ _ _) in *.
  rewrite slice_to_nonneg by lia.
  destruct (Z.to_nat top_k) as [|n] eqn:En; [lia|].
  cbn [firstn filter]. rewrite firstn_nil.
  unfold relevant, threshold. cbn [snd].
  destruct (Rlt_dec 0.05 s) as [_|N]; [reflexivity | contradiction].
Qed.

Lemma coral_index :
  tf_vectors (AIRecommender coral_catalog) = [("coral", coral_vector)]
  /\ _vectorize_query (AIRecommender coral_catalog) "coral" = coral_query.
Proof. split; index_eval; reflexivity. Qed.

Lemma reef_index :
  tf_vectors (AIRecommender reef_catalog) = [("reef", reef_vector)]
  /\ _vectorize_query (AIRecommender reef_catalog) "coral" = coral_query.
Proof. split; index_eval; reflexivity. Qed.

(** C2, the failing inputs. The corpus builder reads the absent
    description of the coral destination as the empty string and the
    absent tags of the reef destination as no tags, but [recommend] raises
    [KeyError] when it formats the record of either, and so does
    [get_suggestions] for the coral destination. *)
Lemma missing_field_raises :
  corpus (AIRecommender coral_catalog) = ["Coral Beach Coral Beach beach beach "]
  /\ recommend (AIRecommender coral_catalog) "coral" 3
     = Raise (KeyError "description")
  /\ get_suggestions (AIRecommender coral_catalog) "beach"
     = Raise (KeyError "description")
  /\ corpus (AIRecommender reef_catalog) = ["Coral Reef Coral Reef reef"]
  /\ recommend (AIRecommender reef_catalog) "coral" 3 = Raise (KeyError "type").
Proof.
  pose proof single_idf_pos as Hw.
  split; [reflexivity|]. split; [|split; [reflexivity|split; [reflexivity|]]].
  - destruct coral_index as [Hv Hq].
    rewrite (single_document_format coral_catalog "coral" "coral" "coral"
               (INR 1 / INR 1 * single_idf) (INR 2 / INR 6 * single_idf)
               coral_vector 3 Hv Hq).
    + reflexivity.
    + inr_to_izr. lra.
    + inr_to_izr. lra.
    + reflexivity.
    + unfold coral_vector, sum_sq. simpl. inr_to_izr. nra.
    + lia.
  - destruct reef_index as [Hv Hq].
    rewrite (single_document_format reef_catalog "coral" "coral" "reef"
               (INR 1 / INR 1 * single_idf) (INR 2 / INR 5 * single_idf)
               reef_vector 3 Hv Hq).
    + reflexivity.
    + inr_to_izr. lra.
    + inr_to_izr. lra.
    + reflexivity.
    + unfold reef_vector, sum_sq. simpl. inr_to_izr. nra.
    + lia.
Qed.

(** *** The knowledge-base catalog *)

Lemma get_suggestions_spec_witness :
  exists results,
    get_suggestions (AIRecommender DESTINATIONS) "spiritual" = Ok results
    /\ map res_id results = ["manali"; "rishikesh"]
    /\ Forall (fun r => match_score r = PyInt 90) results.
Proof.
  destruct (get_suggestions_spec DESTINATIONS "spiritual")
    as (results & H1 & _ & H3 & _ & H5 & _).
  - repeat constructor; discriminate.
  - exists results. split; [exact H1|]. split; [exact H3 | exact H5].
Defined.

Lemma recommend_no_signal_witness :
  norm (_vectorize_query (AIRecommender DESTINATIONS) "zzxxqq wwvvrr") = 0%R
  /\ recommend (AIRecommender DESTINATIONS) "zzxxqq wwvvrr" 3 = Ok [].
Proof.
  apply (recommend_no_signal DESTINATIONS "zzxxqq wwvvrr" 3).
  right. right. right.
  repeat constructor; index_eval; reflexivity.
Defined.

Lemma recommend_refines_spec_witness :
  recommend (AIRecommender DESTINATIONS) "yoga by the river" 3
  = recommend_spec (AIRecommender DESTINATIONS) "yoga by the river" 3
  /\ (forall rs, recommend (AIRecommender DESTINATIONS) "yoga by the river" 3 = Ok rs ->
      (Z.of_nat (length rs) <= 3)%Z)
  /\ (Forall (fun item => complete (snd item)) DESTINATIONS ->
      exists rs, recommend (AIRecommender DESTINATIONS) "yoga by the river" 3 = Ok rs).
Proof.
  apply (recommend_refines_spec DESTINATIONS "yoga by the river" 3). lia.
Defined.


(** *** The twin catalog: two documents of equal similarity *)

Lemma twin_idf_pos : (0 < twin_idf)%R.
Proof.
  unfold twin_idf. inr_to_izr. rewrite <- ln_1. apply ln_increasing; lra.
Qed.

Lemma twin_index :
  tf_vectors (AIRecommender twin_catalog)
  = [("north", beach_vector); ("south", beach_vector)]
  /\ _vectorize_query (AIRecommender twin_catalog) "beach" = twin_query.
Proof. split; index_eval; reflexivity. Qed.

Lemma twin_norms : norm twin_query = twin_idf /\ norm beach_vector = twin_idf.
Proof.
  pose proof twin_idf_pos as Hw.
  unfold twin_query, beach_vector. split.
  - rewrite norm_singleton; inr_to_izr; [field | lra].
  - rewrite norm_singleton; inr_to_izr; [field | lra].
Qed.

Lemma twin_cosine :
  cosine twin_query (norm twin_query) beach_vector (norm beach_vector) = 1%R.
Proof.
  pose proof twin_idf_pos as Hw. destruct twin_norms as [-> ->].
  unfold cosine. destruct (Rlt_dec 0 twin_idf) as [_|]; [|contradiction].
  unfold dot_product, twin_query, beach_vector. simpl. inr_to_izr. field. lra.
Qed.

Lemma round1_hundred : round1 (1 * 100) = 100%R.
Proof.
  unfold round1. rewrite (round_half_even_low _ 1000) by lra. lra.
Qed.

(** Both twins reach similarity 1; the one inserted first is returned
    first. *)
Lemma twin_recommend :
  exists rs,
    recommend (AIRecommender twin_catalog) "beach" 3 = Ok rs
    /\ map res_id rs = ["north"; "south"]
    /\ map match_score rs = [PyFloat 100; PyFloat 100].
Proof.
  rewrite recommend_unfold. destruct twin_index as [Hv Hq].
  rewrite Hq. destruct twin_norms as [Hn _]. rewrite Hn.
  destruct (Req_dec_T twin_idf 0) as [E|_]; [pose proof twin_idf_pos; lra|].
  unfold ranked, similarities. rewrite Hv, Hq.
  cbn [map fst snd]. rewrite twin_cosine.
  cbn [sort_desc fold_right insert_desc snd].
  destruct (Rlt_dec 1 1) as [F|_]; [lra|].
  replace (slice_to [("north", 1%R); ("south", 1%R)] 3)
    with [("north", 1%R); ("south", 1%R)] by reflexivity.
  cbn [filter]. unfold relevant, threshold. cbn [snd].
  destruct (Rlt_dec 0.05 1) as [_|N]; [|lra].
  cbn -[round1 Rmult]. rewrite round1_hundred.
  eexists. split; [reflexivity|]. split; reflexivity.
Qed.

Lemma twin_keys : NoDup (dict_keys twin_catalog).
Proof. repeat constructor; simpl; intuition discriminate. Qed.

(* ------------------------------------------------------------------ *)
(** * Further properties *)

(** ** Tokens of joined texts *)

Lemma lower_app (a b : string) :
  Str.lower (a ++ b)%string = (Str.lower a ++ Str.lower b)%string.
Proof. induction a as [|c a IH]; simpl; [reflexivity | now rewrite IH]. Qed.

Lemma re_sub_strip_app (a b : string) :
  Str.re_sub_strip (a ++ b)%string
  = (Str.re_sub_strip a ++ Str.re_sub_strip b)%string.
Proof.
  induction a as [|c a IH]; simpl; [reflexivity|].
  destruct (Str.in_class c); simpl; now rewrite IH.
Qed.

Lemma split_from_space (a b word : string) (c : ascii) :
  Str.is_space c = true ->
  Str.split_from word (a ++ String c b)%string
  = Str.split_from word a ++ Str.split b.
Proof.
  intros Hc. revert word. induction a as [|x a IH]; intros word; simpl.
  - now rewrite Hc.
  - destruct (Str.is_space x); [|apply IH].
    rewrite IH, app_assoc. reflexivity.
Qed.

Lemma tokenize_nil : _tokenize "" = [].
Proof. reflexivity. Qed.

Lemma tokenize_space (a b : string) :
  _tokenize (a ++ " " ++ b)%string = _tokenize a ++ _tokenize b.
Proof.
  unfold _tokenize.
  replace (Str.re_sub_strip (Str.lower (a ++ " " ++ b)))
    with (Str.re_sub_strip (Str.lower a)
          ++ String " " (Str.re_sub_strip (Str.lower b)))%string
    by (rewrite lower_app, re_sub_strip_app; reflexivity).
  unfold Str.split at 1. rewrite split_from_space by reflexivity.
  now rewrite filter_app.
Qed.

Lemma tokenize_join (parts : list string) :
  _tokenize (Str.join " " parts) = flat_map _tokenize parts.
Proof.
  induction parts as [|x parts IH]; [reflexivity|].
  destruct parts as [|y parts].
  - simpl. now rewrite app_nil_r.
  - change (Str.join " " (x :: y :: parts))
      with (x ++ " " ++ Str.join " " (y :: parts))%string.
    rewrite tokenize_space, IH. reflexivity.
Qed.

Lemma flat_map_tokenize_app (l1 l2 : list string) :
  flat_map _tokenize (l1 ++ l2) = flat_map _tokenize l1 ++ flat_map _tokenize l2.
Proof. apply flat_map_app. Qed.

Lemma document_tokens (data : entry) :
  _tokenize (weighted_text data)
  = _tokenize (name data) ++ _tokenize (name data)
    ++ flat_map _tokenize (tags_of data) ++ flat_map _tokenize (tags_of data)
    ++ flat_map _tokenize (features_of data)
    ++ _tokenize (description_of data).
Proof.
  unfold weighted_text. rewrite tokenize_join.
  rewrite !flat_map_app. simpl. rewrite !app_nil_r, <- !app_assoc. reflexivity.
Qed.
(** ** Tokens are fixed points of the tokenizer *)

Lemma lower_char_idempotent (c : ascii) :
  Str.lower_char (Str.lower_char c) = Str.lower_char c.
Proof. destruct c as [[] [] [] [] [] [] [] []]; reflexivity. Qed.

Lemma lower_idempotent (s : string) : Str.lower (Str.lower s) = Str.lower s.
Proof.
  induction s as [|c s IH]; simpl; [reflexivity|].
  now rewrite lower_char_idempotent, IH.
Qed.

Lemma token_char_lower (c : ascii) :
  token_char c = true -> Str.lower_char c = c.
Proof. destruct c as [[] [] [] [] [] [] [] []]; (reflexivity || discriminate). Qed.

Lemma token_char_class (c : ascii) :
  token_char c = true -> Str.in_class c = true /\ Str.is_space c = false.
Proof.
  destruct c as [[] [] [] [] [] [] [] []]; (discriminate || (split; reflexivity)).
Qed.

Lemma token_lower (w : string) :
  Str.all_chars token_char w = true -> Str.lower w = w.
Proof.
  induction w as [|c w IH]; simpl; [reflexivity|].
  intros H. apply andb_true_iff in H as [Hc Hw].
  now rewrite (token_char_lower c Hc), IH.
Qed.

Lemma token_strip (w : string) :
  Str.all_chars token_char w = true -> Str.re_sub_strip w = w.
Proof.
  induction w as [|c w IH]; simpl; [reflexivity|].
  intros H. apply andb_true_iff in H as [Hc Hw].
  destruct (token_char_class c Hc) as [-> _]. now rewrite IH.
Qed.

Lemma token_split_from (w word : string) :
  Str.all_chars token_char w = true ->
  Str.split_from word w = Str.flush (word ++ w)%string.
Proof.
  revert word. induction w as [|c w IH]; intros word; simpl.
  - intros _. f_equal. clear. induction word as [|x word IH]; simpl; congruence.
  - intros H. apply andb_true_iff in H as [Hc Hw].
    destruct (token_char_class c Hc) as [_ ->]. rewrite IH by exact Hw.
    f_equal. clear. induction word as [|x word IH]; simpl; congruence.
Qed.

Lemma tokenize_token (w : string) :
  w <> EmptyString -> Str.all_chars token_char w = true ->
  Str.mem w stop_words = false ->
  _tokenize w = [w].
Proof.
  intros Hne Hc Hs. unfold _tokenize.
  rewrite (token_lower w Hc), (token_strip w Hc).
  unfold Str.split. rewrite token_split_from by exact Hc.
  change (EmptyString ++ w)%string with w.
  destruct w as [|c w]; [congruence|].
  cbn [Str.flush filter]. now rewrite Hs.
Qed.

Lemma tokenize_tokens (tokens : list string) :
  Forall (fun w => w <> EmptyString /\ Str.all_chars token_char w = true
                   /\ Str.mem w stop_words = false) tokens ->
  flat_map _tokenize tokens = tokens.
Proof.
  induction 1 as [|w ws (Hne & Hc & Hs) _ IH]; [reflexivity|].
  cbn [flat_map]. rewrite (tokenize_token w Hne Hc Hs), IH. reflexivity.
Qed.

Lemma tokenize_wf (text : string) :
  Forall (fun w => w <> EmptyString /\ Str.all_chars token_char w = true
                   /\ Str.mem w stop_words = false) (_tokenize text).
Proof.
  assert (H := tokenize_token_chars text).
  rewrite Forall_forall in *. intros w Hw. destruct (H w Hw) as [Hne Hc].
  repeat split; try assumption.
  unfold _tokenize in Hw. apply filter_In in Hw as [_ Hw].
  now apply negb_true_iff in Hw.
Qed.
(** ** Closed forms of the vectors *)

Lemma fold_left_ext_eq {A B : Type} (f g : A -> B -> A) (l : list B) (a : A) :
  (forall x y, f x y = g x y) -> fold_left f l a = fold_left g l a.
Proof.
  intros H. revert a. induction l as [|y l IH]; intros a; simpl; [reflexivity|].
  now rewrite H, IH.
Qed.

Lemma fold_dict_set_fresh {A V : Type} (g : string -> A -> option V)
    (l : list (string * A)) (vec0 : dict V) :
  NoDup (dict_keys vec0 ++ map fst l) ->
  fold_left
    (fun vec kv =>
       match g (fst kv) (snd kv) with
       | Some v => dict_set vec (fst kv) v
       | None => vec
       end) l vec0
  = vec0
    ++ flat_map
         (fun kv =>
            match g (fst kv) (snd kv) with
            | Some v => [(fst kv, v)]
            | None => []
            end) l.
Proof.
  revert vec0. induction l as [|[t a] l IH]; intros vec0 Hnd; simpl.
  - now rewrite app_nil_r.
  - simpl in Hnd.
    assert (Hfresh : ~ In t (dict_keys vec0)).
    { apply NoDup_remove_2 in Hnd. intros H. apply Hnd, in_or_app. now left. }
    destruct (g t a) as [v|].
    + rewrite IH.
      * rewrite dict_set_fresh by exact Hfresh. now rewrite <- app_assoc.
      * rewrite dict_set_fresh by exact Hfresh.
        unfold dict_keys in *. rewrite map_app, <- app_assoc. exact Hnd.
    + apply IH. now apply NoDup_remove_1 in Hnd.
Qed.

Lemma Counter_nodup (tokens : list string) : NoDup (dict_keys (Counter tokens)).
Proof. apply counter_update_nodup. constructor. Qed.

Lemma Counter_keys (tokens : list string) (t : string) :
  In t (dict_keys (Counter tokens)) <-> In t tokens.
Proof.
  unfold Counter. rewrite counter_update_keys. simpl. tauto.
Qed.

Lemma Counter_positive (tokens : list string) :
  Forall (fun kv => 0 < snd kv) (Counter tokens).
Proof. apply counter_update_positive. constructor. Qed.

Lemma Counter_count (tokens : list string) (t : string) :
  dict_get_default (Counter tokens) t 0 = count_occ string_dec tokens t.
Proof. unfold Counter. now rewrite counter_update_get. Qed.

Lemma document_vector_map (table : dict R) (tokens : list string) :
  document_vector table tokens
  = map (fun kv =>
           (fst kv,
            (INR (snd kv) / INR (total_terms tokens)
             * dict_get_default table (fst kv) 0)%R))
        (Counter tokens).
Proof.
  unfold document_vector.
  pose (g := fun (t : string) (c : nat) =>
               Some (INR c / INR (total_terms tokens)
                     * dict_get_default table t 0)%R).
  rewrite (fold_left_ext_eq _
    (fun vec kv =>
       match g (fst kv) (snd kv) with
       | Some v => dict_set vec (fst kv) v
       | None => vec
       end)) by (intros vec [t c]; reflexivity).
  rewrite (fold_dict_set_fresh g) by (simpl; apply Counter_nodup).
  simpl. unfold g. induction (Counter tokens) as [|[t c] l IH]; simpl; [reflexivity|].
  now rewrite IH.
Qed.

Lemma vectorize_query_map (self : recommender) (query : string) :
  _vectorize_query self query
  = flat_map
      (fun kv =>
         match dict_get (idf self) (fst kv) with
         | Some w =>
             [(fst kv, (INR (snd kv) / INR (total_terms (_tokenize query)) * w)%R)]
         | None => []
         end)
      (Counter (_tokenize query)).
Proof.
  unfold _vectorize_query.
  pose (g := fun (t : string) (c : nat) =>
               match dict_get (idf self) t with
               | Some w => Some (INR c / INR (total_terms (_tokenize query)) * w)%R
               | None => None
               end).
  rewrite (fold_left_ext_eq _
    (fun vec kv =>
       match g (fst kv) (snd kv) with
       | Some v => dict_set vec (fst kv) v
       | None => vec
       end)).
  - rewrite (fold_dict_set_fresh g) by (simpl; apply Counter_nodup).
    simpl. apply flat_map_ext. intros [t c]. unfold g. simpl.
    now destruct (dict_get (idf self) t).
  - intros vec [t c]. unfold g. simpl. now destruct (dict_get (idf self) t).
Qed.

Lemma total_terms_pos (tokens : list string) : 0 < total_terms tokens.
Proof. destruct tokens; simpl; lia. Qed.

Lemma sum_sq_pos (xs : list R) :
  xs <> [] -> Forall (fun x => (0 < x)%R) xs -> (0 < sum_sq xs)%R.
Proof.
  intros Hne H. destruct xs as [|x xs]; [congruence|].
  inversion H as [|? ? Hx Hxs]; subst.
  rewrite sum_sq_cons. pose proof (sum_sq_nonneg xs). nra.
Qed.

Lemma norm_pos (vec : dict R) :
  vec <> [] -> Forall (fun kv => (0 < snd kv)%R) vec -> (0 < norm vec)%R.
Proof.
  intros Hne H. unfold norm. apply sqrt_lt_R0, sum_sq_pos.
  - destruct vec; [congruence | discriminate].
  - unfold dict_values. now apply Forall_map.
Qed.
(** ** Weights of the idf table *)

Lemma idf_lookup (cat : catalog) (t : string) :
  let r := AIRecommender cat in
  let df := docs_containing (corpus r) t in
  dict_get (idf r) t
  = if df =? 0 then None
    else Some (ln (1 + INR (length cat) / INR (df + 1)))%R.
Proof.
  cbv zeta. destruct (AIRecommender_fields cat) as (_ & _ & _ & Hi).
  cbv zeta in Hi. rewrite Hi at 1.
  rewrite compute_idf_get, document_frequency_get.
  now destruct (docs_containing (corpus (AIRecommender cat)) t =? 0).
Qed.

Lemma docs_containing_le (docs : list string) (t : string) :
  docs_containing docs t <= length docs.
Proof. unfold docs_containing. apply filter_length_le. Qed.

Lemma corpus_length (cat : catalog) : length (corpus (AIRecommender cat)) = length cat.
Proof.
  destruct (AIRecommender_fields cat) as (_ & Hc & _). rewrite Hc. apply length_map.
Qed.

Lemma idf_formula_bounds (N df : nat) :
  1 <= df <= N ->
  (ln (3 / 2) <= ln (1 + INR N / INR (df + 1)) <= ln (1 + INR N / 2))%R.
Proof.
  intros [H1 H2].
  assert (Hdf : (1 <= INR df)%R) by (change 1%R with (INR 1); now apply le_INR).
  assert (HN : (INR df <= INR N)%R) by now apply le_INR.
  rewrite plus_INR. change (INR 1) with 1%R.
  assert (Hlo : (1 / 2 <= INR N / (INR df + 1))%R).
  { apply (Rmult_le_reg_r (INR df + 1)); [lra|].
    unfold Rdiv at 2. rewrite Rmult_assoc, Rinv_l by lra. lra. }
  assert (Hhi : (INR N / (INR df + 1) <= INR N / 2)%R).
  { unfold Rdiv. apply Rmult_le_compat_l; [lra|].
    apply Rinv_le_contravar; lra. }
  split.
  - destruct (Req_dec_T (3 / 2) (1 + INR N / (INR df + 1))) as [<-|Hne]; [lra|].
    left. apply ln_increasing; lra.
  - destruct (Req_dec_T (1 + INR N / (INR df + 1)) (1 + INR N / 2)) as [->|Hne]; [lra|].
    left. apply ln_increasing; lra.
Qed.

Lemma idf_formula_antitone (N df1 df2 : nat) :
  0 < N -> df1 < df2 ->
  (ln (1 + INR N / INR (df2 + 1)) < ln (1 + INR N / INR (df1 + 1)))%R.
Proof.
  intros HN Hdf.
  assert (H0 : (0 < INR N)%R) by now apply lt_0_INR.
  assert (H1 : (0 < INR (df1 + 1))%R) by (apply lt_0_INR; lia).
  assert (H2 : (INR (df1 + 1) < INR (df2 + 1))%R) by (apply lt_INR; lia).
  assert (H3 : (0 < / INR (df2 + 1))%R) by (apply Rinv_0_lt_compat; lra).
  assert (Hlt : (INR N / INR (df2 + 1) < INR N / INR (df1 + 1))%R).
  { unfold Rdiv. apply Rmult_lt_compat_l; [exact H0|].
    apply Rinv_lt_contravar; [|exact H2]. now apply Rmult_lt_0_compat; lra. }
  apply ln_increasing; [|lra].
  assert (0 < INR N / INR (df2 + 1))%R by (unfold Rdiv; now apply Rmult_lt_0_compat).
  lra.
Qed.

Lemma ln_three_halves_pos : (0 < ln (3 / 2))%R.
Proof. rewrite <- ln_1. apply ln_increasing; lra. Qed.

Lemma idf_entry (cat : catalog) (t : string) (w : R) :
  let r := AIRecommender cat in
  dict_get (idf r) t = Some w ->
  let df := docs_containing (corpus r) t in
  1 <= df <= length cat
  /\ w = ln (1 + INR (length cat) / INR (df + 1))%R.
Proof.
  cbv zeta. rewrite idf_lookup.
  assert (Hle := docs_containing_le (corpus (AIRecommender cat)) t).
  rewrite corpus_length in Hle.
  destruct (Nat.eqb_spec (docs_containing (corpus (AIRecommender cat)) t) 0);
    [discriminate|].
  intros [= <-]. split; [lia | reflexivity].
Qed.

Lemma idf_entries_bounds (cat : catalog) :
  Forall (fun kv => (ln (3 / 2) <= snd kv <= ln (1 + INR (length cat) / 2))%R)
         (idf (AIRecommender cat)).
Proof.
  apply Forall_forall. intros [t w] Hin.
  assert (Hnd : NoDup (dict_keys (idf (AIRecommender cat)))).
  { destruct (AIRecommender_fields cat) as (_ & _ & _ & Hi). cbv zeta in Hi.
    rewrite Hi, compute_idf_keys. unfold document_frequency.
    now destruct (df_fold_wf (corpus (AIRecommender cat)) [] (NoDup_nil _) (Forall_nil _)). }
  apply (dict_get_unique _ _ _ Hnd) in Hin.
  apply idf_entry in Hin as [Hdf ->]. simpl. now apply idf_formula_bounds.
Qed.

(** Every token of a document of the catalog has a weight in the table. *)
Lemma document_token_weight (cat : catalog) (item : string * entry) (t : string) :
  In item cat -> In t (_tokenize (weighted_text (snd item))) ->
  exists w, dict_get (idf (AIRecommender cat)) t = Some w /\ (0 < w)%R.
Proof.
  intros Hitem Ht.
  assert (Hdf : (docs_containing (corpus (AIRecommender cat)) t =? 0) = false).
  { apply docs_containing_pos. exists (weighted_text (snd item)). split; [|exact Ht].
    destruct (AIRecommender_fields cat) as (_ & -> & _).
    apply in_map_iff. now exists item. }
  assert (Hl := idf_lookup cat t). cbv zeta in Hl. rewrite Hdf in Hl.
  eexists. split; [exact Hl|].
  assert (Hb := idf_entries_bounds cat). rewrite Forall_forall in Hb.
  apply dict_get_In in Hl. specialize (Hb _ Hl). simpl in Hb.
  pose proof ln_three_halves_pos. lra.
Qed.
(** ** Entries of the document vectors and of the query vector *)

Lemma document_vector_keys (table : dict R) (tokens : list string) :
  dict_keys (document_vector table tokens) = dict_keys (Counter tokens).
Proof.
  rewrite document_vector_map. unfold dict_keys. rewrite map_map. reflexivity.
Qed.

Lemma tf_pos (count total : nat) : 0 < count -> 0 < total -> (0 < INR count / INR total)%R.
Proof.
  intros Hc Ht. apply Rmult_lt_0_compat; [now apply lt_0_INR|].
  apply Rinv_0_lt_compat. now apply lt_0_INR.
Qed.

Lemma catalog_vector_positive (cat : catalog) (item : string * entry) :
  In item cat ->
  Forall (fun kv => (0 < snd kv)%R) (vector_of (idf (AIRecommender cat)) (snd item)).
Proof.
  intros Hitem. unfold vector_of. rewrite document_vector_map.
  apply Forall_forall. intros kv Hkv. apply in_map_iff in Hkv as [[t c] [<- Hin]].
  simpl.
  assert (Hc : 0 < c).
  { assert (H := Counter_positive (_tokenize (weighted_text (snd item)))).
    rewrite Forall_forall in H. exact (H _ Hin). }
  assert (Ht : In t (_tokenize (weighted_text (snd item)))).
  { apply Counter_keys. change t with (fst (t, c)). now apply in_map. }
  destruct (document_token_weight cat item t Hitem Ht) as (w & Hw & Hpos).
  unfold dict_get_default. rewrite Hw.
  apply Rmult_lt_0_compat; [|exact Hpos].
  apply tf_pos; [exact Hc | apply total_terms_pos].
Qed.

Lemma vectorize_query_keys (self : recommender) (query : string) (t : string) :
  In t (dict_keys (_vectorize_query self query))
  <-> In t (_tokenize query) /\ dict_get (idf self) t <> None.
Proof.
  rewrite vectorize_query_map. unfold dict_keys. rewrite in_map_iff. split.
  - intros [[t' x] [<- Hin]]. apply in_flat_map in Hin as [[t c] [Hc Hin]].
    simpl in *. destruct (dict_get (idf self) t) as [w|] eqn:E; [|contradiction].
    destruct Hin as [[= <- <-]|[]]. split; [|congruence].
    apply Counter_keys. change t with (fst (t, c)). now apply in_map.
  - intros [Ht Hw]. apply Counter_keys in Ht.
    apply in_map_iff in Ht as [[t' c] [<- Hin]]. simpl in *.
    destruct (dict_get (idf self) t') as [w|] eqn:E; [|congruence].
    eexists (t', _). split; [reflexivity|].
    apply in_flat_map. exists (t', c). split; [exact Hin|]. simpl. rewrite E.
    now left.
Qed.

Lemma vectorize_query_positive (cat : catalog) (query : string) :
  Forall (fun kv => (0 < snd kv)%R) (_vectorize_query (AIRecommender cat) query).
Proof.
  rewrite vectorize_query_map. apply Forall_forall. intros [t x] Hin.
  apply in_flat_map in Hin as [[t' c] [Hc Hin]]. simpl in *.
  destruct (dict_get (idf (AIRecommender cat)) t') as [w|] eqn:E; [|contradiction].
  destruct Hin as [[= <- <-]|[]].
  assert (Hcp : 0 < c).
  { assert (H := Counter_positive (_tokenize query)).
    rewrite Forall_forall in H. exact (H _ Hc). }
  apply Rmult_lt_0_compat; [apply tf_pos; [exact Hcp | apply total_terms_pos]|].
  assert (Hb := idf_entries_bounds cat). rewrite Forall_forall in Hb.
  apply dict_get_In in E. specialize (Hb _ E). simpl in Hb.
  pose proof ln_three_halves_pos. lra.
Qed.

Lemma norm_zero_nil (vec : dict R) :
  Forall (fun kv => (0 < snd kv)%R) vec -> (norm vec = 0%R <-> vec = []).
Proof.
  intros Hpos. split.
  - intros Hn. destruct vec as [|kv vec]; [reflexivity|].
    assert (H := norm_pos (kv :: vec)). rewrite Hn in H.
    exfalso. apply (Rlt_irrefl 0). apply H; [discriminate | exact Hpos].
  - intros ->. apply norm_nil.
Qed.
(** ** Further properties of the tokenizer *)

(** X1. The tokens of parts joined by single spaces are the tokens of the
    parts, in order: joining neither merges two tokens nor splits
    one. *)
Theorem tokens_of_joined_text (parts : list string) :
  _tokenize (Str.join " " parts) = flat_map _tokenize parts
  /\ forall a b : string,
       _tokenize (a ++ " " ++ b)%string = _tokenize a ++ _tokenize b.
Proof. split; [apply tokenize_join | apply tokenize_space]. Qed.

(** X2. In the document of a destination a term counts twice for each
    occurrence in the name, twice for each occurrence in a category tag,
    once for each occurrence in a sustainability feature and once for
    each occurrence in the description; this is the count the indexer's
    counter holds, and the document has as many tokens as these parts
    together. *)
Theorem document_term_counts (data : entry) (term : string) :
  let tokens := _tokenize (weighted_text data) in
  let weighted :=
    2 * term_count term (name data)
    + 2 * terms_count term (tags_of data)
    + terms_count term (features_of data)
    + term_count term (description_of data) in
  count_occ string_dec tokens term = weighted
  /\ dict_get_default (Counter tokens) term 0 = weighted
  /\ length tokens
     = 2 * length (_tokenize (name data))
       + 2 * length (flat_map _tokenize (tags_of data))
       + length (flat_map _tokenize (features_of data))
       + length (_tokenize (description_of data)).
Proof.
  cbv zeta. rewrite Counter_count, document_tokens.
  unfold term_count, terms_count.
  rewrite !count_occ_app, !length_app. repeat split; lia.
Qed.

(** X3. Tokenizing is stable: the tokens of a text, joined by spaces and
    tokenized again, are the same tokens. *)
Theorem tokenize_round_trip (text : string) :
  _tokenize (Str.join " " (_tokenize text)) = _tokenize text.
Proof.
  rewrite tokenize_join. apply tokenize_tokens, tokenize_wf.
Qed.

(** X4. Two queries that differ only in the case of their letters have the
    same tokens and the same query vector, and [recommend] answers them
    alike. *)
Theorem recommend_case_insensitive (self : recommender) (q1 q2 : string) (top_k : Z) :
  Str.lower q1 = Str.lower q2 ->
  _tokenize q1 = _tokenize q2
  /\ _vectorize_query self q1 = _vectorize_query self q2
  /\ recommend self q1 top_k = recommend self q2 top_k.
Proof.
  intros H.
  assert (Ht : _tokenize q1 = _tokenize q2) by (unfold _tokenize; now rewrite H).
  assert (Hv : _vectorize_query self q1 = _vectorize_query self q2)
    by (unfold _vectorize_query; now rewrite Ht).
  repeat split; try assumption.
  unfold recommend. now rewrite Hv.
Qed.

Lemma recommend_case_insensitive_witness :
  _tokenize "YOGA by the River" = _tokenize "yoga BY THE river"
  /\ _vectorize_query (AIRecommender DESTINATIONS) "YOGA by the River"
     = _vectorize_query (AIRecommender DESTINATIONS) "yoga BY THE river"
  /\ recommend (AIRecommender DESTINATIONS) "YOGA by the River" 3
     = recommend (AIRecommender DESTINATIONS) "yoga BY THE river" 3.
Proof.
  apply (recommend_case_insensitive (AIRecommender DESTINATIONS)
           "YOGA by the River" "yoga BY THE river" 3).
  reflexivity.
Defined.

(** ** Further properties of the index *)

(** X5. Every weight of the idf table lies between [ln(3/2)] and
    [ln(1 + N/2)], so it is positive even for a term of every document;
    of two terms of the table the one in fewer documents has the strictly
    larger weight, and terms in equally many documents have the same
    weight. *)
Theorem idf_weights_ordered (cat : catalog) :
  let r := AIRecommender cat in
  Forall (fun kv => (ln (3 / 2) <= snd kv <= ln (1 + INR (length cat) / 2))%R)
         (idf r)
  /\ forall t1 t2 w1 w2,
       dict_get (idf r) t1 = Some w1 -> dict_get (idf r) t2 = Some w2 ->
       (docs_containing (corpus r) t1 < docs_containing (corpus r) t2 ->
        (w2 < w1)%R)
       /\ (docs_containing (corpus r) t1 = docs_containing (corpus r) t2 ->
           w1 = w2).
Proof.
  intros r. split; [apply idf_entries_bounds|].
  intros t1 t2 w1 w2 H1 H2.
  apply idf_entry in H1 as [Hd1 ->]. apply idf_entry in H2 as [Hd2 ->].
  unfold r. cbv zeta in *. split.
  - intros Hlt. apply idf_formula_antitone; lia.
  - intros ->. reflexivity.
Qed.

Lemma idf_weights_ordered_witness :
  exists w1 w2,
    dict_get (idf (AIRecommender DESTINATIONS)) "yoga" = Some w1
    /\ dict_get (idf (AIRecommender DESTINATIONS)) "nature" = Some w2
    /\ (w2 < w1)%R.
Proof.
  destruct (idf_weights_ordered DESTINATIONS) as [_ H].
  eexists _, _. split; [index_eval; reflexivity|].
  split; [index_eval; reflexivity|].
  refine (proj1 (H "yoga" "nature" _ _ _ _) _).
  - index_eval; reflexivity.
  - index_eval; reflexivity.
  - vm_compute. lia.
Defined.

(** X6. With distinct catalog keys the index holds exactly one vector and
    one norm per destination, under the catalog's keys and in the
    catalog's order; the lookups [tf_vectors[id]], [doc_norms[id]] and
    [destinations[id]] succeed for every catalog key, and the stored norm
    is the norm of the stored vector. *)
Theorem index_complete (cat : catalog) :
  NoDup (dict_keys cat) ->
  let r := AIRecommender cat in
  dict_keys (tf_vectors r) = dict_keys cat
  /\ dict_keys (doc_norms r) = dict_keys cat
  /\ Forall (fun item =>
       dict_index (tf_vectors r) (fst item) = Ok (vector_of (idf r) (snd item))
       /\ dict_index (doc_norms r) (fst item)
          = Ok (norm (vector_of (idf r) (snd item)))
       /\ dict_index (destinations r) (fst item) = Ok (snd item)) cat.
Proof.
  intros Hnd r.
  assert (Hv := tf_vectors_catalog cat Hnd). fold r in Hv.
  destruct (index_invariant cat) as (Hn & Hvnd & _). cbv zeta in Hn, Hvnd.
  fold r in Hn, Hvnd.
  assert (Hk : dict_keys (tf_vectors r) = dict_keys cat).
  { rewrite Hv. unfold dict_keys. rewrite map_map. reflexivity. }
  split; [exact Hk|]. split.
  - rewrite Hn. unfold dict_keys in *. rewrite map_map. exact Hk.
  - apply Forall_forall. intros [id e] Hin. simpl.
    assert (Hget : dict_get (tf_vectors r) id = Some (vector_of (idf r) e)).
    { apply dict_get_unique; [exact Hvnd|]. rewrite Hv.
      apply in_map_iff. now exists (id, e). }
    unfold dict_index. rewrite Hget, Hn, dict_get_map, Hget. simpl.
    repeat split.
    destruct (AIRecommender_fields cat) as (Hd & _). fold r in Hd. rewrite Hd.
    now rewrite (dict_get_unique _ _ _ Hnd Hin).
Qed.

Lemma index_complete_witness :
  dict_keys (tf_vectors (AIRecommender DESTINATIONS))
  = ["manali"; "kerala_backwaters"; "rishikesh"]
  /\ dict_keys (doc_norms (AIRecommender DESTINATIONS))
     = ["manali"; "kerala_backwaters"; "rishikesh"].
Proof.
  destruct (index_complete DESTINATIONS) as (H1 & H2 & _).
  - repeat constructor; simpl; intuition discriminate.
  - split; [exact H1 | exact H2].
Defined.

(** X7. The vector of a destination has one entry for each distinct token
    of its document and for nothing else; every entry is the term's
    frequency in the document times its weight in the idf table and is
    strictly positive; the norm of the vector is zero exactly when the
    document has no token. *)
Theorem document_vector_entries (cat : catalog) :
  let r := AIRecommender cat in
  Forall (fun item =>
    let tokens := _tokenize (weighted_text (snd item)) in
    let vec := vector_of (idf r) (snd item) in
    NoDup (dict_keys vec)
    /\ (forall t, In t (dict_keys vec) <-> In t tokens)
    /\ Forall (fun kv => exists w,
                 dict_get (idf r) (fst kv) = Some w
                 /\ snd kv
                    = (INR (count_occ string_dec tokens (fst kv))
                       / INR (length tokens) * w)%R
                 /\ (0 < snd kv)%R) vec
    /\ (norm vec = 0%R <-> tokens = [])) cat.
Proof.
  intros r. apply Forall_forall. intros item Hitem. cbv zeta.
  assert (Hpos := catalog_vector_positive cat item Hitem). fold r in Hpos.
  unfold vector_of in *.
  split; [rewrite document_vector_keys; apply Counter_nodup|].
  split; [intros t; rewrite document_vector_keys; apply Counter_keys|].
  split.
  - rewrite Forall_forall in Hpos. apply Forall_forall. intros kv Hkv.
    specialize (Hpos _ Hkv).
    rewrite document_vector_map in Hkv.
    apply in_map_iff in Hkv as [[t c] [<- Hin]]. simpl in *.
    assert (Ht : In t (_tokenize (weighted_text (snd item)))).
    { apply Counter_keys. change t with (fst (t, c)). now apply in_map. }
    destruct (document_token_weight cat item t Hitem Ht) as (w & Hw & _).
    fold r in Hw. exists w. split; [exact Hw|]. split; [|exact Hpos].
    unfold dict_get_default. rewrite Hw.
    assert (Hc : c = count_occ string_dec (_tokenize (weighted_text (snd item))) t).
    { rewrite <- Counter_count. unfold dict_get_default.
      now rewrite (dict_get_unique _ _ _ (Counter_nodup _) Hin). }
    rewrite <- Hc.
    destruct (_tokenize (weighted_text (snd item))); [contradiction | reflexivity].
  - rewrite (norm_zero_nil _ Hpos), document_vector_map. split.
    + intros H. apply map_eq_nil in H.
      destruct (_tokenize (weighted_text (snd item))) as [|t ts]; [reflexivity|].
      exfalso. assert (Hk : In t (dict_keys (Counter (t :: ts))))
        by (apply Counter_keys; now left).
      rewrite H in Hk. exact Hk.
    + intros ->. reflexivity.
Qed.

(** X8. The query vector has an entry exactly for the query tokens that
    the idf table knows, each strictly positive; its norm is zero, and
    [recommend] takes the early return, exactly when no token of the query
    is in the table. *)
Theorem query_norm_zero_iff (cat : catalog) (query : string) :
  let r := AIRecommender cat in
  let query_vec := _vectorize_query r query in
  (forall t, In t (dict_keys query_vec)
             <-> In t (_tokenize query) /\ dict_get (idf r) t <> None)
  /\ Forall (fun kv => (0 < snd kv)%R) query_vec
  /\ (norm query_vec = 0%R
      <-> Forall (fun t => dict_get (idf r) t = None) (_tokenize query)).
Proof.
  intros r query_vec.
  split; [apply vectorize_query_keys|].
  assert (Hpos := vectorize_query_positive cat query). fold r query_vec in Hpos.
  split; [exact Hpos|].
  rewrite (norm_zero_nil _ Hpos). split.
  - intros Hnil. apply Forall_forall. intros t Ht.
    destruct (dict_get (idf r) t) as [w|] eqn:E; [|reflexivity].
    exfalso.
    assert (Hk : In t (dict_keys query_vec)).
    { apply vectorize_query_keys. split; [exact Ht | congruence]. }
    rewrite Hnil in Hk. exact Hk.
  - apply vectorize_oov.
Qed.
(** ** Further properties of the query matcher *)

Lemma ranked_nonneg (self : recommender) (query : string) (top_k : Z) :
  (0 <= top_k)%Z ->
  ranked self query top_k
  = firstn (Z.to_nat top_k) (filter relevant (sort_desc (similarities self query))).
Proof.
  intros Hk. unfold ranked. rewrite slice_to_nonneg by exact Hk.
  apply filter_firstn_sorted, sort_desc_sorted.
Qed.

Lemma format_all_firstn (dests : catalog) (l : list (string * R)) (n : nat)
    (rs : list recommendation) :
  format_all dests l = Ok rs ->
  format_all dests (firstn n l) = Ok (firstn n rs).
Proof.
  revert n rs. induction l as [|[dest_id score] l IH]; intros n rs H.
  - simpl in H. injection H as <-. now rewrite !firstn_nil.
  - destruct n as [|n]; [reflexivity|]. simpl in *.
    destruct (dict_index dests dest_id) as [dest|]; simpl in *; [|discriminate].
    destruct (field "type" (type dest)) as [tags|]; simpl in *; [|discriminate].
    destruct (field "eco_score" (eco_score dest)) as [eco|]; simpl in *; [|discriminate].
    destruct (field "description" (description dest)) as [d|]; simpl in *; [|discriminate].
    destruct (format_all dests l) as [results|] eqn:E; simpl in *; [|discriminate].
    injection H as <-. rewrite (IH n results eq_refl). reflexivity.
Qed.

Lemma format_all_raise (dests : catalog) (l : list (string * R)) (e : exn) :
  Forall (fun p => In (fst p) (dict_keys dests)) l ->
  format_all dests l = Raise e ->
  exists id data,
    dict_get dests id = Some data
    /\ ((type data = None /\ e = KeyError "type")
        \/ (type data <> None /\ eco_score data = None /\ e = KeyError "eco_score")
        \/ (type data <> None /\ eco_score data <> None
            /\ description data = None /\ e = KeyError "description")).
Proof.
  induction l as [|[dest_id score] l IH]; simpl; intros Hk H; [discriminate|].
  inversion Hk as [|? ? Hin Hrest]; subst. simpl in Hin.
  destruct (dict_get_keys _ _ Hin) as [dest Hd].
  unfold dict_index in H. rewrite Hd in H. simpl in H.
  destruct (type dest) as [tags|] eqn:Et; simpl in H.
  - destruct (eco_score dest) as [eco|] eqn:Ee; simpl in H.
    + destruct (description dest) as [d|] eqn:Ed; simpl in H.
      * destruct (format_all dests l) as [results|] eqn:E; simpl in H; [discriminate|].
        injection H as <-. now apply IH.
      * injection H as <-. exists dest_id, dest. split; [exact Hd|].
        right. right. rewrite Et, Ee. repeat split; congruence.
    + injection H as <-. exists dest_id, dest. split; [exact Hd|].
      right. left. rewrite Et. repeat split; congruence.
  - injection H as <-. exists dest_id, dest. split; [exact Hd|]. now left.
Qed.

Lemma score_documents_length (norms qv : dict R) (qn : R) (vectors : dict (dict R))
    (scores : list (string * R)) :
  score_documents norms qv qn vectors = Ok scores ->
  length scores = length vectors.
Proof.
  revert scores. induction vectors as [|[id vec] vectors IH]; simpl; intros scores H.
  - now injection H as <-.
  - destruct (dict_index norms id) as [dn|]; simpl in H; [|discriminate].
    destruct (score_documents norms qv qn vectors) as [rest|]; simpl in H;
      [|discriminate].
    injection H as <-. simpl. now rewrite (IH rest eq_refl).
Qed.

Lemma Rsum_nonzero {A : Type} (f : A -> R) (l : list A) :
  Rsum (map f l) <> 0%R -> exists a, In a l /\ f a <> 0%R.
Proof.
  induction l as [|a l IH]; simpl; intros H; [congruence|].
  destruct (Req_dec_T (f a) 0) as [E|E].
  - rewrite E, Rplus_0_l in H. destruct (IH H) as (b & Hb & Hf).
    exists b. split; [now right | exact Hf].
  - exists a. split; [now left | exact E].
Qed.

Lemma dot_product_common (q d : dict R) :
  dot_product q d <> 0%R ->
  exists t, In t (dict_keys q) /\ In t (dict_keys d).
Proof.
  rewrite dot_product_Rsum. intros H.
  apply Rsum_nonzero in H as ([t x] & Hin & Hne). simpl in Hne.
  exists t. split; [change t with (fst (t, x)); now apply in_map|].
  unfold weight_of, dict_get_default in Hne.
  destruct (dict_get d t) as [y|] eqn:E; [|lra].
  apply dict_get_In in E. change t with (fst (t, y)). now apply in_map.
Qed.

Lemma cosine_common (q d : dict R) (qn dn : R) :
  (0 < cosine q qn d dn)%R ->
  exists t, In t (dict_keys q) /\ In t (dict_keys d).
Proof.
  unfold cosine. destruct (Rlt_dec 0 dn); [|lra].
  intros H. apply dot_product_common. intros E. rewrite E in H.
  unfold Rdiv in H. rewrite Rmult_0_l in H. lra.
Qed.

Lemma NoDup_map_filter {A B : Type} (g : A -> B) (f : A -> bool) (l : list A) :
  NoDup (map g l) -> NoDup (map g (filter f l)).
Proof.
  induction l as [|a l IH]; simpl; intros H; [constructor|].
  inversion H as [|? ? Hnot Hnd]; subst.
  destruct (f a); [|now apply IH].
  simpl. constructor; [|now apply IH].
  intros Hin. apply Hnot. apply in_map_iff in Hin as (b & Hb & Hin).
  apply filter_In in Hin as [Hin _]. apply in_map_iff. now exists b.
Qed.

Lemma NoDup_map_firstn {A B : Type} (g : A -> B) (n : nat) (l : list A) :
  NoDup (map g l) -> NoDup (map g (firstn n l)).
Proof.
  intros H. rewrite <- (firstn_skipn n l), map_app in H.
  now apply NoDup_app_remove_r in H.
Qed.

Lemma ranked_distinct (self : recommender) (query : string) (top_k : Z) :
  NoDup (map fst (similarities self query)) ->
  NoDup (map fst (ranked self query top_k)).
Proof.
  intros H. unfold ranked.
  destruct (slice_to_prefix (sort_desc (similarities self query)) top_k) as [n ->].
  apply NoDup_map_filter, NoDup_map_firstn.
  eapply Permutation_NoDup; [|exact H].
  apply Permutation_map, Permutation_sym, sort_desc_perm.
Qed.

Lemma round_half_even_error (x : R) :
  (- (1 / 2) <= IZR (round_half_even x) - x <= 1 / 2)%R.
Proof.
  destruct (floor_bounds x) as [F1 F2]. unfold round_half_even.
  destruct (Rlt_dec (x - IZR (floor x)) (1 / 2)) as [L|L]; [lra|].
  destruct (Rlt_dec (1 / 2) (x - IZR (floor x))) as [G|G].
  - rewrite plus_IZR. lra.
  - destruct (Z.even (floor x)); [|rewrite plus_IZR]; lra.
Qed.

Lemma round1_error (x : R) : (- (1 / 20) <= round1 x - x <= 1 / 20)%R.
Proof.
  assert (H := round_half_even_error (x * 10)). unfold round1. lra.
Qed.

Lemma suggestions_loop_ok (items : catalog) (tag : string)
    (rs : list recommendation) :
  suggestions_loop items tag = Ok rs ->
  rs = map suggestion_of (filter (has_tag tag) items)
  /\ Forall (fun item => complete (snd item)) (filter (has_tag tag) items).
Proof.
  revert rs. induction items as [|[dest_id data] items IH]; intros rs H.
  - simpl in H. injection H as <-. split; [reflexivity | constructor].
  - cbn [suggestions_loop] in H. cbn [filter].
    change (match type data with Some tags => tags | None => [] end)
      with (tags_of data) in H.
    change (has_tag tag (dest_id, data)) with (Str.mem tag (tags_of data)).
    destruct (Str.mem tag (tags_of data)); [|now apply IH].
    destruct (type data) as [tags|] eqn:Et; simpl in H; [|discriminate].
    destruct (eco_score data) as [eco|] eqn:Ee; simpl in H; [|discriminate].
    destruct (description data) as [d|] eqn:Ed; simpl in H; [|discriminate].
    destruct (suggestions_loop items tag) as [results|]; simpl in H; [|discriminate].
    injection H as <-. destruct (IH results eq_refl) as [-> Hall]. split.
    + simpl. f_equal. unfold suggestion_of, tags_of, description_of. simpl.
      now rewrite Et, Ee, Ed.
    + constructor; [|exact Hall]. unfold complete. simpl.
      rewrite Et, Ee, Ed. repeat split; discriminate.
Qed.

Lemma suggestions_loop_raise (items : catalog) (tag : string) (e : exn) :
  suggestions_loop items tag = Raise e ->
  e = KeyError "eco_score" \/ e = KeyError "description".
Proof.
  induction items as [|[dest_id data] items IH]; simpl; intros H; [discriminate|].
  destruct (type data) as [tags|] eqn:Et.
  - destruct (Str.mem tag tags); [|now apply IH]. simpl in H.
    destruct (eco_score data) as [eco|]; simpl in H; [|injection H as <-; now left].
    destruct (description data) as [d|]; simpl in H; [|injection H as <-; now right].
    destruct (suggestions_loop items tag) as [results|]; simpl in H; [discriminate|].
    injection H as <-. now apply IH.
  - simpl in H. now apply IH.
Qed.
(** X9. On the empty catalog the index is empty, and every query and every
    tag gets the empty answer. *)
Theorem empty_catalog (query tag : string) (top_k : Z) :
  let r := AIRecommender [] in
  idf r = [] /\ tf_vectors r = [] /\ doc_norms r = []
  /\ recommend r query top_k = Ok []
  /\ get_suggestions r tag = Ok [].
Proof.
  cbv zeta. repeat split.
  unfold recommend. rewrite vectorize_oov.
  - fold (norm []). rewrite norm_nil.
    destruct (Req_dec_T 0 0); [reflexivity | congruence].
  - apply Forall_forall. intros t _. reflexivity.
Qed.

Lemma valley_keys : NoDup (dict_keys valley_catalog).
Proof. repeat constructor; simpl; intuition discriminate. Qed.

(** X10. With distinct catalog keys, [recommend] returns only
    destinations whose document shares a token with the query: a
    destination with no token in common, and so one whose document has no
    token at all, is never recommended. *)
Theorem recommended_share_token (cat : catalog) (query : string) (top_k : Z)
    (rs : list recommendation) :
  NoDup (dict_keys cat) ->
  recommend (AIRecommender cat) query top_k = Ok rs ->
  Forall (fun rec => exists data t,
            dict_get cat (res_id rec) = Some data
            /\ In t (_tokenize query)
            /\ In t (_tokenize (weighted_text data))) rs.
Proof.
  intros Hnd H. apply recommend_records in H. cbv zeta in H.
  rewrite Forall_forall in *. intros rec Hrec.
  destruct (H rec Hrec) as (s & Hin & Hs & _ & _).
  rewrite (similarities_catalog cat query Hnd) in Hin.
  apply in_map_iff in Hin as ([id data] & Heq & Hitem). simpl in Heq.
  injection Heq as Hid Hcos.
  assert (Hpos : (0 < s)%R) by (unfold threshold in Hs; lra).
  rewrite <- Hcos in Hpos. apply cosine_common in Hpos as (t & Hq & Hd).
  exists data, t. rewrite <- Hid. split; [now apply dict_get_unique|]. split.
  - apply vectorize_query_keys in Hq as [Hq _]. exact Hq.
  - unfold vector_of in Hd. rewrite document_vector_keys in Hd.
    exact (proj1 (Counter_keys _ _) Hd).
Qed.

Lemma recommended_share_token_witness :
  Forall (fun rec => exists data t,
            dict_get valley_catalog (res_id rec) = Some data
            /\ In t (_tokenize "beach")
            /\ In t (_tokenize (weighted_text data))) [valley_record].
Proof.
  exact (recommended_share_token valley_catalog "beach" 3 [valley_record]
           valley_keys valley_recommend).
Defined.

(** X11. A smaller non-negative [top_k] returns a prefix of what a larger
    one returns: if [recommend] returns for [top_k'], it returns for every
    [top_k] between 0 and [top_k'] the first [top_k] of those records. *)
Theorem recommend_prefix (cat : catalog) (query : string) (top_k top_k' : Z)
    (rs' : list recommendation) :
  (0 <= top_k <= top_k')%Z ->
  recommend (AIRecommender cat) query top_k' = Ok rs' ->
  recommend (AIRecommender cat) query top_k = Ok (firstn (Z.to_nat top_k) rs').
Proof.
  intros Hk. rewrite !recommend_unfold.
  destruct (Req_dec_T _ 0).
  - intros [= <-]. now rewrite firstn_nil.
  - rewrite !ranked_nonneg by lia. intros H.
    apply (format_all_firstn _ _ (Z.to_nat top_k)) in H.
    rewrite firstn_firstn in H.
    replace (Nat.min (Z.to_nat top_k) (Z.to_nat top_k')) with (Z.to_nat top_k) in H
      by lia.
    exact H.
Qed.

Lemma recommend_prefix_witness :
  exists rs',
    recommend (AIRecommender twin_catalog) "beach" 3 = Ok rs'
    /\ recommend (AIRecommender twin_catalog) "beach" 1 = Ok (firstn 1 rs').
Proof.
  destruct twin_recommend as (rs' & H & _).
  exists rs'. split; [exact H|].
  apply (recommend_prefix twin_catalog "beach" 1 3 rs'); [lia | exact H].
Defined.

(** X12. A negative [top_k] neither fails nor returns everything: it cuts
    the ranking from its end, so that with [N] destinations
    [recommend(query, -j)] is [recommend(query, max(0, N - j))]. *)
Theorem recommend_negative_top_k (cat : catalog) (query : string) (top_k : Z) :
  NoDup (dict_keys cat) ->
  (top_k < 0)%Z ->
  recommend (AIRecommender cat) query top_k
  = recommend (AIRecommender cat) query (Z.max 0 (Z.of_nat (length cat) + top_k)).
Proof.
  intros Hnd Hk.
  assert (Hlen : length (tf_vectors (AIRecommender cat)) = length cat)
    by (rewrite (tf_vectors_catalog cat Hnd); apply length_map).
  unfold recommend. destruct (Req_dec_T _ 0); [reflexivity|].
  destruct (score_documents _ _ _ _) as [scores|] eqn:E; [|reflexivity].
  simpl. apply score_documents_length in E. rewrite Hlen in E.
  f_equal. unfold slice_to. rewrite sort_desc_length, E.
  destruct (Z.ltb_spec top_k 0); [|lia].
  destruct (Z.ltb_spec (Z.max 0 (Z.of_nat (length cat) + top_k)) 0); [lia|].
  f_equal. lia.
Qed.

Lemma recommend_negative_top_k_witness :
  recommend (AIRecommender twin_catalog) "beach" (-1)
  = recommend (AIRecommender twin_catalog) "beach" 1.
Proof.
  apply (recommend_negative_top_k twin_catalog "beach" (-1) twin_keys). lia.
Defined.

Lemma coral_recommend :
  recommend (AIRecommender coral_catalog) "coral" 3 = Raise (KeyError "description").
Proof.
  pose proof single_idf_pos as Hw. destruct coral_index as [Hv Hq].
  rewrite (single_document_format coral_catalog "coral" "coral" "coral"
             (INR 1 / INR 1 * single_idf) (INR 2 / INR 6 * single_idf)
             coral_vector 3 Hv Hq).
  - reflexivity.
  - inr_to_izr. lra.
  - inr_to_izr. lra.
  - reflexivity.
  - unfold coral_vector, sum_sq. simpl. inr_to_izr. nra.
  - lia.
Qed.

(** X13. The only exception [recommend] raises on an index it built is the
    [KeyError] of the first of the fields [type], [eco_score],
    [description] that a destination of the catalog lacks: the lookups of
    the index itself never fail. *)
Theorem recommend_errors (cat : catalog) (query : string) (top_k : Z) (e : exn) :
  recommend (AIRecommender cat) query top_k = Raise e ->
  exists id data,
    dict_get cat id = Some data
    /\ ((type data = None /\ e = KeyError "type")
        \/ (type data <> None /\ eco_score data = None /\ e = KeyError "eco_score")
        \/ (type data <> None /\ eco_score data <> None
            /\ description data = None /\ e = KeyError "description")).
Proof.
  rewrite recommend_unfold. destruct (Req_dec_T _ 0); [discriminate|].
  apply format_all_raise, ranked_keys.
Qed.

Lemma recommend_errors_witness :
  exists id data,
    dict_get coral_catalog id = Some data
    /\ ((type data = None /\ KeyError "description" = KeyError "type")
        \/ (type data <> None /\ eco_score data = None
            /\ KeyError "description" = KeyError "eco_score")
        \/ (type data <> None /\ eco_score data <> None
            /\ description data = None
            /\ KeyError "description" = KeyError "description")).
Proof.
  exact (recommend_errors coral_catalog "coral" 3 _ coral_recommend).
Defined.

(** X15. With distinct catalog keys no destination is returned twice, and
    every returned identifier is a key of the catalog. *)
Theorem recommend_distinct (cat : catalog) (query : string) (top_k : Z)
    (rs : list recommendation) :
  NoDup (dict_keys cat) ->
  recommend (AIRecommender cat) query top_k = Ok rs ->
  NoDup (map res_id rs)
  /\ Forall (fun rec => In (res_id rec) (dict_keys cat)) rs.
Proof.
  intros Hnd. rewrite recommend_unfold. destruct (Req_dec_T _ 0).
  - intros [= <-]. split; constructor.
  - intros H. apply format_all_shape in H as [Hids _]. split.
    + rewrite Hids. apply ranked_distinct.
      rewrite (similarities_catalog cat query Hnd), map_map. exact Hnd.
    + assert (Hk := ranked_keys cat query top_k).
      apply Forall_forall. intros rec Hrec.
      assert (Hin : In (res_id rec) (map fst (ranked (AIRecommender cat) query top_k))).
      { rewrite <- Hids. now apply in_map. }
      apply in_map_iff in Hin as (p & <- & Hp).
      rewrite Forall_forall in Hk. now apply Hk.
Qed.

Lemma recommend_distinct_witness :
  exists rs,
    recommend (AIRecommender twin_catalog) "beach" 3 = Ok rs
    /\ NoDup (map res_id rs)
    /\ Forall (fun rec => In (res_id rec) (dict_keys twin_catalog)) rs.
Proof.
  destruct twin_recommend as (rs & H & _).
  exists rs. split; [exact H|].
  exact (recommend_distinct twin_catalog "beach" 3 rs twin_keys H).
Defined.

(** ** A query that repeats a document, and a repeated query *)

Lemma dot_product_self (v : dict R) :
  NoDup (dict_keys v) -> dot_product v v = sum_sq (dict_values v).
Proof.
  intros Hnd. rewrite dot_product_Rsum, sum_sq_Rsum.
  unfold dict_values. rewrite map_map. f_equal.
  apply map_ext_in. intros [t x] Hin. simpl.
  unfold weight_of, dict_get_default.
  rewrite (dict_get_unique _ _ _ Hnd Hin). ring.
Qed.

Lemma cosine_self (v : dict R) :
  NoDup (dict_keys v) -> norm v <> 0%R -> cosine v (norm v) v (norm v) = 1%R.
Proof.
  intros Hnd Hn. unfold cosine.
  assert (Hpos : (0 < norm v)%R) by (pose proof (norm_nonneg v); lra).
  destruct (Rlt_dec 0 (norm v)); [|contradiction].
  rewrite (dot_product_self v Hnd), <- norm_sq. field. exact Hn.
Qed.

Lemma vectorize_as_document (cat : catalog) (item : string * entry) (query : string) :
  In item cat ->
  _tokenize query = _tokenize (weighted_text (snd item)) ->
  _vectorize_query (AIRecommender cat) query
  = vector_of (idf (AIRecommender cat)) (snd item).
Proof.
  intros Hitem Ht. unfold vector_of.
  rewrite vectorize_query_map, document_vector_map, Ht.
  assert (Hall : Forall (fun kv => In (fst kv) (_tokenize (weighted_text (snd item))))
                        (Counter (_tokenize (weighted_text (snd item))))).
  { apply Forall_forall. intros kv Hkv. apply Counter_keys. now apply in_map. }
  induction Hall as [|[t c] l Hin _ IH]; [reflexivity|].
  simpl in *. destruct (document_token_weight cat item t Hitem Hin) as (w & Hw & _).
  unfold dict_get_default at 1. rewrite Hw. simpl. now rewrite IH.
Qed.

Lemma dict_value_unique {V : Type} (d : dict V) (k : string) (a b : V) :
  NoDup (dict_keys d) -> In (k, a) d -> In (k, b) d -> a = b.
Proof.
  intros Hnd Ha Hb.
  apply (dict_get_unique _ _ _ Hnd) in Ha. apply (dict_get_unique _ _ _ Hnd) in Hb.
  congruence.
Qed.

Lemma counter_add_existing (c : dict nat) (k : string) :
  NoDup (dict_keys c) -> In k (dict_keys c) ->
  counter_add c k
  = map (fun kv => (fst kv, snd kv + (if String.eqb k (fst kv) then 1 else 0))) c.
Proof.
  intros Hnd Hin. unfold counter_add.
  induction c as [|[k0 n] c IH]; [contradiction|].
  simpl in *. inversion Hnd as [|? ? Hnot Hnd']; subst.
  unfold dict_get_default. simpl.
  destruct (String.eqb_spec k k0) as [->|Hne].
  - f_equal. rewrite <- (map_id c) at 1. apply map_ext_in.
    intros [k1 n1] Hin1. simpl. destruct (String.eqb_spec k0 k1) as [->|_].
    + exfalso. apply Hnot. change k1 with (fst (k1, n1)). now apply in_map.
    + now rewrite Nat.add_0_r.
  - rewrite Nat.add_0_r. f_equal.
    destruct Hin as [E|Hin]; [congruence|].
    exact (IH Hnd' Hin).
Qed.

Lemma counter_update_existing (l : list string) (c : dict nat) :
  NoDup (dict_keys c) -> Forall (fun t => In t (dict_keys c)) l ->
  counter_update c l
  = map (fun kv => (fst kv, snd kv + count_occ string_dec l (fst kv))) c.
Proof.
  revert c. induction l as [|t l IH]; intros c Hnd Hall.
  - simpl. rewrite <- (map_id c) at 1. apply map_ext. intros [k n]. simpl.
    now rewrite Nat.add_0_r.
  - inversion Hall as [|? ? Ht Hl]; subst.
    unfold counter_update in *. cbn [fold_left].
    rewrite (counter_add_existing c t Hnd Ht).
    assert (Hkeys : dict_keys
              (map (fun kv => (fst kv, snd kv + (if String.eqb t (fst kv) then 1 else 0))) c)
            = dict_keys c).
    { unfold dict_keys. rewrite map_map. reflexivity. }
    rewrite IH.
    + rewrite map_map. apply map_ext. intros [k n]. cbn [fst snd count_occ].
      destruct (string_dec t k) as [->|Hne].
      * rewrite String.eqb_refl. f_equal. lia.
      * destruct (String.eqb_spec t k); [congruence|]. f_equal. lia.
    + now rewrite Hkeys.
    + now rewrite Hkeys.
Qed.

Lemma Counter_double (tokens : list string) :
  Counter (tokens ++ tokens)
  = map (fun kv => (fst kv, 2 * snd kv)) (Counter tokens).
Proof.
  unfold Counter at 1, counter_update. rewrite fold_left_app.
  fold (counter_update [] tokens). fold (Counter tokens).
  fold (counter_update (Counter tokens) tokens).
  rewrite counter_update_existing.
  - apply map_ext_in. intros [k n] Hin. simpl. f_equal.
    rewrite <- Counter_count. unfold dict_get_default.
    rewrite (dict_get_unique _ _ _ (Counter_nodup tokens) Hin). lia.
  - apply Counter_nodup.
  - apply Forall_forall. intros t Ht. now apply Counter_keys.
Qed.

(** X19. Saying the query twice changes nothing: the query text followed
    by a space and by itself has the same query vector, entry for entry,
    and gets the same answer. *)
Theorem repeated_query (self : recommender) (query : string) (top_k : Z) :
  _vectorize_query self (query ++ " " ++ query)%string = _vectorize_query self query
  /\ recommend self (query ++ " " ++ query)%string top_k
     = recommend self query top_k.
Proof.
  assert (Hv : _vectorize_query self (query ++ " " ++ query)%string
               = _vectorize_query self query).
  { rewrite !vectorize_query_map, tokenize_space, Counter_double.
    set (tokens := _tokenize query).
    assert (Hin : forall kv, In kv (Counter tokens) -> tokens <> []).
    { intros kv Hkv E. rewrite E in Hkv. exact Hkv. }
    induction (Counter tokens) as [|[t c] l IH]; [reflexivity|].
    cbn [map flat_map fst snd]. rewrite IH by (intros kv Hkv; apply (Hin kv); now right).
    f_equal. destruct (dict_get (idf self) t) as [w|]; [|reflexivity].
    assert (Hne : tokens <> []) by (apply (Hin (t, c)); now left).
    assert (Hlen : 0 < length tokens) by (destruct tokens; [congruence | simpl; lia]).
    assert (Ht1 : total_terms (tokens ++ tokens) = 2 * length tokens).
    { destruct tokens as [|x xs]; [congruence|]. simpl. rewrite length_app. simpl. lia. }
    assert (Ht2 : total_terms tokens = length tokens)
      by (destruct tokens; [congruence | reflexivity]).
    rewrite Ht1, Ht2, !mult_INR. change (INR 2) with 2%R.
    assert (Hlr : (0 < INR (length tokens))%R) by now apply lt_0_INR.
    do 2 f_equal. field. lra. }
  split; [exact Hv|]. unfold recommend. now rewrite Hv.
Qed.

(* ------------------------------------------------------------------ *)
(** * The recommender over its arithmetic *)

(** What follows holds of the code of [Fl] for every arithmetic, and so
    for the doubles the source computes with. *)
Module FlFacts.
Import Fl.

Section Generic.
Variable A : arith.

Abbreviation number := (num A).
Abbreviation zero := (of_nat A 0).

(** ** The built index *)

Lemma fl_prepare_fold (items : catalog) (self : recommender A) :
  let r := fold_left (prepare_step A) items self in
  destinations r = destinations self
  /\ corpus r = corpus self ++ map (fun item => weighted_text (snd item)) items
  /\ doc_ids r = doc_ids self ++ map fst items
  /\ idf r = idf self /\ tf_vectors r = tf_vectors self
  /\ doc_norms r = doc_norms self.
Proof.
  revert self. induction items as [|[dest_id data] items IH]; intros self;
    cbn [fold_left].
  - cbv zeta. now rewrite !app_nil_r.
  - destruct (IH (prepare_step A self (dest_id, data))) as (H1 & H2 & H3 & H4 & H5 & H6).
    cbv zeta in *. rewrite H1, H2, H3, H4, H5, H6. simpl.
    rewrite text_parts_weighted, <- !app_assoc. simpl. tauto.
Qed.

Lemma fl_tfidf_fold (items : list (nat * string)) (self : recommender A) :
  let r := fold_left (tfidf_step A) items self in
  destinations r = destinations self /\ corpus r = corpus self
  /\ doc_ids r = doc_ids self /\ idf r = idf self.
Proof.
  revert self. induction items as [|[i doc] items IH]; intros self;
    cbn [fold_left].
  - cbv zeta. tauto.
  - destruct (IH (tfidf_step A self (i, doc))) as (H1 & H2 & H3 & H4).
    cbv zeta in *. rewrite H1, H2, H3, H4. simpl. tauto.
Qed.

(** The state the indexer starts from. *)
Lemma fl_prepared (cat : catalog) :
  let p := _prepare_corpus A (Build_recommender A cat [] [] [] [] []) in
  destinations p = cat
  /\ corpus p = map (fun item => weighted_text (snd item)) cat
  /\ doc_ids p = map fst cat
  /\ tf_vectors p = [] /\ doc_norms p = [].
Proof.
  cbv zeta. unfold _prepare_corpus.
  match goal with |- context [fold_left (prepare_step A) ?c ?s] =>
    destruct (fl_prepare_fold c s) as (P1 & P2 & P3 & _ & P5 & P6) end.
  cbv zeta in *. simpl in *. tauto.
Qed.

Lemma fl_fields (cat : catalog) :
  let r := AIRecommender A cat in
  destinations r = cat
  /\ corpus r = map (fun item => weighted_text (snd item)) cat
  /\ doc_ids r = map fst cat
  /\ idf r = compute_idf A (length cat) (document_frequency (corpus r)).
Proof.
  cbv zeta. unfold AIRecommender, _compute_tfidf.
  destruct (fl_prepared cat) as (P1 & P2 & P3 & _). cbv zeta in *.
  match goal with |- context [fold_left (tfidf_step A) ?c ?s] =>
    destruct (fl_tfidf_fold c s) as (T1 & T2 & T3 & T4) end.
  cbv zeta in *. rewrite T1, T2, T3, T4. simpl.
  rewrite P1, P2, P3. rewrite length_map. tauto.
Qed.

Lemma fl_tfidf_fold_norms (items : list (nat * string)) (self : recommender A) :
  doc_norms self = map (stored_norm A) (tf_vectors self) ->
  let r := fold_left (tfidf_step A) items self in
  doc_norms r = map (stored_norm A) (tf_vectors r).
Proof.
  revert self. induction items as [|[i doc] items IH]; intros self H;
    cbn [fold_left]; [exact H|].
  apply IH. simpl. rewrite H. symmetry.
  exact (dict_set_map (fun v => fsqrt A (norm_sq A v)) _ _ _).
Qed.

Lemma fl_tfidf_fold_nodup (items : list (nat * string)) (self : recommender A) :
  NoDup (dict_keys (tf_vectors self)) ->
  NoDup (dict_keys (tf_vectors (fold_left (tfidf_step A) items self))).
Proof.
  revert self. induction items as [|[i doc] items IH]; intros self H;
    cbn [fold_left]; [exact H|].
  apply IH. simpl. now apply dict_set_nodup.
Qed.

Lemma fl_tfidf_fold_vectors (P : dict number -> Prop) (items : list (nat * string))
    (self : recommender A) :
  (forall tokens, P (document_vector A (idf self) tokens)) ->
  Forall (fun kv => P (snd kv)) (tf_vectors self) ->
  Forall (fun kv => P (snd kv)) (tf_vectors (fold_left (tfidf_step A) items self)).
Proof.
  revert self. induction items as [|[i doc] items IH]; intros self HP Hall;
    cbn [fold_left]; [exact Hall|].
  apply IH; [exact HP|].
  simpl. apply Forall_forall. intros [k v] Hin.
  apply dict_set_In in Hin as [E|Hin].
  - injection E as -> ->. apply HP.
  - rewrite Forall_forall in Hall. exact (Hall _ Hin).
Qed.

Lemma fl_tfidf_fold_fresh (items : list (nat * string)) (self : recommender A) :
  NoDup (dict_keys (tf_vectors self)
         ++ map (fun item => nth (fst item) (doc_ids self) "") items) ->
  dict_keys (tf_vectors (fold_left (tfidf_step A) items self))
  = dict_keys (tf_vectors self)
    ++ map (fun item => nth (fst item) (doc_ids self) "") items.
Proof.
  revert self. induction items as [|[i doc] items IH]; intros self Hnd;
    cbn [fold_left].
  - simpl. now rewrite app_nil_r.
  - assert (Hfresh : ~ In (nth i (doc_ids self) "") (dict_keys (tf_vectors self))).
    { simpl in Hnd. apply NoDup_remove_2 in Hnd. intros H. apply Hnd, in_or_app. now left. }
    rewrite IH; simpl; rewrite dict_set_fresh by exact Hfresh;
      unfold dict_keys in *; rewrite map_app, <- app_assoc; [reflexivity|exact Hnd].
Qed.

(** The index holds the norm of every vector it holds, under keys that
    are distinct; with the keys of the catalog distinct, they are the
    keys of the catalog, in its order. *)
Lemma fl_index (cat : catalog) :
  let r := AIRecommender A cat in
  doc_norms r = map (stored_norm A) (tf_vectors r)
  /\ NoDup (dict_keys (tf_vectors r))
  /\ (NoDup (dict_keys cat) -> dict_keys (tf_vectors r) = dict_keys cat).
Proof.
  cbv zeta. unfold AIRecommender, _compute_tfidf.
  destruct (fl_prepared cat) as (_ & Hcorp & Hids & Htf & Hdn). cbv zeta in *.
  set (prepared := _prepare_corpus A _) in *.
  repeat split.
  - apply fl_tfidf_fold_norms. simpl. now rewrite Htf, Hdn.
  - apply fl_tfidf_fold_nodup. simpl. rewrite Htf. constructor.
  - intros Hnd.
    assert (Hen : map (fun item : nat * string => nth (fst item) (doc_ids prepared) "")
                      (enumerate (corpus prepared)) = dict_keys cat).
    { unfold enumerate. rewrite Hids, Hcorp, length_map.
      assert (H := enumerate_ids weighted_text (fun _ : string => tt) cat []).
      apply (f_equal (map fst)) in H. rewrite !map_map in H. exact H. }
    rewrite fl_tfidf_fold_fresh; simpl; rewrite Htf; simpl; rewrite Hen;
      [reflexivity | exact Hnd].
Qed.

(** ** Scoring *)

(** A list of scores follows the vectors: one score per vector, under
    its key, computed by [similarity] from the vector and a stored norm. *)
Lemma fl_score_documents (norms : dict number) (qv : dict number) (qn : number)
    (vectors : dict (dict number)) (scores : list (string * number)) :
  score_documents A norms qv qn vectors = Ok scores ->
  Forall2 (fun kv p =>
             fst p = fst kv
             /\ exists dn, In dn (dict_values norms)
                  /\ similarity A qv qn (snd kv) dn = Ok (snd p))
          vectors scores.
Proof.
  revert scores. induction vectors as [|[dest_id dest_vec] vectors IH];
    simpl; intros scores H.
  - injection H as <-. constructor.
  - unfold dict_index in H.
    destruct (dict_get norms dest_id) as [dn|] eqn:Hn; simpl in H; [|discriminate].
    destruct (similarity A qv qn dest_vec dn) as [s|] eqn:Hs; simpl in H; [|discriminate].
    destruct (score_documents A norms qv qn vectors) as [rest|]; simpl in H;
      [|discriminate].
    injection H as <-. constructor; [|now apply IH].
    split; [reflexivity|]. exists dn. split; [|exact Hs].
    apply dict_get_In in Hn. change dn with (snd (dest_id, dn)).
    now apply in_map.
Qed.

Lemma fl_score_keys (norms : dict number) (qv : dict number) (qn : number)
    (vectors : dict (dict number)) (scores : list (string * number)) :
  score_documents A norms qv qn vectors = Ok scores ->
  map fst scores = dict_keys vectors.
Proof.
  intros H. apply fl_score_documents in H.
  induction H as [|kv p vectors scores [E _] _ IH]; simpl; [reflexivity|].
  now rewrite E, IH.
Qed.

Lemma fl_similarities_keys (cat : catalog) (query : string)
    (scores : list (string * number)) :
  NoDup (dict_keys cat) ->
  similarities A (AIRecommender A cat) query = Ok scores ->
  map fst scores = dict_keys cat.
Proof.
  intros Hnd H. apply fl_score_keys in H. rewrite H.
  now apply (fl_index cat).
Qed.

(** ** The stable descending sort *)

Lemma ordered_spec (vals : list number) :
  ordered A vals = true -> strict_weak_order A vals.
Proof.
  unfold ordered. intros H. rewrite forallb_forall in H. split.
  - intros x y Hx Hy Hlt. specialize (H x Hx). rewrite forallb_forall in H.
    specialize (H y Hy). apply andb_prop in H as [H _].
    rewrite Hlt in H. simpl in H. now apply negb_true_iff in H.
  - intros x y z Hx Hy Hz Hlt. specialize (H x Hx). rewrite forallb_forall in H.
    specialize (H y Hy). apply andb_prop in H as [_ H].
    rewrite forallb_forall in H. specialize (H z Hz).
    rewrite Hlt in H. simpl in H. now apply orb_prop in H.
Qed.

Lemma fl_insert_perm (x : string * number) (l : list (string * number)) :
  Permutation (insert_desc A x l) (x :: l).
Proof.
  induction l as [|y l IH]; simpl; [reflexivity|].
  destruct (flt A (snd x) (snd y)); [|reflexivity].
  rewrite IH. apply perm_swap.
Qed.

Lemma fl_sort_perm (l : list (string * number)) : Permutation (sort_desc A l) l.
Proof.
  induction l as [|x l IH]; simpl; [reflexivity|].
  rewrite fl_insert_perm. now constructor.
Qed.

Section Sorting.
Variable vals : list number.
Hypothesis Hord : strict_weak_order A vals.

Lemma fl_insert_listed (x : string * number) (l : list (string * number)) :
  In (snd x) vals -> listed A vals l -> listed A vals (insert_desc A x l).
Proof.
  intros Hx Hl. unfold listed in *. rewrite Forall_forall in *.
  intros p Hp. eapply Permutation_in in Hp; [|apply fl_insert_perm].
  destruct Hp as [<-|Hp]; [exact Hx | now apply Hl].
Qed.

Lemma fl_sort_listed (l : list (string * number)) :
  listed A vals l -> listed A vals (sort_desc A l).
Proof.
  intros Hl. unfold listed in *. rewrite Forall_forall in *.
  intros p Hp. apply Hl. eapply Permutation_in; [apply fl_sort_perm | exact Hp].
Qed.

Lemma fl_insert_sorted (x : string * number) (l : list (string * number)) :
  In (snd x) vals -> listed A vals l ->
  StronglySorted (not_below A) l -> StronglySorted (not_below A) (insert_desc A x l).
Proof.
  destruct Hord as [Hasym Htrans]. intros Hx Hl Hs.
  induction l as [|y l IH]; simpl.
  - repeat constructor.
  - inversion Hs as [|? ? Hs' Hall]; subst.
    inversion Hl as [|? ? Hy Hl']; subst.
    destruct (flt A (snd x) (snd y)) eqn:Hlt.
    + constructor; [now apply IH|].
      apply Forall_forall. intros z Hz.
      eapply Permutation_in in Hz; [|apply fl_insert_perm].
      destruct Hz as [<-|Hz].
      * unfold not_below. now apply Hasym.
      * rewrite Forall_forall in Hall. now apply Hall.
    + constructor; [exact Hs|].
      constructor; [exact Hlt|].
      apply Forall_forall. intros z Hz. unfold not_below.
      destruct (flt A (snd x) (snd z)) eqn:Hxz; [|reflexivity].
      unfold listed in Hl'. rewrite Forall_forall in Hall, Hl'.
      destruct (Htrans (snd x) (snd y) (snd z) Hx Hy (Hl' _ Hz) Hxz) as [H|H].
      * congruence.
      * specialize (Hall _ Hz). unfold not_below in Hall. congruence.
Qed.

Lemma fl_sort_sorted (l : list (string * number)) :
  listed A vals l -> StronglySorted (not_below A) (sort_desc A l).
Proof.
  induction l as [|x l IH]; simpl; intros Hl; [constructor|].
  inversion Hl; subst.
  apply fl_insert_sorted; [assumption | now apply fl_sort_listed | now apply IH].
Qed.

(** An inserted element passes no element it is tied with. *)
Lemma fl_insert_stable (v : number) (x : string * number)
    (l : list (string * number)) :
  In v vals -> In (snd x) vals -> listed A vals l ->
  filter (tied_with A v) (insert_desc A x l) = filter (tied_with A v) (x :: l).
Proof.
  destruct Hord as [Hasym Htrans]. intros Hv Hx Hl.
  induction l as [|y l IH]; [reflexivity|].
  inversion Hl as [|? ? Hy Hl']; subst.
  cbn [insert_desc]. destruct (flt A (snd x) (snd y)) eqn:Hlt; [|reflexivity].
  cbn [filter]. rewrite (IH Hl'). cbn [filter].
  destruct (tied_with A v x) eqn:Tx, (tied_with A v y) eqn:Ty; try reflexivity.
  exfalso. unfold tied_with, tied in Tx, Ty.
  apply andb_prop in Tx as [Tx1 Tx2]. apply andb_prop in Ty as [Ty1 Ty2].
  apply negb_true_iff in Tx1, Tx2, Ty1, Ty2.
  destruct (Htrans (snd x) v (snd y) Hx Hv Hy Hlt); congruence.
Qed.

Lemma fl_sort_stable (v : number) (l : list (string * number)) :
  In v vals -> listed A vals l ->
  filter (tied_with A v) (sort_desc A l) = filter (tied_with A v) l.
Proof.
  intros Hv. induction l as [|x l IH]; intros Hl; [reflexivity|].
  inversion Hl; subst. cbn [sort_desc fold_right].
  fold (sort_desc A l).
  rewrite fl_insert_stable by (try assumption; now apply fl_sort_listed).
  cbn [filter]. now rewrite IH.
Qed.

(** In the sorted list an element standing before another is not below
    it, and when they are tied it stood before it in the list sorted. *)
Lemma fl_sort_before (a b : string * number) (l : list (string * number)) :
  listed A vals l -> before a b (sort_desc A l) ->
  flt A (snd a) (snd b) = false
  /\ (flt A (snd b) (snd a) = false -> before a b l).
Proof.
  intros Hl Hab.
  assert (Hin : forall p, In p (sort_desc A l) -> In (snd p) vals).
  { intros p Hp. apply fl_sort_listed in Hl. unfold listed in Hl.
    rewrite Forall_forall in Hl. now apply Hl. }
  assert (Ha : In (snd a) vals /\ In (snd b) vals).
  { destruct Hab as (l1 & l2 & l3 & E). split; apply Hin; rewrite E.
    - apply in_elt.
    - apply in_or_app. right. right. apply in_elt. }
  destruct Ha as [Ha Hb]. destruct Hord as [Hasym _].
  assert (Hab' := StronglySorted_before (not_below A) a b _ (fl_sort_sorted l Hl) Hab).
  split; [exact Hab'|]. intros Hba.
  assert (Irr : forall x, In x vals -> flt A x x = false).
  { intros x Hx. destruct (flt A x x) eqn:E; [|reflexivity].
    now rewrite (Hasym x x Hx Hx E) in E. }
  apply (before_filter (tied_with A (snd a))).
  rewrite <- (fl_sort_stable (snd a) l Ha Hl).
  apply before_filter_keep; [| | exact Hab]; unfold tied_with, tied.
  - now rewrite (Irr _ Ha).
  - unfold not_below in Hab'. now rewrite Hab', Hba.
Qed.

End Sorting.

(** ** Formatting *)

Lemma fl_format_records (dests : catalog) (l : list (string * number))
    (rs : list (recommendation A)) :
  format_results A dests l = Ok rs ->
  Forall2 (fun rec p =>
             res_id rec = fst p
             /\ match_score rec = round1 A (fmul A (snd p) (of_nat A 100)))
          rs (filter (relevant A) l).
Proof.
  revert rs. induction l as [|[dest_id score] l IH]; simpl; intros rs H.
  - injection H as <-. constructor.
  - unfold relevant at 1. simpl.
    destruct (flt A (threshold A) score); [|now apply IH].
    destruct (dict_index dests dest_id) as [dest|]; simpl in H; [|discriminate].
    destruct (field "type" (type dest)) as [tags|]; simpl in H; [|discriminate].
    destruct (field "eco_score" (eco_score dest)) as [eco|]; simpl in H; [|discriminate].
    destruct (field "description" (description dest)) as [d|]; simpl in H; [|discriminate].
    destruct (format_results A dests l) as [results|]; simpl in H; [|discriminate].
    injection H as <-. constructor; [now split | now apply IH].
Qed.

Lemma fl_shown_incl (scores : list (string * number)) (top_k : Z)
    (p : string * number) :
  In p (shown A scores top_k) -> In p scores /\ relevant A p = true.
Proof.
  unfold shown. intros H. apply filter_In in H as [H Hr]. split; [|exact Hr].
  destruct (slice_to_prefix (sort_desc A scores) top_k) as [n Hn].
  rewrite Hn in H.
  eapply Permutation_in; [apply fl_sort_perm|].
  rewrite <- (firstn_skipn n (sort_desc A scores)). apply in_or_app. now left.
Qed.

Lemma fl_shown_before (scores : list (string * number)) (top_k : Z)
    (a b : string * number) :
  before a b (shown A scores top_k) -> before a b (sort_desc A scores).
Proof.
  unfold shown. intros H. apply before_filter in H.
  destruct (slice_to_prefix (sort_desc A scores) top_k) as [n Hn].
  rewrite Hn in H.
  rewrite <- (firstn_skipn n (sort_desc A scores)). now apply before_app_l.
Qed.

(** The query matcher, step by step. *)
Lemma fl_recommend (self : recommender A) (query : string) (top_k : Z)
    (rs : list (recommendation A)) :
  recommend A self query top_k = Ok rs ->
  (feq A (query_norm A self query) zero = true /\ rs = [])
  \/ (feq A (query_norm A self query) zero = false
      /\ exists scores,
           similarities A self query = Ok scores
           /\ Forall2 (fun rec p =>
                         res_id rec = fst p
                         /\ match_score rec
                            = round1 A (fmul A (snd p) (of_nat A 100)))
                      rs (shown A scores top_k)).
Proof.
  unfold recommend, similarities, query_norm.
  destruct (feq A _ zero); [intros [= <-]; now left|].
  intros H. right. split; [reflexivity|].
  destruct (score_documents A _ _ _ _) as [scores|]; simpl in H; [|discriminate].
  exists scores. split; [reflexivity|]. exact (fl_format_records _ _ _ H).
Qed.

(** The records follow the shown documents, which stand in the order of
    the scores, ties in the order of the catalog. *)
Lemma fl_recommend_order (cat : catalog) (query : string) (top_k : Z)
    (rs : list (recommendation A)) :
  NoDup (dict_keys cat) ->
  recommend A (AIRecommender A cat) query top_k = Ok rs ->
  (feq A (query_norm A (AIRecommender A cat) query) zero = true /\ rs = [])
  \/ exists scores,
       similarities A (AIRecommender A cat) query = Ok scores
       /\ map fst scores = dict_keys cat
       /\ map res_id rs = map fst (shown A scores top_k)
       /\ incl (shown A scores top_k) scores
       /\ (ordered A (map snd scores) = true ->
           forall a b, before a b (shown A scores top_k) ->
             flt A (snd a) (snd b) = false
             /\ (flt A (snd b) (snd a) = false ->
                 before (fst a) (fst b) (dict_keys cat))).
Proof.
  intros Hnd H.
  apply fl_recommend in H as [[Hz ->] | (_ & scores & Hs & HF)];
    [now left | right].
  assert (Hkeys := fl_similarities_keys cat query scores Hnd Hs).
  exists scores.
  split; [exact Hs|]. split; [exact Hkeys|]. split; [|split].
  - clear Hs Hkeys. induction HF as [|rec p rs l [Hid _] _ IH]; simpl;
      [reflexivity | now rewrite Hid, IH].
  - intros p Hp. now apply fl_shown_incl in Hp.
  - intros Hord a b Hab. apply ordered_spec in Hord.
    apply fl_shown_before in Hab.
    apply (fl_sort_before (map snd scores) Hord) in Hab.
    + destruct Hab as [Hle Htie]. split; [exact Hle|].
      intros Hba. rewrite <- Hkeys. now apply before_map, Htie.
    + apply Forall_forall. intros p Hp. now apply in_map.
Qed.

(** ** Signs *)

Section Signs.
Hypothesis Hsign : sign_laws A.

Lemma fl_set_nonneg (vec : dict number) (t : string) (x : number) :
  nonneg_entries A vec -> nonneg A x -> nonneg_entries A (dict_set vec t x).
Proof.
  intros Hv Hx. unfold nonneg_entries in *. rewrite Forall_forall in *.
  intros [k v] Hin. apply dict_set_In in Hin as [E|Hin].
  - injection E as -> ->. exact Hx.
  - now apply Hv.
Qed.

Lemma fl_tf_nonneg (count : nat) (tokens : list string) :
  nonneg A (fdiv A (of_nat A count) (of_nat A (total_terms tokens))).
Proof.
  apply (fdiv_nonneg A Hsign); try apply (of_nat_nonneg A Hsign).
  apply (of_nat_nonzero A Hsign). pose proof (total_terms_pos tokens). lia.
Qed.

Lemma fl_idf_nonneg (N : nat) (df : dict nat) :
  nonneg_entries A (compute_idf A N df).
Proof.
  unfold nonneg_entries, compute_idf. apply Forall_forall. intros kv Hin.
  apply in_map_iff in Hin as ([t c] & <- & _). simpl.
  apply (flog_nonneg A Hsign), (fdiv_nonneg A Hsign);
    try apply (of_nat_nonneg A Hsign).
  apply (of_nat_nonzero A Hsign). lia.
Qed.

Lemma fl_lookup_nonneg (table : dict number) (t : string) :
  nonneg_entries A table -> nonneg A (dict_get_default table t zero).
Proof.
  intros Ht. unfold dict_get_default.
  destruct (dict_get table t) as [w|] eqn:E; [|apply (of_nat_nonneg A Hsign)].
  apply dict_get_In in E. unfold nonneg_entries in Ht.
  rewrite Forall_forall in Ht. exact (Ht _ E).
Qed.

Lemma fl_document_vector_nonneg (table : dict number) (tokens : list string) :
  nonneg_entries A table -> nonneg_entries A (document_vector A table tokens).
Proof.
  intros Ht. unfold document_vector.
  generalize (Counter tokens). intros counts.
  assert (H0 : nonneg_entries A []) by constructor.
  revert H0. generalize (@nil (string * number)) as vec.
  induction counts as [|[t c] counts IH]; intros vec Hv; cbn [fold_left];
    [exact Hv|].
  apply IH, fl_set_nonneg; [exact Hv|].
  apply (fmul_nonneg A Hsign); [apply fl_tf_nonneg | now apply fl_lookup_nonneg].
Qed.

Lemma fl_query_nonneg (self : recommender A) (query : string) :
  nonneg_entries A (idf self) -> nonneg_entries A (_vectorize_query A self query).
Proof.
  intros Ht. unfold _vectorize_query.
  generalize (Counter (_tokenize query)). intros counts.
  assert (H0 : nonneg_entries A []) by constructor.
  revert H0. generalize (@nil (string * number)) as vec.
  induction counts as [|[t c] counts IH]; intros vec Hv; cbn [fold_left];
    [exact Hv|].
  apply IH. destruct (dict_get (idf self) t) as [w|] eqn:E; [|exact Hv].
  apply fl_set_nonneg; [exact Hv|].
  apply (fmul_nonneg A Hsign); [apply fl_tf_nonneg|].
  apply dict_get_In in E. unfold nonneg_entries in Ht.
  rewrite Forall_forall in Ht. exact (Ht _ E).
Qed.

Lemma fl_dot_nonneg (qv dv : dict number) :
  nonneg_entries A qv -> nonneg_entries A dv -> nonneg A (dot_product A qv dv).
Proof.
  intros Hq Hd. unfold dot_product.
  assert (H0 : nonneg A zero) by apply (of_nat_nonneg A Hsign).
  revert H0. generalize zero as dot.
  induction qv as [|[t q] qv IH]; intros dot Hdot; cbn [fold_left]; [exact Hdot|].
  inversion Hq as [|? ? Hq1 Hq2]; subst. apply IH; [exact Hq2|].
  destruct (dict_get dv t) as [d|] eqn:E; [|exact Hdot].
  apply (fadd_nonneg A Hsign); [exact Hdot|].
  apply (fmul_nonneg A Hsign); [exact Hq1|].
  apply dict_get_In in E. unfold nonneg_entries in Hd.
  rewrite Forall_forall in Hd. exact (Hd _ E).
Qed.

Lemma fl_similarity_nonneg (qv dv : dict number) (x y s : number) :
  nonneg_entries A qv -> nonneg_entries A dv ->
  similarity A qv (fsqrt A x) dv (fsqrt A y) = Ok s -> nonneg A s.
Proof.
  intros Hq Hd. unfold similarity.
  destruct (flt A zero (fsqrt A y)); [|intros [= <-]; apply (of_nat_nonneg A Hsign)].
  destruct (feq A _ zero) eqn:Hz; [discriminate|]. intros [= <-].
  apply (fdiv_nonneg A Hsign); [now apply fl_dot_nonneg | | exact Hz].
  apply (fmul_nonneg A Hsign); apply (fsqrt_nonneg A Hsign).
Qed.

Lemma fl_index_nonneg (cat : catalog) :
  let r := AIRecommender A cat in
  nonneg_entries A (idf r)
  /\ Forall (fun kv => nonneg_entries A (snd kv)) (tf_vectors r).
Proof.
  cbv zeta. destruct (fl_fields cat) as (_ & _ & _ & Hi). cbv zeta in Hi.
  assert (Hidf : nonneg_entries A (idf (AIRecommender A cat)))
    by (rewrite Hi; apply fl_idf_nonneg).
  split; [exact Hidf|].
  unfold AIRecommender, _compute_tfidf in *.
  destruct (fl_prepared cat) as (_ & _ & _ & Htf & _). cbv zeta in *.
  match type of Hidf with context [fold_left (tfidf_step A) ?c ?s] =>
    destruct (fl_tfidf_fold c s) as (_ & _ & _ & T4) end.
  cbv zeta in T4. rewrite T4 in Hidf.
  apply fl_tfidf_fold_vectors.
  - intros tokens. now apply fl_document_vector_nonneg.
  - simpl. rewrite Htf. constructor.
Qed.

(** No similarity the code computes is negative. *)
Lemma fl_similarities_nonneg (cat : catalog) (query : string)
    (scores : list (string * number)) :
  similarities A (AIRecommender A cat) query = Ok scores ->
  Forall (fun p => nonneg A (snd p)) scores.
Proof.
  intros H. unfold similarities, query_norm in H.
  destruct (fl_index_nonneg cat) as [Hidf Hvec]. cbv zeta in *.
  destruct (fl_index cat) as (Hn & _). cbv zeta in Hn.
  apply fl_score_documents in H.
  set (r := AIRecommender A cat) in *.
  assert (Hroot : forall dn, In dn (dict_values (doc_norms r)) ->
                    exists x, dn = fsqrt A x).
  { intros dn Hdn. rewrite Hn in Hdn. unfold dict_values in Hdn.
    rewrite map_map in Hdn. apply in_map_iff in Hdn as (kv & <- & _).
    simpl. eauto. }
  clear Hn. revert Hvec.
  induction H as [|kv p vectors scores' [_ (dn & Hdn & Hs)] _ IH]; intros Hvec;
    [constructor|].
  inversion Hvec as [|? ? Hv Hrest]; subst.
  constructor; [|now apply IH].
  destruct (Hroot dn Hdn) as [x ->].
  eapply fl_similarity_nonneg; [| exact Hv | exact Hs].
  now apply fl_query_nonneg.
Qed.

End Signs.

End Generic.

End FlFacts.

(* ------------------------------------------------------------------ *)
(** ** The order of binary64 *)

(** The comparison of two floats is the one of their specifications,
    which compares signs, then exponents, then mantissas.  Away from NaN
    it is a strict weak order, whatever the platform. *)
Module Binary64Facts.
Import SpecFloat.

Ltac compare_cases :=
  repeat match goal with
  | H : context [Z.compare ?a ?b] |- _ => destruct (Z.compare_spec a b)
  | |- context [Z.compare ?a ?b] => destruct (Z.compare_spec a b)
  | H : context [Pos.compare_cont Eq ?a ?b] |- _ =>
      change (Pos.compare_cont Eq a b) with (Pos.compare a b) in *;
      destruct (Pos.compare_spec a b)
  | |- context [Pos.compare_cont Eq ?a ?b] =>
      change (Pos.compare_cont Eq a b) with (Pos.compare a b) in *;
      destruct (Pos.compare_spec a b)
  end.

Lemma SFltb_asymmetric (x y : spec_float) :
  SFltb x y = true -> SFltb y x = false.
Proof.
  unfold SFltb, SFcompare.
  destruct x as [[|]|[|]| |[|] mx ex], y as [[|]|[|]| |[|] my ey];
    try (intros; reflexivity); try discriminate;
    compare_cases; simpl; subst; intros; try reflexivity; try discriminate; lia.
Qed.

Lemma SFltb_negatively_transitive (x y z : spec_float) :
  y <> S754_nan ->
  SFltb x z = true -> SFltb x y = true \/ SFltb y z = true.
Proof.
  unfold SFltb, SFcompare.
  destruct x as [[|]|[|]| |[|] mx ex], y as [[|]|[|]| |[|] my ey],
           z as [[|]|[|]| |[|] mz ez];
    try (intros; congruence); try (intros; now left); try (intros; now right);
    intros _; compare_cases; simpl; subst; intros;
    try discriminate; try (now left); try (now right); lia.
Qed.

Lemma is_number_spec (x : PrimFloat.float) :
  Binary64.is_number x = true -> FloatOps.Prim2SF x <> S754_nan.
Proof.
  unfold Binary64.is_number. rewrite FloatAxioms.eqb_spec. intros H E.
  rewrite E in H. discriminate.
Qed.

(** In a list without NaN the comparison [<] is a strict weak order. *)
Lemma binary64_ordered (platform : Binary64.libm) (l : list PrimFloat.float) :
  forallb Binary64.is_number l = true ->
  Fl.ordered (Binary64.binary64 platform) l = true.
Proof.
  intros Hn. rewrite forallb_forall in Hn. unfold Fl.ordered.
  cbn [Fl.flt Binary64.binary64].
  apply forallb_forall. intros x Hx. apply forallb_forall. intros y Hy.
  apply andb_true_intro. split.
  - destruct (PrimFloat.ltb x y) eqn:E; [|reflexivity]. simpl.
    rewrite FloatAxioms.ltb_spec in *. now rewrite (SFltb_asymmetric _ _ E).
  - apply forallb_forall. intros z Hz.
    destruct (PrimFloat.ltb x z) eqn:E; [|reflexivity]. simpl.
    rewrite !FloatAxioms.ltb_spec in *.
    destruct (SFltb_negatively_transitive _ _ _ (is_number_spec y (Hn y Hy)) E)
      as [-> | ->]; [reflexivity | apply orb_true_r].
Qed.

(** In binary64, whatever the platform, the records stand in the order
    of the computed scores, ties in the order of the catalog, as soon as
    no computed score is a NaN. *)
Lemma binary64_recommend_order (platform : Binary64.libm) (cat : catalog)
    (query : string) (top_k : Z) (scores : list (string * PrimFloat.float))
    (rs : list (Fl.recommendation (Binary64.binary64 platform))) :
  NoDup (dict_keys cat) ->
  Fl.similarities (Binary64.binary64 platform)
    (Fl.AIRecommender (Binary64.binary64 platform) cat) query = Ok scores ->
  forallb Binary64.is_number (map snd scores) = true ->
  Fl.recommend (Binary64.binary64 platform)
    (Fl.AIRecommender (Binary64.binary64 platform) cat) query top_k = Ok rs ->
  exists shown,
    map Fl.res_id rs = map fst shown
    /\ incl shown scores
    /\ forall a b, before a b shown ->
         PrimFloat.ltb (snd a) (snd b) = false
         /\ (PrimFloat.ltb (snd b) (snd a) = false ->
             before (fst a) (fst b) (dict_keys cat)).
Proof.
  intros Hnd Hs Hn H.
  destruct (FlFacts.fl_recommend_order _ cat query top_k rs Hnd H)
    as [[_ ->] | (scores' & Hs' & _ & Hid & Hincl & Hord)].
  - exists []. split; [reflexivity|]. split; [intros p []|].
    intros a b (l1 & l2 & l3 & E). now destruct l1.
  - rewrite Hs in Hs'. injection Hs' as <-.
    exists (Fl.shown (Binary64.binary64 platform) scores top_k).
    split; [exact Hid|]. split; [exact Hincl|].
    apply Hord. now apply binary64_ordered.
Qed.

(** The two points the threshold rests on: [0.05 * 100] is computed as
    5.0, and [round(5.0, 1)] is 5.0. *)
Lemma binary64_five (platform : Binary64.libm) :
  let A := Binary64.binary64 platform in
  Fl.fmul A (Fl.threshold A) (Fl.of_nat A 100) = Fl.of_nat A 5
  /\ Fl.round1 A (Fl.of_nat A 5) = Fl.of_nat A 5.
Proof. split; vm_compute; reflexivity. Qed.

End Binary64Facts.

(* ------------------------------------------------------------------ *)
(** ** Exact arithmetic is an instance *)

Lemma exact_flt (x y : R) : Fl.flt exact x y = true <-> (x < y)%R.
Proof. simpl. destruct (Rlt_dec x y); split; intros; (congruence || tauto). Qed.

Lemma exact_not_flt (x y : R) : Fl.flt exact x y = false <-> (y <= x)%R.
Proof.
  simpl. destruct (Rlt_dec x y); split; intros; try congruence; try lra.
Qed.

Lemma exact_feq (x y : R) : Fl.feq exact x y = false <-> x <> y.
Proof. simpl. destruct (Req_dec_T x y); split; intros; (congruence || tauto). Qed.

Lemma exact_sign_laws : Fl.sign_laws exact.
Proof.
  constructor; unfold Fl.nonneg; intros; rewrite ?exact_not_flt, ?exact_feq in *;
    cbn [Fl.of_nat Fl.fadd Fl.fmul Fl.fdiv Fl.flog Fl.fsqrt exact] in *;
    change (INR 0) with 0%R in *; change (INR 1) with 1%R in *.
  - apply pos_INR.
  - now apply not_0_INR.
  - lra.
  - now apply Rmult_le_pos.
  - apply Rmult_le_pos; [assumption|].
    apply Rlt_le, Rinv_0_lt_compat. lra.
  - rewrite <- ln_1. destruct (Req_dec_T x 0) as [->|Hx].
    + rewrite Rplus_0_r. lra.
    + apply Rlt_le, ln_increasing; lra.
  - apply sqrt_pos.
Qed.

Lemma round_half_even_monotone (x y : R) :
  (x <= y)%R -> (round_half_even x <= round_half_even y)%Z.
Proof.
  intros H. destruct (floor_bounds x) as [X1 X2], (floor_bounds y) as [Y1 Y2].
  assert (F : (floor x <= floor y)%Z).
  { assert (A : (IZR (floor x) < IZR (floor y + 1))%R) by (rewrite plus_IZR; lra).
    apply lt_IZR in A. lia. }
  destruct (Z.eq_dec (floor x) (floor y)) as [E|E].
  - unfold round_half_even. rewrite E in *.
    destruct (Rlt_dec (x - IZR (floor y)) (1 / 2)),
             (Rlt_dec (y - IZR (floor y)) (1 / 2)); try lia; try lra;
    destruct (Rlt_dec (1 / 2) (x - IZR (floor y))),
             (Rlt_dec (1 / 2) (y - IZR (floor y))); try lia; try lra;
    destruct (Z.even (floor y)); lia.
  - destruct (round_half_even_cases x) as [-> | ->],
             (round_half_even_cases y) as [-> | ->]; lia.
Qed.

Lemma round1_monotone_exact (x y : R) : (x <= y)%R -> (round1 x <= round1 y)%R.
Proof.
  intros H. unfold round1.
  assert (A : (round_half_even (x * 10) <= round_half_even (y * 10))%Z)
    by (apply round_half_even_monotone; lra).
  apply IZR_le in A. lra.
Qed.

Lemma exact_rounding_laws : Fl.rounding_laws exact.
Proof.
  constructor; intros; rewrite ?exact_flt, ?exact_not_flt in *;
    cbn [Fl.of_nat Fl.fmul Fl.threshold Fl.round1 exact] in *.
  - inr_to_izr. lra.
  - unfold threshold. inr_to_izr. lra.
  - now apply round1_monotone_exact.
  - inr_to_izr. unfold round1. rewrite (round_half_even_low _ 50) by lra. lra.
Qed.

(** ** The embedding over the reals is the code at exact arithmetic *)

Lemma INR_hundred : INR 100 = 100%R.
Proof. rewrite INR_IZR_INZ. reflexivity. Qed.

Lemma fold_left_plus_map (f : R -> R) (xs : list R) (a : R) :
  fold_left Rplus (map f xs) a = fold_left (fun acc x => (acc + f x)%R) xs a.
Proof.
  revert a. induction xs as [|x xs IH]; intros a; cbn [map fold_left];
    [reflexivity | apply IH].
Qed.

Lemma exact_norm_sq (vec : dict R) : Fl.norm_sq exact vec = sum_sq (dict_values vec).
Proof. exact (fold_left_plus_map (fun x => x ^ 2)%R (dict_values vec) 0%R). Qed.

Lemma exact_prepare_step (self : Fl.recommender exact) (item : string * entry) :
  exact_state (Fl.prepare_step exact self item) = prepare_step (exact_state self) item.
Proof. now destruct item. Qed.

Lemma exact_tfidf_step (self : Fl.recommender exact) (item : nat * string) :
  exact_state (Fl.tfidf_step exact self item) = tfidf_step (exact_state self) item.
Proof.
  destruct item as [i doc]. unfold exact_state, Fl.tfidf_step, tfidf_step.
  cbn [Fl.doc_norms]. rewrite exact_norm_sq. reflexivity.
Qed.

Lemma exact_fold {B : Type} (f : Fl.recommender exact -> B -> Fl.recommender exact)
    (g : recommender -> B -> recommender) (items : list B) :
  (forall self item, exact_state (f self item) = g (exact_state self) item) ->
  forall self, exact_state (fold_left f items self) = fold_left g items (exact_state self).
Proof.
  intros H. induction items as [|item items IH]; intros self; simpl;
    [reflexivity|]. now rewrite IH, H.
Qed.

Lemma exact_index (cat : catalog) :
  exact_state (Fl.AIRecommender exact cat) = AIRecommender cat.
Proof.
  unfold Fl.AIRecommender, AIRecommender, Fl._compute_tfidf, _compute_tfidf,
    Fl._prepare_corpus, _prepare_corpus.
  rewrite (exact_fold _ _ _ exact_tfidf_step).
  set (p := fold_left (Fl.prepare_step exact) _ _).
  assert (Hp : exact_state p
               = fold_left prepare_step cat (Build_recommender cat [] [] [] [] []))
    by (unfold p; now rewrite (exact_fold _ _ _ exact_prepare_step)).
  simpl in *. rewrite <- Hp. reflexivity.
Qed.

Lemma exact_similarity (qv : dict R) (qn : R) (dv : dict R) (dn : R) :
  qn <> 0%R -> Fl.similarity exact qv qn dv dn = Ok (cosine qv qn dv dn).
Proof.
  intros Hq. unfold Fl.similarity, cosine. cbn [Fl.flt Fl.feq Fl.fmul Fl.of_nat exact].
  change (INR 0) with 0%R.
  destruct (Rlt_dec 0 dn) as [Hd|]; [|reflexivity].
  destruct (Req_dec_T (qn * dn) 0) as [E|]; [|reflexivity].
  apply Rmult_integral in E. lra.
Qed.

Lemma exact_score_documents (norms : dict R) (qv : dict R) (qn : R)
    (vectors : dict (dict R)) :
  qn <> 0%R ->
  Fl.score_documents exact norms qv qn vectors = score_documents norms qv qn vectors.
Proof.
  intros Hq. induction vectors as [|[dest_id dest_vec] vectors IH]; simpl;
    [reflexivity|].
  destruct (dict_index norms dest_id) as [dn|]; simpl; [|reflexivity].
  rewrite (exact_similarity _ _ _ _ Hq), IH. reflexivity.
Qed.

Lemma exact_insert_desc (x : string * R) (l : list (string * R)) :
  Fl.insert_desc exact x l = insert_desc x l.
Proof.
  induction l as [|y l IH]; simpl; [reflexivity|].
  destruct (Rlt_dec (snd x) (snd y)); [now rewrite IH | reflexivity].
Qed.

Lemma exact_sort_desc (l : list (string * R)) : Fl.sort_desc exact l = sort_desc l.
Proof.
  unfold Fl.sort_desc, sort_desc.
  induction l as [|x l IH]; cbn [fold_right]; [reflexivity|].
  rewrite IH. apply exact_insert_desc.
Qed.

Lemma exact_format_results (dests : catalog) (l : list (string * R)) :
  result_map (map exact_record) (Fl.format_results exact dests l)
  = format_results dests l.
Proof.
  induction l as [|[dest_id score] l IH]; cbn -[INR]; [reflexivity|].
  fold threshold. destruct (Rlt_dec threshold score); [|exact IH].
  destruct (dict_index dests dest_id) as [dest|]; cbn -[INR]; [|reflexivity].
  destruct (field "type" (type dest)) as [tags|]; cbn -[INR]; [|reflexivity].
  destruct (field "eco_score" (eco_score dest)) as [eco|]; cbn -[INR]; [|reflexivity].
  destruct (field "description" (description dest)) as [d|]; cbn -[INR]; [|reflexivity].
  rewrite <- IH.
  destruct (Fl.format_results exact dests l) as [rs|]; cbn -[INR]; [|reflexivity].
  unfold exact_record at 1. cbn -[INR]. rewrite INR_hundred. reflexivity.
Qed.

(** The query matcher of the head of the file and the one of [Fl] at
    exact arithmetic return the same. *)
Lemma exact_recommend (self : Fl.recommender exact) (query : string) (top_k : Z) :
  result_map (map exact_record) (Fl.recommend exact self query top_k)
  = recommend (exact_state self) query top_k.
Proof.
  unfold Fl.recommend, recommend. rewrite exact_norm_sq.
  change (Fl._vectorize_query exact self query)
    with (_vectorize_query (exact_state self) query).
  cbn [Fl.feq Fl.fsqrt Fl.of_nat exact]. change (INR 0) with 0%R.
  destruct (Req_dec_T _ 0) as [|Hq]; [reflexivity|].
  rewrite (exact_score_documents _ _ _ _ Hq).
  change (Fl.doc_norms self) with (doc_norms (exact_state self)).
  change (Fl.tf_vectors self) with (tf_vectors (exact_state self)).
  destruct (score_documents _ _ _ _) as [scores|]; simpl; [|reflexivity].
  rewrite exact_sort_desc. apply exact_format_results.
Qed.

(** At exact arithmetic, and with a query vector that is not zero, the
    score list is the list of cosines. *)
Lemma exact_similarities (cat : catalog) (query : string) :
  norm (_vectorize_query (AIRecommender cat) query) <> 0%R ->
  Fl.similarities exact (Fl.AIRecommender exact cat) query
  = Ok (similarities (AIRecommender cat) query).
Proof.
  intros Hq. unfold Fl.similarities, Fl.query_norm. rewrite exact_norm_sq.
  change (Fl._vectorize_query exact (Fl.AIRecommender exact cat) query)
    with (_vectorize_query (exact_state (Fl.AIRecommender exact cat)) query).
  change (Fl.doc_norms (Fl.AIRecommender exact cat))
    with (doc_norms (exact_state (Fl.AIRecommender exact cat))).
  change (Fl.tf_vectors (Fl.AIRecommender exact cat))
    with (tf_vectors (exact_state (Fl.AIRecommender exact cat))).
  rewrite exact_index. cbn [Fl.fsqrt exact].
  fold (norm (_vectorize_query (AIRecommender cat) query)).
  rewrite (exact_score_documents _ _ _ _ Hq). apply score_documents_index.
Qed.

(** At exact arithmetic the scores, where they are computed, lie between
    0 and 1. *)
Lemma exact_similarities_bounds (cat : catalog) (query : string)
    (scores : list (string * R)) :
  Fl.similarities exact (Fl.AIRecommender exact cat) query = Ok scores ->
  Forall (fun p => (0 <= snd p <= 1)%R) scores.
Proof.
  unfold Fl.similarities, Fl.query_norm. rewrite exact_norm_sq.
  change (Fl._vectorize_query exact (Fl.AIRecommender exact cat) query)
    with (_vectorize_query (exact_state (Fl.AIRecommender exact cat)) query).
  change (Fl.doc_norms (Fl.AIRecommender exact cat))
    with (doc_norms (exact_state (Fl.AIRecommender exact cat))).
  change (Fl.tf_vectors (Fl.AIRecommender exact cat))
    with (tf_vectors (exact_state (Fl.AIRecommender exact cat))).
  rewrite exact_index. cbn [Fl.fsqrt exact].
  fold (norm (_vectorize_query (AIRecommender cat) query)).
  destruct (Req_dec_T (norm (_vectorize_query (AIRecommender cat) query)) 0)
    as [E|Hq].
  - rewrite E. intros H. apply FlFacts.fl_score_documents in H.
    induction H as [|kv p vectors scores' [_ (dn & _ & Hs)] _ IH];
      constructor; [|exact IH].
    unfold Fl.similarity in Hs. cbn [Fl.flt Fl.feq Fl.fmul Fl.of_nat exact] in Hs.
    change (INR 0) with 0%R in Hs.
    destruct (Rlt_dec 0 dn); [|injection Hs as <-; lra].
    rewrite Rmult_0_l in Hs. destruct (Req_dec_T 0 0); [discriminate | congruence].
  - rewrite (exact_score_documents _ _ _ _ Hq), (score_documents_index cat query).
    intros [= <-]. now apply similarities_bounds.
Qed.

Lemma exact_match_score_bound (cat : catalog) (query : string) (top_k : Z)
    (rs : list (Fl.recommendation exact)) :
  Fl.recommend exact (Fl.AIRecommender exact cat) query top_k = Ok rs ->
  Forall (fun rec : Fl.recommendation exact => (Fl.match_score rec <= 100)%R) rs.
Proof.
  intros H. apply FlFacts.fl_recommend in H as [[_ ->] | (_ & scores & Hs & HF)];
    [constructor|].
  apply exact_similarities_bounds in Hs. rewrite Forall_forall in Hs.
  assert (Hin : forall p, In p (Fl.shown exact scores top_k) -> In p scores)
    by (intros p Hp; now apply FlFacts.fl_shown_incl in Hp).
  induction HF as [|rec p rs l [_ Hms] _ IH]; constructor.
  - rewrite Hms. cbn [Fl.round1 Fl.fmul Fl.of_nat exact]. rewrite INR_hundred.
    assert (B := Hs p (Hin p (or_introl eq_refl))).
    change (Fl.num exact) with R in *.
    assert (C : (round1 (snd p * 100) <= IZR 1000 / 10)%R)
      by (apply round1_le; lra).
    lra.
  - apply IH. intros q Hq. apply Hin. now right.
Qed.

(* ------------------------------------------------------------------ *)
(** ** Threshold, order and range of the computed scores *)

(** C1 (as the code has it). Whatever the arithmetic, every record
    [recommend] returns comes from a document of the score list whose
    computed similarity [s] passes the test [s > 0.05], and its
    [match_score] is [round(s * 100, 1)].  Where rounding is monotone (as
    the product and [round] of binary64 are) no [match_score] is below
    5.0; the value 5.0 itself is returned. *)
Theorem recommend_above_threshold (A : Fl.arith) (cat : catalog) (query : string)
    (top_k : Z) (rs : list (Fl.recommendation A)) :
  Fl.recommend A (Fl.AIRecommender A cat) query top_k = Ok rs ->
  Forall (fun rec =>
            exists scores s,
              Fl.similarities A (Fl.AIRecommender A cat) query = Ok scores
              /\ In (Fl.res_id rec, s) scores
              /\ Fl.flt A (Fl.threshold A) s = true
              /\ Fl.match_score rec = Fl.round1 A (Fl.fmul A s (Fl.of_nat A 100))
              /\ (Fl.rounding_laws A ->
                  Fl.flt A (Fl.match_score rec) (Fl.of_nat A 5) = false)) rs.
Proof.
  intros H.
  apply FlFacts.fl_recommend in H as [[_ ->] | (_ & scores & Hs & HF)];
    [constructor|].
  assert (Hin : forall p, In p (Fl.shown A scores top_k) ->
                  In p scores /\ Fl.relevant A p = true)
    by (intros p; apply FlFacts.fl_shown_incl).
  induction HF as [|rec [id s] rs l [Hid Hms] _ IH]; constructor.
  - destruct (Hin (id, s) (or_introl eq_refl)) as [Hp Hr].
    unfold Fl.relevant in Hr. simpl in Hid, Hms, Hr.
    exists scores, s. rewrite Hid. repeat split; try assumption.
    intros [Hmono Hthr Hround Hfive]. rewrite Hms, <- Hfive.
    apply Hround. rewrite <- Hthr. now apply Hmono.
  - apply IH. intros p Hp. apply Hin. now right.
Qed.

(** C6. Whatever the arithmetic, the records [recommend] returns follow
    a list [shown] of scored documents taken from the score list, whose
    keys are the keys of the catalog in its iteration order.  Where [<]
    orders the computed scores, a document standing before another in
    the output has a computed score that is not less, and of two
    documents whose computed scores are equal the one inserted first
    stands first. *)
Theorem recommend_in_score_order (A : Fl.arith) (cat : catalog) (query : string)
    (top_k : Z) (rs : list (Fl.recommendation A)) :
  NoDup (dict_keys cat) ->
  Fl.recommend A (Fl.AIRecommender A cat) query top_k = Ok rs ->
  (Fl.feq A (Fl.query_norm A (Fl.AIRecommender A cat) query) (Fl.of_nat A 0) = true
   /\ rs = [])
  \/ exists scores shown,
       Fl.similarities A (Fl.AIRecommender A cat) query = Ok scores
       /\ map fst scores = dict_keys cat
       /\ map Fl.res_id rs = map fst shown
       /\ incl shown scores
       /\ (Fl.ordered A (map snd scores) = true ->
           forall a b, before a b shown ->
             Fl.flt A (snd a) (snd b) = false
             /\ (Fl.flt A (snd b) (snd a) = false ->
                 before (fst a) (fst b) (dict_keys cat))).
Proof.
  intros Hnd H.
  destruct (FlFacts.fl_recommend_order A cat query top_k rs Hnd H)
    as [Hz | (scores & Hs & Hkeys & Hid & Hincl & Hord)]; [now left | right].
  now exists scores, (Fl.shown A scores top_k).
Qed.



(** ** Evaluation in binary64 *)


(** In binary64 the valley catalog returns its destination with the
    [match_score] 5.0. *)
Lemma valley_binary64 :
  Fl.recommend double (Fl.AIRecommender double valley_catalog)
    "beach" 3
  = Ok [valley_shown].
Proof. vm_compute. reflexivity. Qed.

Lemma recommend_above_threshold_witness :
  Forall (fun rec : Fl.recommendation double =>
            exists scores s,
              Fl.similarities double
                (Fl.AIRecommender double valley_catalog) "beach"
              = Ok scores
              /\ In (Fl.res_id rec, s) scores
              /\ PrimFloat.ltb (Fl.threshold double) s = true
              /\ Fl.match_score rec
                 = Binary64.round1 (PrimFloat.mul s (Binary64.of_nat 100))
              /\ (Fl.rounding_laws double ->
                  PrimFloat.ltb (Fl.match_score rec) (Binary64.of_nat 5) = false))
         [valley_shown].
Proof.
  apply (recommend_above_threshold double valley_catalog "beach" 3).
  vm_compute. reflexivity.
Defined.

Lemma trio_keys : NoDup (dict_keys trio_catalog).
Proof.
  repeat constructor; simpl; intuition discriminate.
Qed.

Lemma trio_binary64 :
  Fl.similarities double
    (Fl.AIRecommender double trio_catalog) "beach" = Ok trio_scores
  /\ Fl.recommend double
       (Fl.AIRecommender double trio_catalog) "beach" 3 = Ok trio_shown
  /\ map fst trio_scores = ["east"; "north"; "south"]
  /\ map Fl.res_id trio_shown = ["north"; "south"; "east"]
  /\ Fl.ordered double (map snd trio_scores) = true.
Proof. repeat split; vm_compute; reflexivity. Qed.

Lemma recommend_in_score_order_witness :
  exists shown,
    map Fl.res_id trio_shown = map fst shown
    /\ incl shown trio_scores
    /\ forall a b, before a b shown ->
         PrimFloat.ltb (snd a) (snd b) = false
         /\ (PrimFloat.ltb (snd b) (snd a) = false ->
             before (fst a) (fst b) (dict_keys trio_catalog)).
Proof.
  destruct trio_binary64 as (Hs & Hr & _ & _ & Hord).
  destruct (recommend_in_score_order double trio_catalog "beach" 3
              trio_shown trio_keys Hr)
    as [[_ E] | (scores & shown & Hs' & _ & Hid & Hincl & Horder)];
    [discriminate E|].
  rewrite Hs in Hs'. injection Hs' as <-.
  exists shown. split; [exact Hid|]. split; [exact Hincl|].
  exact (Horder Hord).
Defined.

(** C8. On the catalog whose only destination has the tag ["beach"] and
    no description, [get_suggestions] finds the destination by its tag
    and raises [KeyError] while it builds the record. *)
Theorem get_suggestions_missing_description :
  has_tag "beach" ("coral", coral) = true
  /\ get_suggestions (AIRecommender coral_catalog) "beach"
     = Raise (KeyError "description").
Proof. split; reflexivity. Qed.

(** ** The request handler *)

Lemma recommend_complete (cat : catalog) (query : string) :
  Forall (fun item => complete (snd item)) cat ->
  exists rs,
    recommend (AIRecommender cat) query 3 = Ok rs /\ length rs <= 3.
Proof.
  intros Hc. rewrite recommend_unfold. destruct (Req_dec_T _ 0).
  - exists []. split; [reflexivity | simpl; lia].
  - destruct (format_all_complete cat (ranked (AIRecommender cat) query 3)
                Hc (ranked_keys cat _ 3)) as [rs Hrs].
    exists rs. split; [exact Hrs|].
    apply format_all_shape in Hrs as [Hids _].
    apply (f_equal (@length _)) in Hids. rewrite !length_map in Hids.
    rewrite Hids, ranked_nonneg by lia. apply firstn_le_length.
Qed.

(** X17. On a catalog whose destinations all carry [type], [eco_score] and
    [description], as those of the knowledge base do, the handler of
    [/api/ai-recommend] answers a body that is an object whose query is a
    string, or absent, with at most three records and no exception, and
    the empty query with the empty list.  A query that is not a string
    gets the empty list when it is falsy and raises [AttributeError] at
    [text.lower()] otherwise; a body that is not an object raises
    [AttributeError] at [data.get].  While the recommender is not built,
    every object gets the empty list. *)
Theorem api_ai_recommend_total (cat : catalog) (data : json) :
  Forall (fun item => complete (snd item)) cat ->
  match data with
  | JObject members =>
      match dict_get_default members "query" (JString "") with
      | JString text =>
          exists rs,
            api_ai_recommend (Some (AIRecommender cat)) data = Ok rs
            /\ length rs <= 3
            /\ (text = "" -> rs = [])
      | query =>
          api_ai_recommend (Some (AIRecommender cat)) data
          = if truthy query then Raise (AttributeError "lower") else Ok []
      end
      /\ api_ai_recommend None data = Ok []
  | _ =>
      api_ai_recommend (Some (AIRecommender cat)) data = Raise (AttributeError "get")
      /\ api_ai_recommend None data = Raise (AttributeError "get")
  end.
Proof.
  intros Hc. destruct data as [|b|z|x|s|items|members]; try (split; reflexivity).
  unfold api_ai_recommend. split.
  - destruct (dict_get_default members "query" (JString "")) as [|b|z|x|s|items|ms];
      try reflexivity.
    + now destruct (truthy (JBool b)).
    + now destruct (truthy (JInt z)).
    + now destruct (truthy (JFloat x)).
    + simpl. destruct (String.eqb_spec s "") as [->|Hne]; simpl.
      * exists []. repeat split. simpl. lia.
      * destruct (recommend_complete cat s Hc) as (rs & Hrs & Hlen).
        exists rs. repeat split; [exact Hrs | exact Hlen | contradiction].
    + now destruct (truthy (JArray items)).
    + now destruct (truthy (JObject ms)).
  - now destruct (negb _).
Qed.

Lemma api_ai_recommend_total_witness :
  (exists rs,
     api_ai_recommend (Some (AIRecommender knowledge_base))
       (JObject [("query", JString "quiet beach with coral reef")]) = Ok rs
     /\ length rs <= 3
     /\ ("quiet beach with coral reef" = "" -> rs = []))
  /\ api_ai_recommend None
       (JObject [("query", JString "quiet beach with coral reef")]) = Ok [].
Proof.
  apply (api_ai_recommend_total knowledge_base
           (JObject [("query", JString "quiet beach with coral reef")])).
  repeat constructor; discriminate.
Defined.
